(** * SIWE authenticated fetch: the challenge-response flow of
    [siwe-auth-fetch] ([authFetch], [createAuthFetch]) and of the example
    application's [oauth.ts] ([fetchWithOAuth]).

    The three implementations share the challenge parser.  Module
    [AuthFetch] is the version of [siwe-auth-fetch] whose [authFetch] holds
    the flow, module [Factory] the version built on [createAuthFetch], and
    module [OAuth] the application's [oauth.ts].

    JavaScript strings are modelled by [string].  Every character the code
    inspects (the double quote, the word characters of [\w], the space, the
    letters of ["/token"]) is ASCII, so the scans below act on the UTF-8
    bytes of a text exactly as the JavaScript operations act on its code
    units. *)

From Stdlib Require Import ZArith Ascii String DecimalString DecimalPos.
From stdpp Require Import gmap strings list.
From Equations Require Import Equations.

Local Open Scope string_scope.
Local Open Scope Z_scope.

#[local] Arguments String.append !s1 s2 : simpl nomatch.

(** ** Characters and string helpers *)

Definition dquote : ascii := "034"%char.

Definition in_range (lo hi c : ascii) : bool :=
  ((nat_of_ascii lo <=? nat_of_ascii c) && (nat_of_ascii c <=? nat_of_ascii hi))%nat.

Definition is_digit (c : ascii) : bool := in_range "0" "9" c.

(** The class [\w] of a regular expression without the unicode flag:
    [A-Za-z0-9_]. *)
Definition is_word (c : ascii) : bool :=
  in_range "a" "z" c || in_range "A" "Z" c || is_digit c || Ascii.eqb c "_".

(** The class of every character but the double quote. *)
Definition not_quote (c : ascii) : bool := negb (Ascii.eqb c dquote).

(** Longest prefix of characters satisfying [p], and the rest: what a greedy
    [c+] consumes when it is followed by something [c] excludes. *)
Fixpoint span (p : ascii -> bool) (s : string) : string * string :=
  match s with
  | EmptyString => (EmptyString, EmptyString)
  | String c s' =>
      if p c then let '(a, b) := span p s' in (String c a, b)
      else (EmptyString, s)
  end.

Fixpoint all_chars (p : ascii -> bool) (s : string) : bool :=
  match s with
  | EmptyString => true
  | String c s' => p c && all_chars p s'
  end.

Definition nonempty (s : string) : bool :=
  match s with EmptyString => false | _ => true end.

(** [is_prefix p s]: [s] starts with [p] *)
Fixpoint is_prefix (p s : string) : bool :=
  match p, s with
  | EmptyString, _ => true
  | String a p', String b s' => Ascii.eqb a b && is_prefix p' s'
  | String _ _, EmptyString => false
  end.

Fixpoint drop_chars (n : nat) (s : string) : string :=
  match n, s with
  | O, _ => s
  | S n', String _ s' => drop_chars n' s'
  | S _, EmptyString => EmptyString
  end.

(** ** The regular expression [/(\w+)=Q([^Q]+)Q/g], Q the double quote

    [match_at s] is one attempt of the expression at the start of [s]: the
    key captured by [(\w+)], the value captured by [([^Q]+)] and the text
    after the closing quote.  Backtracking cannot help either [+]: a shorter
    run is followed by a character of the same class, which neither [=] nor
    the closing quote is.  The run of [span not_quote] ends at a quote or at
    the end of the text, so a character behind it is the closing quote. *)
Definition match_at (s : string) : option (string * string * string) :=
  let '(key, r1) := span is_word s in
  if nonempty key then
    match r1 with
    | String e (String q r2) =>
        if Ascii.eqb e "=" && Ascii.eqb q dquote then
          let '(val, r3) := span not_quote r2 in
          if nonempty val then
            match r3 with
            | String _ r4 => Some (key, val, r4)
            | EmptyString => None
            end
          else None
        else None
    | _ => None
    end
  else None.

Lemma span_length p s : (String.length (snd (span p s)) <= String.length s)%nat.
Proof.
  induction s as [|c s IH]; simpl; [lia|].
  destruct (p c); simpl; [|lia].
  destruct (span p s); simpl in *; lia.
Qed.

Lemma match_at_shorter s k v r :
  match_at s = Some (k, v, r) -> (String.length r < String.length s)%nat.
Proof.
  unfold match_at.
  pose proof (span_length is_word s) as H1.
  destruct (span is_word s) as [key r1]; simpl in H1.
  destruct (nonempty key); [|discriminate].
  destruct r1 as [|e [|q r2]]; try discriminate.
  destruct (Ascii.eqb e "=" && Ascii.eqb q dquote); [|discriminate].
  pose proof (span_length not_quote r2) as H2.
  destruct (span not_quote r2) as [val r3]; simpl in H2.
  destruct (nonempty val); [|discriminate].
  destruct r3 as [|c3 r4]; [discriminate|].
  intros [= <- <- <-]; simpl in *; lia.
Qed.

Definition inspect {A} (a : A) : {b : A | a = b} := exist _ a eq_refl.

(** The global scan: [header.matchAll(regex)], and equally the loop
    [while ((match = regex.exec(header)) !== null)].  After a match the scan
    resumes behind it ([lastIndex]); after a failed attempt it moves one
    character on. *)
Equations? matchAll (s : string) : list (string * string)
  by wf (String.length s) lt :=
  matchAll s with inspect (match_at s) => {
    | exist _ (Some (k, v, r)) _ := (k, v) :: matchAll r;
    | exist _ None _ with s => {
        | EmptyString := [];
        | String _ s' := matchAll s' } }.
Proof. eapply match_at_shorter; eauto. Qed.

(** ** Numbers and [parseInt]

    A JavaScript number as far as this code looks at it: an integer or
    [NaN].  Values beyond 2^53, which a double rounds, play no role below. *)
Inductive number := NaN | Num (z : Z).

(** Truthiness of a number: [0], [-0] and [NaN] are falsy. *)
Definition number_truthy (n : number) : bool :=
  match n with NaN => false | Num z => negb (z =? 0) end.

(** White space skipped by [parseInt] (its ASCII members). *)
Definition is_space (c : ascii) : bool :=
  let n := nat_of_ascii c in
  ((9 <=? n) && (n <=? 13) || (n =? 32))%nat.

Definition digit_value (c : ascii) : Z := Z.of_nat (nat_of_ascii c) - 48.

Fixpoint digits_value (acc : Z) (s : string) : Z :=
  match s with
  | EmptyString => acc
  | String c s' => digits_value (10 * acc + digit_value c) s'
  end.

(** [parseInt(s, 10)]: leading white space, an optional sign, then the
    longest run of decimal digits; [NaN] when that run is empty. *)
Definition parseInt (s : string) : number :=
  let s1 := snd (span is_space s) in
  let '(neg, s2) :=
    match s1 with
    | String c r =>
        if Ascii.eqb c "-" then (true, r)
        else if Ascii.eqb c "+" then (false, r)
        else (false, s1)
    | EmptyString => (false, s1)
    end in
  let ds := fst (span is_digit s2) in
  if nonempty ds then Num (if neg then - digits_value 0 ds else digits_value 0 ds)
  else NaN.

(** ** The challenge parser *)

Module OAuthChallenge.
Record t := {
  realm : string;
  scope : string;
  tokenUri : string;
  chainId : number;
  signingScheme : string
}.
End OAuthChallenge.

(** [params[match[1]] = match[2]] for every match, in order.  Only the own
    properties [realm], [scope], [token_uri], [chain_id] and
    [signing_scheme] are read back, none of which [Object.prototype]
    defines, so the object is a finite map. *)
Definition collect_params (ms : list (string * string)) : gmap string string :=
  foldl (fun params m => <[m.1 := m.2]> params) ∅ ms.

(** Truthiness of an optional string: [undefined], [null] and the empty
    string are falsy. *)
Definition truthy_string (o : option string) : bool :=
  match o with Some v => nonempty v | None => false end.

Definition string_value (o : option string) : string := default EmptyString o.

(** [CHAIN_ID] of [oauth.ts]; [siwe-auth-fetch] writes the literal 1. *)
Definition CHAIN_ID : number := Num 1.

Definition parseWWWAuthenticateChallenge (header : string)
  : option OAuthChallenge.t :=
  let params := collect_params (matchAll header) in
  if negb (truthy_string (params !! "realm"))
     || negb (truthy_string (params !! "scope"))
     || negb (truthy_string (params !! "token_uri"))
  then None
  else Some {|
    OAuthChallenge.realm := string_value (params !! "realm");
    OAuthChallenge.scope := string_value (params !! "scope");
    OAuthChallenge.tokenUri := string_value (params !! "token_uri");
    OAuthChallenge.chainId :=
      if truthy_string (params !! "chain_id")
      then parseInt (string_value (params !! "chain_id"))
      else CHAIN_ID;
    OAuthChallenge.signingScheme :=
      if truthy_string (params !! "signing_scheme")
      then string_value (params !! "signing_scheme")
      else "eip4361"
  |}.

(** Writing headers down: [pair_text k v] is [k], an equals sign and [v]
    between double quotes. *)
Definition quoted (v : string) : string := String dquote (v ++ String dquote EmptyString).
Definition pair_text (k v : string) : string := k ++ "=" ++ quoted v.

(** ** [String.prototype.replace] and [split]

    [replace pat rep s] is [s.replace(pat, rep)] for a string pattern: the
    first occurrence only.  The replacements used here (["/nonce"] and the
    empty string) hold no [$], which is the only character [replace] treats
    specially in a replacement. *)
Fixpoint replace (pat rep s : string) : string :=
  if is_prefix pat s then rep ++ drop_chars (String.length pat) s
  else
    match s with
    | EmptyString => EmptyString
    | String c s' => String c (replace pat rep s')
    end.

(** [s.split(sep)] for a separator of one character. *)
Fixpoint split (sep : ascii) (s : string) : list string :=
  match s with
  | EmptyString => [EmptyString]
  | String c s' =>
      if Ascii.eqb c sep then EmptyString :: split sep s'
      else
        match split sep s' with
        | x :: r => String c x :: r
        | [] => [String c EmptyString]
        end
  end.

(** ** JavaScript values, as far as JSON bodies bring them in *)

#[warnings="-register-all"] Inductive JSValue :=
| JUndefined
| JNull
| JBool (b : bool)
| JNum (z : Z)
| JStr (s : string)
| JArr (items : list JSValue)
| JObj (fields : list (string * JSValue)).

Definition truthy (v : JSValue) : bool :=
  match v with
  | JUndefined | JNull => false
  | JBool b => b
  | JNum z => negb (z =? 0)
  | JStr s => nonempty s
  | JArr _ | JObj _ => true
  end.

Definition show_Z (z : Z) : string := NilZero.string_of_int (Z.to_int z).

(** [ToString], the coercion of template literals and of [new Error(v)],
    for the values met here: a text is itself, [undefined], [null] and the
    booleans print as their names, an integer below 10^21 in decimal, an
    object without a [toString] of its own as [[object Object]]. *)
Fixpoint to_string (v : JSValue) : string :=
  match v with
  | JUndefined => "undefined"
  | JNull => "null"
  | JBool true => "true"
  | JBool false => "false"
  | JNum z => show_Z z
  | JStr s => s
  | JArr items =>
      (fix join (l : list JSValue) : string :=
         match l with
         | [] => EmptyString
         | x :: r =>
             let sx := match x with
                       | JUndefined | JNull => EmptyString
                       | _ => to_string x
                       end in
             match r with [] => sx | _ => sx ++ "," ++ join r end
         end) items
  | JObj _ => "[object Object]"
  end.

(** What this code throws or sees thrown. *)
Inductive Exn :=
| JsError (message : string)     (* [throw new Error(message)] *)
| TypeError (message : string)   (* raised by the runtime *)
| Rejected (reason : string).    (* failure of a collaborator *)

Fixpoint assoc (k : string) (l : list (string * JSValue)) : option JSValue :=
  match l with
  | [] => None
  | (k', v) :: r => if String.eqb k k' then Some v else assoc k r
  end.

(** [v.k] for one of the keys read here ([nonce], [error], [access_token],
    [scope]), which no primitive wrapper and no array defines. *)
Definition get_prop (v : JSValue) (k : string) : Exn + JSValue :=
  match v with
  | JUndefined | JNull => inl (TypeError ("Cannot read properties of " ++ to_string v))
  | JObj fields => inr (default JUndefined (assoc k fields))
  | _ => inr JUndefined
  end.

(** ** Requests and responses *)

Definition Headers := list (string * string).

Definition lower (c : ascii) : ascii :=
  if in_range "A" "Z" c then ascii_of_nat (nat_of_ascii c + 32) else c.

Fixpoint lower_string (s : string) : string :=
  match s with
  | EmptyString => EmptyString
  | String c s' => String (lower c) (lower_string s')
  end.

(** Header names compare without regard to case. *)
Definition same_name (a b : string) : bool :=
  String.eqb (lower_string a) (lower_string b).

(** [headers.get(name)]: [null] when no header has the name, else the values
    joined by a comma and a space. *)
Definition headers_get (name : string) (h : Headers) : option string :=
  match filter (fun kv => Is_true (same_name name kv.1)) h with
  | [] => None
  | kv :: r => Some (foldl (fun acc kv' => acc ++ ", " ++ kv'.2) kv.2 r)
  end.

(** [headers.set(name, value)]: the first header of that name takes the
    value and the others go; without one the header is appended. *)
Definition headers_set (name value : string) (h : Headers) : Headers :=
  if decide (headers_get name h = None) then (h ++ [(name, value)])%list
  else
    (fix go (seen : bool) (l : Headers) : Headers :=
       match l with
       | [] => []
       | kv :: r =>
           if same_name name kv.1
           then (if seen then go true r else (kv.1, value) :: go true r)
           else kv :: go seen r
       end) false h.

Module RequestInit.
Record t := {
  method : option string;
  headers : Headers;
  body : option string;
  other : list (string * string)   (* every further option, passed through *)
}.
End RequestInit.

(** [fetch(input)] without options, and [{}]. *)
Definition no_init : RequestInit.t :=
  {| RequestInit.method := None; RequestInit.headers := [];
     RequestInit.body := None; RequestInit.other := [] |}.

(** [{ ...init, headers }] *)
Definition with_headers (init : RequestInit.t) (h : Headers) : RequestInit.t :=
  {| RequestInit.method := RequestInit.method init;
     RequestInit.headers := h;
     RequestInit.body := RequestInit.body init;
     RequestInit.other := RequestInit.other init |}.

Module Response.
Record t := {
  status : Z;
  headers : Headers;
  json : Exn + JSValue            (* what [response.json()] settles to *)
}.
Definition ok (r : t) : bool := (200 <=? status r) && (status r <=? 299).
End Response.

(** ** The arguments of [createSiweMessage] *)

Module Siwe.
Record params := {
  address : string;
  chainId : number;
  domain : string;
  nonce : JSValue;
  uri : string;
  version : string;
  statement : string;
  resources : list string
}.
End Siwe.

(** ** Effects

    A run threads the state of the outside world and of the one variable
    the code keeps between calls, and yields, in order, what it asked of its
    collaborators. *)

Inductive Event :=
| EFetch (input : string) (init : RequestInit.t)   (* [fetch(input, init)] *)
| EParse (header : string)                         (* the challenge parser *)
| ECreateSiwe (p : Siwe.params)                    (* [createSiweMessage(p)] *)
| ESign (message : string)                         (* the signer *)
| EOnToken (token scope : JSValue).                (* the token callback *)

Record State (W : Type) := {
  world : W;
  currentToken : JSValue   (* the variable captured by [createAuthFetch] *)
}.
Arguments world {W} _.
Arguments currentToken {W} _.

Definition M (W A : Type) : Type :=
  State W -> (Exn + A) * State W * list Event.

Definition ret {W A} (a : A) : M W A := fun st => (inr a, st, []).

Definition throw {W A} (e : Exn) : M W A := fun st => (inl e, st, []).

Definition bind {W A B} (m : M W A) (k : A -> M W B) : M W B :=
  fun st =>
    match m st with
    | (inr a, st1, ev1) =>
        let '(r, st2, ev2) := k a st1 in (r, st2, (ev1 ++ ev2)%list)
    | (inl e, st1, ev1) => (inl e, st1, ev1)
    end.

Notation "x <- m ;; k" := (bind m (fun x => k))
  (at level 200, m at level 99, k at level 200, right associativity).

(** A value or a throw that is already settled. *)
Definition lift {W A} (r : Exn + A) : M W A := fun st => (r, st, []).

(** [promise.catch(handler)] *)
Definition catch {W A} (m : M W A) (handler : Exn -> M W A) : M W A :=
  fun st =>
    match m st with
    | (inr a, st1, ev1) => (inr a, st1, ev1)
    | (inl e, st1, ev1) =>
        let '(r, st2, ev2) := handler e st1 in (r, st2, (ev1 ++ ev2)%list)
    end.

Definition log {W} (e : Event) : M W unit := fun st => (inr tt, st, [e]).

(** A call into the world: it answers and moves on. *)
Definition call {W A} (f : W -> (Exn + A) * W) : M W A :=
  fun st =>
    let '(r, w) := f (world st) in
    (r, {| world := w; currentToken := currentToken st |}, []).

Definition get_currentToken {W} : M W JSValue :=
  fun st => (inr (currentToken st), st, []).

Definition set_currentToken {W} (v : JSValue) : M W unit :=
  fun st => (inr tt, {| world := world st; currentToken := v |}, []).

(** The platform and library functions the code imports. *)
Record Env (W : Type) := {
  fetch : string -> RequestInit.t -> W -> (Exn + Response.t) * W;
  createSiweMessage : Siwe.params -> W -> (Exn + string) * W;
  url_host : string -> Exn + string;        (* [new URL(uri).host] *)
  JSON_stringify : JSValue -> string
}.
Arguments fetch {W} _.
Arguments createSiweMessage {W} _.
Arguments url_host {W} _.
Arguments JSON_stringify {W} _.

(** What the caller hands over ([AuthFetchOptions]). *)
Module Options.
Record t (W : Type) := {
  address : string;
  signMessage : string -> W -> (Exn + string) * W;
  chainId : option number;
  token : option string;
  onToken : option (JSValue -> JSValue -> W -> (Exn + unit) * W)
}.
Arguments address {W} _.
Arguments signMessage {W} _.
Arguments chainId {W} _.
Arguments token {W} _.
Arguments onToken {W} _.
End Options.

Section Calls.
Context {W : Type} (env : Env W).

Definition do_fetch (input : string) (init : RequestInit.t) : M W Response.t :=
  _ <- log (EFetch input init) ;; call (fetch env input init).

(** The parser is pure; its call is recorded so that a run shows whether it
    was consulted. *)
Definition do_parse (header : string) : M W (option OAuthChallenge.t) :=
  _ <- log (EParse header) ;; ret (parseWWWAuthenticateChallenge header).

Definition do_createSiweMessage (p : Siwe.params) : M W string :=
  _ <- log (ECreateSiwe p) ;; call (createSiweMessage env p).

Definition do_sign (signMessage : string -> W -> (Exn + string) * W)
    (message : string) : M W string :=
  _ <- log (ESign message) ;; call (signMessage message).

(** [onToken?.(a, b)], the arguments evaluated only when there is a
    callback. *)
Definition do_onToken
    (onToken : option (JSValue -> JSValue -> W -> (Exn + unit) * W))
    (tokenResponse : JSValue) : M W unit :=
  match onToken with
  | None => ret tt
  | Some cb =>
      access_token <- lift (get_prop tokenResponse "access_token") ;;
      scope <- lift (get_prop tokenResponse "scope") ;;
      _ <- log (EOnToken access_token scope) ;;
      call (cb access_token scope)
  end.
End Calls.

(** The text [Bearer <token>] built by a template literal. *)
Definition bearer (token : JSValue) : string := "Bearer " ++ to_string token.

(** [init] of [authFetch]: [RequestInit & AuthFetchOptions], the two parts
    that the destructuring separates. *)
Module AuthRequestInit.
Record t (W : Type) := {
  options : Options.t W;
  fetchInit : RequestInit.t
}.
Arguments options {W} _.
Arguments fetchInit {W} _.
End AuthRequestInit.

(** The body given to [JSON.stringify] by [exchangeToken]. *)
Definition token_request (message signature scope : string) : JSValue :=
  JObj [("grant_type", JStr "eth_signature");
        ("message", JStr message);
        ("signature", JStr signature);
        ("scope", JStr scope)].

(** ** [siwe-auth-fetch], the version with the flow inside [authFetch]

    A request target ([RequestInfo | URL]) is kept as the text that
    [input.toString()] gives, which for a string is the string. *)
Module AuthFetch.
Section Code.
Context {W : Type} (env : Env W).

Definition fetchNonce (tokenUri : string) : M W JSValue :=
  let nonceUrl := replace "/token" "/nonce" tokenUri in
  response <- do_fetch env nonceUrl no_init ;;
  if negb (Response.ok response) then
    throw (JsError ("Failed to fetch nonce: " ++ show_Z (Response.status response)))
  else
    data <- lift (Response.json response) ;;
    lift (get_prop data "nonce").

Definition buildSiweMessage (address : string) (nonce : JSValue)
    (scopes : list string) (uri : string) (chainId : number) : M W string :=
  domain <- lift (url_host env uri) ;;
  let resources := map (fun scope => "urn:oauth:scope:" ++ scope) scopes in
  do_createSiweMessage env
    {| Siwe.address := address;
       Siwe.chainId := chainId;
       Siwe.domain := domain;
       Siwe.nonce := nonce;
       Siwe.uri := uri;
       Siwe.version := "1";
       Siwe.statement := "Authorize access to your private data.";
       Siwe.resources := resources |}.

Definition exchangeToken (tokenUri message signature scope : string)
  : M W JSValue :=
  response <- do_fetch env tokenUri
    {| RequestInit.method := Some "POST";
       RequestInit.headers := [("Content-Type", "application/json")];
       RequestInit.body :=
         Some (JSON_stringify env (token_request message signature scope));
       RequestInit.other := [] |} ;;
  if negb (Response.ok response) then
    error <- catch (lift (Response.json response)) (fun _ => ret (JObj [])) ;;
    reason <- lift (get_prop error "error") ;;
    throw (JsError
             (if truthy reason then to_string reason
              else "Token exchange failed: " ++ show_Z (Response.status response)))
  else lift (Response.json response).

Definition authFetch (input : string) (init : AuthRequestInit.t W)
  : M W Response.t :=
  let address := Options.address (AuthRequestInit.options init) in
  let signMessage := Options.signMessage (AuthRequestInit.options init) in
  let chainId := default (Num 1) (Options.chainId (AuthRequestInit.options init)) in
  let token := Options.token (AuthRequestInit.options init) in
  let onToken := Options.onToken (AuthRequestInit.options init) in
  let fetchInit := AuthRequestInit.fetchInit init in
  let url := input in
  let headers :=
    if truthy_string token
    then headers_set "Authorization" ("Bearer " ++ string_value token) (RequestInit.headers fetchInit)
    else RequestInit.headers fetchInit in
  response <- do_fetch env input (with_headers fetchInit headers) ;;
  if Response.status response =? 401 then
    let wwwAuthenticate := headers_get "WWW-Authenticate" (Response.headers response) in
    if negb (truthy_string wwwAuthenticate) then ret response
    else
      challenge <- do_parse (string_value wwwAuthenticate) ;;
      match challenge with
      | None => ret response
      | Some challenge =>
          if negb (String.eqb (OAuthChallenge.signingScheme challenge) "eip4361") then
            throw (JsError ("Unsupported signing scheme: " ++ OAuthChallenge.signingScheme challenge))
          else
            nonce <- fetchNonce (OAuthChallenge.tokenUri challenge) ;;
            let scopes := split " " (OAuthChallenge.scope challenge) in
            siweMessage <-
              buildSiweMessage address nonce scopes url
                (if number_truthy (OAuthChallenge.chainId challenge)
                 then OAuthChallenge.chainId challenge else chainId) ;;
            signature <- do_sign signMessage siweMessage ;;
            tokenResponse <-
              exchangeToken (OAuthChallenge.tokenUri challenge) siweMessage signature
                (OAuthChallenge.scope challenge) ;;
            _ <- do_onToken onToken tokenResponse ;;
            access_token <- lift (get_prop tokenResponse "access_token") ;;
            let retryHeaders :=
              headers_set "Authorization" (bearer access_token) (RequestInit.headers fetchInit) in
            do_fetch env input (with_headers fetchInit retryHeaders)
      end
  else ret response.
End Code.
End AuthFetch.


(** ** [siwe-auth-fetch], the version built on [createAuthFetch]

    Its [parseWWWAuthenticateChallenge], [fetchNonce], [buildSiweMessage]
    and [exchangeToken] are those of the version above. *)
Module Factory.
Section Code.
Context {W : Type} (env : Env W).

(** The function [authFetch] that [createAuthFetch] returns, its captured
    constants read from [options]; [currentToken] is the variable it
    closes over. *)
Definition authFetch_bound (options : Options.t W)
    (input : string) (init : option RequestInit.t) : M W Response.t :=
  let address := Options.address options in
  let signMessage := Options.signMessage options in
  let chainId := default (Num 1) (Options.chainId options) in
  let onToken := Options.onToken options in
  let url := input in
  let init_headers :=
    match init with Some i => RequestInit.headers i | None => [] end in
  currentToken <- get_currentToken ;;
  let headers :=
    if truthy currentToken
    then headers_set "Authorization" (bearer currentToken) init_headers
    else init_headers in
  response <- do_fetch env input (with_headers (default no_init init) headers) ;;
  if Response.status response =? 401 then
    let wwwAuthenticate := headers_get "WWW-Authenticate" (Response.headers response) in
    if negb (truthy_string wwwAuthenticate) then ret response
    else
      challenge <- do_parse (string_value wwwAuthenticate) ;;
      match challenge with
      | None => ret response
      | Some challenge =>
          if negb (String.eqb (OAuthChallenge.signingScheme challenge) "eip4361") then
            throw (JsError ("Unsupported signing scheme: "
                            ++ OAuthChallenge.signingScheme challenge))
          else
            nonce <- AuthFetch.fetchNonce env (OAuthChallenge.tokenUri challenge) ;;
            let scopes := split " " (OAuthChallenge.scope challenge) in
            siweMessage <-
              AuthFetch.buildSiweMessage env address nonce scopes url
                (if number_truthy (OAuthChallenge.chainId challenge)
                 then OAuthChallenge.chainId challenge else chainId) ;;
            signature <- do_sign signMessage siweMessage ;;
            tokenResponse <-
              AuthFetch.exchangeToken env (OAuthChallenge.tokenUri challenge)
                siweMessage signature (OAuthChallenge.scope challenge) ;;
            access_token <- lift (get_prop tokenResponse "access_token") ;;
            _ <- set_currentToken access_token ;;
            _ <- do_onToken onToken tokenResponse ;;
            currentToken <- get_currentToken ;;
            let retryHeaders :=
              headers_set "Authorization" (bearer currentToken) init_headers in
            do_fetch env input (with_headers (default no_init init) retryHeaders)
      end
  else ret response.

Definition createAuthFetch (options : Options.t W)
  : M W (string -> option RequestInit.t -> M W Response.t) :=
  _ <- set_currentToken
         (match Options.token options with
          | Some t => JStr t
          | None => JUndefined
          end) ;;
  ret (authFetch_bound options).

(** The one-shot [authFetch] of this version. *)
Definition authFetch (input : string) (init : AuthRequestInit.t W)
  : M W Response.t :=
  fetcher <- createAuthFetch (AuthRequestInit.options init) ;;
  fetcher input (Some (AuthRequestInit.fetchInit init)).
End Code.
End Factory.

(** ** The example application's [oauth.ts] *)
Module OAuth.
(** [{ data, token }] *)
Record result := { data : JSValue; token : JSValue }.

Section Code.
Context {W : Type} (env : Env W).

Definition buildSiweMessage (address : string) (nonce : JSValue)
    (scopes : list string) (uri : string) : M W string :=
  domain <- lift (url_host env uri) ;;
  let resources := map (fun scope => "urn:oauth:scope:" ++ scope) scopes in
  do_createSiweMessage env
    {| Siwe.address := address;
       Siwe.chainId := CHAIN_ID;
       Siwe.domain := domain;
       Siwe.nonce := nonce;
       Siwe.uri := uri;
       Siwe.version := "1";
       Siwe.statement := "Authorize access to your private data.";
       Siwe.resources := resources |}.

Definition fetchNonce (tokenUri : string) : M W JSValue :=
  let baseUrl := replace "/token" "" tokenUri in
  let nonceUrl := baseUrl ++ "/nonce" in
  response <- do_fetch env nonceUrl no_init ;;
  if negb (Response.ok response) then
    throw (JsError ("Failed to fetch nonce: " ++ show_Z (Response.status response)))
  else
    data <- lift (Response.json response) ;;
    lift (get_prop data "nonce").

Definition exchangeToken (tokenUri message signature scope : string)
  : M W JSValue :=
  response <- do_fetch env tokenUri
    {| RequestInit.method := Some "POST";
       RequestInit.headers := [("Content-Type", "application/json")];
       RequestInit.body :=
         Some (JSON_stringify env (token_request message signature scope));
       RequestInit.other := [] |} ;;
  if negb (Response.ok response) then
    error <- lift (Response.json response) ;;
    reason <- lift (get_prop error "error") ;;
    throw (JsError
             (if truthy reason then to_string reason
              else "Token exchange failed: " ++ show_Z (Response.status response)))
  else lift (Response.json response).

Definition fetchWithOAuth (url : string)
    (signMessage : string -> W -> (Exn + string) * W)
    (address : string) (existingToken : option string) : M W result :=
  let headers : Headers :=
    if truthy_string existingToken
    then [("Authorization", "Bearer " ++ string_value existingToken)]
    else [] in
  response <- do_fetch env url (with_headers no_init headers) ;;
  if Response.status response =? 401 then
    let wwwAuthenticate := headers_get "WWW-Authenticate" (Response.headers response) in
    if negb (truthy_string wwwAuthenticate) then
      throw (JsError "Missing WWW-Authenticate header in 401 response")
    else
      challenge <- do_parse (string_value wwwAuthenticate) ;;
      match challenge with
      | None => throw (JsError "Failed to parse WWW-Authenticate challenge")
      | Some challenge =>
          if negb (String.eqb (OAuthChallenge.signingScheme challenge) "eip4361") then
            throw (JsError ("Unsupported signing scheme: "
                            ++ OAuthChallenge.signingScheme challenge))
          else
            nonce <- fetchNonce (OAuthChallenge.tokenUri challenge) ;;
            let scopes := split " " (OAuthChallenge.scope challenge) in
            siweMessage <- buildSiweMessage address nonce scopes url ;;
            signature <- do_sign signMessage siweMessage ;;
            tokenResponse <-
              exchangeToken (OAuthChallenge.tokenUri challenge) siweMessage
                signature (OAuthChallenge.scope challenge) ;;
            access_token <- lift (get_prop tokenResponse "access_token") ;;
            response <-
              do_fetch env url
                (with_headers no_init [("Authorization", bearer access_token)]) ;;
            if negb (Response.ok response) then
              throw (JsError ("Request failed after auth: "
                              ++ show_Z (Response.status response)))
            else
              data <- lift (Response.json response) ;;
              access_token <- lift (get_prop tokenResponse "access_token") ;;
              ret {| data := data; token := access_token |}
      end
  else if negb (Response.ok response) then
    throw (JsError ("Request failed: " ++ show_Z (Response.status response)))
  else
    data <- lift (Response.json response) ;;
    ret {| data := data;
           token := JStr (if truthy_string existingToken
                          then string_value existingToken else "") |}.
End Code.
End OAuth.

(** ** The rest of the example application

    [getAuthorMessagesUrl] of [oauth.ts] and [formatAddress] of [App.tsx].
    Both work on addresses, which are text of ASCII characters; on such
    text [toLowerCase] changes the letters [A] to [Z] only and [slice]
    counts characters. *)
Module App.
(** [import.meta.env.VITE_API_BASE_URL || "http://localhost:3000"] *)
Definition API_BASE_URL (VITE_API_BASE_URL : option string) : string :=
  if truthy_string VITE_API_BASE_URL then string_value VITE_API_BASE_URL
  else "http://localhost:3000".

Definition toLowerCase (s : string) : string := lower_string s.

Definition getAuthorMessagesUrl (VITE_API_BASE_URL : option string)
    (address : string) : string :=
  API_BASE_URL VITE_API_BASE_URL ++ "/api/authors/" ++ toLowerCase address
  ++ "/messages".

Fixpoint take_chars (n : nat) (s : string) : string :=
  match n, s with
  | S n', String c s' => String c (take_chars n' s')
  | _, _ => EmptyString
  end.

(** [s.slice(from, to)], [to] left out when [None]: a negative index counts
    from the end, and both are clamped to the text. *)
Definition slice (s : string) (from : Z) (to : option Z) : string :=
  let len := Z.of_nat (String.length s) in
  let clamp i := if i <? 0 then Z.max (len + i) 0 else Z.min i len in
  let a := clamp from in
  let b := match to with Some e => clamp e | None => len end in
  take_chars (Z.to_nat (Z.max (b - a) 0)) (drop_chars (Z.to_nat a) s).

Definition formatAddress (address : string) : string :=
  slice address 0 (Some 6) ++ "..." ++ slice address (-4) None.
End App.

(** ** [useAuthorMessages]: the two functions that call [fetchWithOAuth]

    The hook's state is part of the world; its setters change it and do
    not fail. *)
Module Hook.
Record React (W : Type) := {
  setAccessToken : JSValue -> W -> W;
  setAuthError : JSValue -> W -> W
}.
Arguments setAccessToken {W} _.
Arguments setAuthError {W} _.

Section Code.
Context {W : Type} (env : Env W) (react : React W).
Variable VITE_API_BASE_URL : option string.
(** [signMessageAsync] of [wagmi]; the hook wraps it into [signMessage]. *)
Variable signMessageAsync : string -> W -> (Exn + string) * W.

Definition do_set (f : W -> W) : M W unit := call (fun w => (inr tt, f w)).

Definition signMessage (message : string) : W -> (Exn + string) * W :=
  signMessageAsync message.

(** [queryFn] of [messagesQuery], with the [address] and the [accessToken]
    of the render that made it. *)
Definition queryFn (address : option string) (accessToken : option string)
  : M W JSValue :=
  if negb (truthy_string address) then throw (JsError "No address connected")
  else
    let address := string_value address in
    let url := App.getAuthorMessagesUrl VITE_API_BASE_URL address in
    result <- OAuth.fetchWithOAuth env url signMessage address accessToken ;;
    _ <- (if truthy (OAuth.token result)
          then do_set (setAccessToken react (OAuth.token result))
          else ret tt) ;;
    ret (OAuth.data result).

(** [mutationFn] of [authorizeMutation]. *)
Definition mutationFn (address : option string) : M W JSValue :=
  if negb (truthy_string address) then throw (JsError "No address connected")
  else
    let address := string_value address in
    _ <- do_set (setAuthError react JUndefined) ;;
    let url := App.getAuthorMessagesUrl VITE_API_BASE_URL address in
    result <- OAuth.fetchWithOAuth env url signMessage address None ;;
    _ <- do_set (setAccessToken react (OAuth.token result)) ;;
    ret (OAuth.data result).
End Code.
End Hook.

(** * Vocabulary of the properties *)

(** What a match is, as text. *)
Definition well_formed_pair (k v : string) : Prop :=
  nonempty k = true /\ all_chars is_word k = true
  /\ nonempty v = true /\ all_chars not_quote v = true.

(** [k="v"] stands somewhere in [s]. *)
Definition occurs_pair (k : string) (s : string) : Prop :=
  exists pre v post, s = pre ++ pair_text k v ++ post /\ well_formed_pair k v.

(** [params[k]] after the loop: the value of the last match whose key is
    [k]. *)
Fixpoint last_value (k : string) (ms : list (string * string)) : option string :=
  match ms with
  | [] => None
  | (k', v) :: r =>
      match last_value k r with
      | Some v' => Some v'
      | None => if String.eqb k k' then Some v else None
      end
  end.

(** The last pair with key [k] in a list of matches. *)
Definition last_pair (k : string) (ms : list (string * string)) (v : string) : Prop :=
  exists ms1 ms2, ms = (ms1 ++ (k, v) :: ms2)%list /\ forall v', ~ In (k, v') ms2.

(** The documented shape of a challenge: the scheme name, then the pairs,
    each behind a comma and a space. *)
Fixpoint render_pairs (kvs : list (string * string)) : string :=
  match kvs with
  | [] => EmptyString
  | (k, v) :: r => ", " ++ pair_text k v ++ render_pairs r
  end.

Definition render_challenge (kvs : list (string * string)) : string :=
  "Bearer" ++ render_pairs kvs.

Definition matched (k header : string) : Prop :=
  exists v, In (k, v) (matchAll header).

Definition required_keys : list string := ["realm"; "scope"; "token_uri"].

(** ** Occurrences of a pattern in a text *)

Definition occurs_in (pat s : string) : Prop :=
  exists pre post, s = pre ++ pat ++ post.

(** [s] is [pre], then [pat], then [post], and [pat] stands nowhere
    earlier. *)
Definition first_occurrence (pat s pre post : string) : Prop :=
  s = pre ++ pat ++ post
  /\ forall pre' post', s = pre' ++ pat ++ post' ->
       (String.length pre <= String.length pre')%nat.

Fixpoint contains (pat s : string) : bool :=
  is_prefix pat s
  || match s with
     | EmptyString => false
     | String _ s' => contains pat s'
     end.

(** [s.indexOf(pat)], [None] for -1. *)
Fixpoint index_of (pat s : string) : option nat :=
  if is_prefix pat s then Some O
  else
    match s with
    | EmptyString => None
    | String _ s' => option_map S (index_of pat s')
    end.

(** [l.join(sep)] *)
Fixpoint join (sep : string) (l : list string) : string :=
  match l with
  | [] => EmptyString
  | [x] => x
  | x :: r => x ++ sep ++ join sep r
  end.

(** ** Runs *)

Definition Run (W A : Type) : Type := (Exn + A) * State W * list Event.

Definition prepend {W A} (evs : list Event) (run : Run W A) : Run W A :=
  let '(r, st, ev) := run in (r, st, (evs ++ ev)%list).

(** The state after the world has moved to [w]. *)
Definition moved {W} (st : State W) (w : W) : State W :=
  {| world := w; currentToken := currentToken st |}.

(** The state after [currentToken = v]. *)
Definition with_token {W} (st : State W) (v : JSValue) : State W :=
  {| world := world st; currentToken := v |}.

Definition www_authenticate (response : Response.t) : option string :=
  headers_get "WWW-Authenticate" (Response.headers response).

(** The header is absent, or present but unparseable. *)
Definition no_challenge (response : Response.t) : Prop :=
  www_authenticate response = None
  \/ exists h, www_authenticate response = Some h
               /\ parseWWWAuthenticateChallenge h = None.

(** The header is there and parses to [c]. *)
Definition carries_challenge (response : Response.t) (c : OAuthChallenge.t) : Prop :=
  exists h, www_authenticate response = Some h
            /\ parseWWWAuthenticateChallenge h = Some c.

(** The chain id handed to [buildSiweMessage]: [challenge.chainId || chainId],
    with [chainId = 1] when the caller gives none. *)
Definition chain_for (c : OAuthChallenge.t) (chainId : option number) : number :=
  if number_truthy (OAuthChallenge.chainId c) then OAuthChallenge.chainId c
  else default (Num 1) chainId.

(** The stages of the flow, by what the collaborators answered so far.  The
    parameters are the steps of one implementation. *)
Section Flow.
Context {W : Type}.
Variable first : M W Response.t.
Variable nonce_of : string -> M W JSValue.
Variable message_of : OAuthChallenge.t -> JSValue -> M W string.
Variable sign : string -> M W string.
Variable exchange : string -> string -> string -> string -> M W JSValue.

Definition challenged (st : State W) (c : OAuthChallenge.t)
    (st1 : State W) (evs : list Event) : Prop :=
  exists response ev1,
    first st = (inr response, st1, ev1)
    /\ Response.status response = 401
    /\ carries_challenge response c
    /\ OAuthChallenge.signingScheme c = "eip4361"
    /\ evs = (ev1 ++ [EParse (string_value (www_authenticate response))])%list.

Definition nonce_fetched (st : State W) (c : OAuthChallenge.t)
    (nonce : JSValue) (st2 : State W) (evs : list Event) : Prop :=
  exists st1 evs1 ev2,
    challenged st c st1 evs1
    /\ nonce_of (OAuthChallenge.tokenUri c) st1 = (inr nonce, st2, ev2)
    /\ evs = (evs1 ++ ev2)%list.

Definition signed (st : State W) (c : OAuthChallenge.t)
    (siweMessage signature : string) (st4 : State W) (evs : list Event) : Prop :=
  exists nonce st2 evs2 st3 ev3 ev4,
    nonce_fetched st c nonce st2 evs2
    /\ message_of c nonce st2 = (inr siweMessage, st3, ev3)
    /\ sign siweMessage st3 = (inr signature, st4, ev4)
    /\ evs = (evs2 ++ ev3 ++ ev4)%list.

Definition exchanged (st : State W) (c : OAuthChallenge.t)
    (tokenResponse : JSValue) (st5 : State W) (evs : list Event) : Prop :=
  exists siweMessage signature st4 evs4 ev5,
    signed st c siweMessage signature st4 evs4
    /\ exchange (OAuthChallenge.tokenUri c) siweMessage signature
         (OAuthChallenge.scope c) st4 = (inr tokenResponse, st5, ev5)
    /\ evs = (evs4 ++ ev5)%list.

(** What is left to run from each stage, given the part [finish] that
    follows the exchange. *)
Context {A : Type} (finish : JSValue -> M W A).

Definition from_signed (c : OAuthChallenge.t) (siweMessage signature : string)
  : M W A :=
  tokenResponse <-
    exchange (OAuthChallenge.tokenUri c) siweMessage signature
      (OAuthChallenge.scope c) ;;
  finish tokenResponse.

Definition from_nonce (c : OAuthChallenge.t) (nonce : JSValue) : M W A :=
  siweMessage <- message_of c nonce ;;
  signature <- sign siweMessage ;;
  from_signed c siweMessage signature.

Definition from_challenge (c : OAuthChallenge.t) : M W A :=
  nonce <- nonce_of (OAuthChallenge.tokenUri c) ;;
  from_nonce c nonce.
End Flow.

(** The requests each implementation sends to the resource, and its
    stages. *)
Section Requests.
Context {W : Type} (env : Env W).

Definition first_request (init : AuthRequestInit.t W) : RequestInit.t :=
  let fetchInit := AuthRequestInit.fetchInit init in
  let token := Options.token (AuthRequestInit.options init) in
  with_headers fetchInit
    (if truthy_string token
     then headers_set "Authorization" ("Bearer " ++ string_value token)
            (RequestInit.headers fetchInit)
     else RequestInit.headers fetchInit).

Definition retry_request (fetchInit : RequestInit.t) (access_token : JSValue)
  : RequestInit.t :=
  with_headers fetchInit
    (headers_set "Authorization" (bearer access_token)
       (RequestInit.headers fetchInit)).

(** The body of the token-exchange request. *)
Definition exchange_request (message signature scope : string) : RequestInit.t :=
  {| RequestInit.method := Some "POST";
     RequestInit.headers := [("Content-Type", "application/json")];
     RequestInit.body :=
       Some (JSON_stringify env (token_request message signature scope));
     RequestInit.other := [] |}.

Definition siwe_params (address : string) (chainId : number) (domain : string)
    (nonce : JSValue) (uri : string) (scope : string) : Siwe.params :=
  {| Siwe.address := address;
     Siwe.chainId := chainId;
     Siwe.domain := domain;
     Siwe.nonce := nonce;
     Siwe.uri := uri;
     Siwe.version := "1";
     Siwe.statement := "Authorize access to your private data.";
     Siwe.resources := map (fun s => "urn:oauth:scope:" ++ s) (split " " scope) |}.

(** *** [AuthFetch.authFetch] *)

Definition authFetch_message (input : string) (init : AuthRequestInit.t W)
    (c : OAuthChallenge.t) (nonce : JSValue) : M W string :=
  AuthFetch.buildSiweMessage env
    (Options.address (AuthRequestInit.options init)) nonce
    (split " " (OAuthChallenge.scope c)) input
    (chain_for c (Options.chainId (AuthRequestInit.options init))).

Definition authFetch_finish (input : string) (init : AuthRequestInit.t W)
    (tokenResponse : JSValue) : M W Response.t :=
  _ <- do_onToken (Options.onToken (AuthRequestInit.options init)) tokenResponse ;;
  access_token <- lift (get_prop tokenResponse "access_token") ;;
  do_fetch env input (retry_request (AuthRequestInit.fetchInit init) access_token).

Definition authFetch_challenged (input : string) (init : AuthRequestInit.t W) :=
  challenged (do_fetch env input (first_request init)).

Definition authFetch_nonce_fetched (input : string) (init : AuthRequestInit.t W) :=
  nonce_fetched (do_fetch env input (first_request init))
    (AuthFetch.fetchNonce env).

Definition authFetch_signed (input : string) (init : AuthRequestInit.t W) :=
  signed (do_fetch env input (first_request init))
    (AuthFetch.fetchNonce env) (authFetch_message input init)
    (do_sign (Options.signMessage (AuthRequestInit.options init))).

Definition authFetch_exchanged (input : string) (init : AuthRequestInit.t W) :=
  exchanged (do_fetch env input (first_request init))
    (AuthFetch.fetchNonce env) (authFetch_message input init)
    (do_sign (Options.signMessage (AuthRequestInit.options init)))
    (AuthFetch.exchangeToken env).

(** *** [Factory.authFetch_bound] *)

Definition bound_first_request (init : option RequestInit.t)
    (currentToken : JSValue) : RequestInit.t :=
  let init_headers :=
    match init with Some i => RequestInit.headers i | None => [] end in
  with_headers (default no_init init)
    (if truthy currentToken
     then headers_set "Authorization" (bearer currentToken) init_headers
     else init_headers).

Definition bound_retry_request (init : option RequestInit.t)
    (access_token : JSValue) : RequestInit.t :=
  with_headers (default no_init init)
    (headers_set "Authorization" (bearer access_token)
       (match init with Some i => RequestInit.headers i | None => [] end)).

(** The first request of a call made in state [st]. *)
Definition bound_first (input : string) (init : option RequestInit.t)
    (st : State W) : M W Response.t :=
  do_fetch env input (bound_first_request init (currentToken st)).

Definition bound_message (options : Options.t W) (input : string)
    (c : OAuthChallenge.t) (nonce : JSValue) : M W string :=
  AuthFetch.buildSiweMessage env (Options.address options) nonce
    (split " " (OAuthChallenge.scope c)) input
    (chain_for c (Options.chainId options)).

Definition bound_finish (options : Options.t W) (input : string)
    (init : option RequestInit.t) (tokenResponse : JSValue) : M W Response.t :=
  access_token <- lift (get_prop tokenResponse "access_token") ;;
  _ <- set_currentToken access_token ;;
  _ <- do_onToken (Options.onToken options) tokenResponse ;;
  currentToken <- get_currentToken ;;
  do_fetch env input (bound_retry_request init currentToken).

Definition bound_challenged (input : string) (init : option RequestInit.t)
    (st : State W) :=
  challenged (bound_first input init st) st.

Definition bound_nonce_fetched (input : string) (init : option RequestInit.t)
    (st : State W) :=
  nonce_fetched (bound_first input init st) (AuthFetch.fetchNonce env) st.

Definition bound_signed (options : Options.t W) (input : string)
    (init : option RequestInit.t) (st : State W) :=
  signed (bound_first input init st) (AuthFetch.fetchNonce env)
    (bound_message options input) (do_sign (Options.signMessage options)) st.

Definition bound_exchanged (options : Options.t W) (input : string)
    (init : option RequestInit.t) (st : State W) :=
  exchanged (bound_first input init st) (AuthFetch.fetchNonce env)
    (bound_message options input) (do_sign (Options.signMessage options))
    (AuthFetch.exchangeToken env) st.

(** *** [OAuth.fetchWithOAuth] *)

Definition oauth_first_request (existingToken : option string) : RequestInit.t :=
  with_headers no_init
    (if truthy_string existingToken
     then [("Authorization", "Bearer " ++ string_value existingToken)]
     else []).

Definition oauth_retry_request (access_token : JSValue) : RequestInit.t :=
  with_headers no_init [("Authorization", bearer access_token)].

Definition oauth_message (address url : string)
    (c : OAuthChallenge.t) (nonce : JSValue) : M W string :=
  OAuth.buildSiweMessage env address nonce
    (split " " (OAuthChallenge.scope c)) url.

Definition oauth_finish (url : string) (tokenResponse : JSValue)
  : M W OAuth.result :=
  access_token <- lift (get_prop tokenResponse "access_token") ;;
  response <- do_fetch env url (oauth_retry_request access_token) ;;
  if negb (Response.ok response) then
    throw (JsError ("Request failed after auth: "
                    ++ show_Z (Response.status response)))
  else
    data <- lift (Response.json response) ;;
    access_token <- lift (get_prop tokenResponse "access_token") ;;
    ret {| OAuth.data := data; OAuth.token := access_token |}.

(** What [fetchWithOAuth] makes of a response that ends the flow. *)
Definition oauth_outcome (response : Response.t) (token : JSValue)
    (failure : string) : Exn + OAuth.result :=
  if Response.ok response then
    match Response.json response with
    | inr data => inr {| OAuth.data := data; OAuth.token := token |}
    | inl e => inl e
    end
  else inl (JsError (failure ++ show_Z (Response.status response))).

Definition oauth_challenged (url : string) (existingToken : option string) :=
  challenged (do_fetch env url (oauth_first_request existingToken)).

Definition oauth_nonce_fetched (url : string) (existingToken : option string) :=
  nonce_fetched (do_fetch env url (oauth_first_request existingToken))
    (OAuth.fetchNonce env).

Definition oauth_signed (url : string)
    (signMessage : string -> W -> (Exn + string) * W)
    (address : string) (existingToken : option string) :=
  signed (do_fetch env url (oauth_first_request existingToken))
    (OAuth.fetchNonce env) (oauth_message address url) (do_sign signMessage).

Definition oauth_exchanged (url : string)
    (signMessage : string -> W -> (Exn + string) * W)
    (address : string) (existingToken : option string) :=
  exchanged (do_fetch env url (oauth_first_request existingToken))
    (OAuth.fetchNonce env) (oauth_message address url) (do_sign signMessage)
    (OAuth.exchangeToken env).
End Requests.

(** The keys the parser reads back. *)
Definition recognized_keys : list string :=
  ["realm"; "scope"; "token_uri"; "chain_id"; "signing_scheme"].

(** A value as the expression captures it: not empty, no double quote. *)
Definition captured_value (v : string) : Prop :=
  nonempty v = true /\ all_chars not_quote v = true.

(** The message of the [Error] a refused token exchange ends in: the [error]
    field of the body when it is truthy, else the status. *)
Definition exchange_refusal (response : Response.t) (reason : JSValue) : Exn :=
  JsError (if truthy reason then to_string reason
           else "Token exchange failed: " ++ show_Z (Response.status response)).

Definition nonce_refusal (response : Response.t) : Exn :=
  JsError ("Failed to fetch nonce: " ++ show_Z (Response.status response)).

(** The message a refusal with a JSON body is reported with: the body's
    [error] when that is a text that is not empty, and the status when it
    is falsy ([undefined] when the body has no such field, [null], [false],
    [0] or the empty text). *)
Inductive refusal_message (response : Response.t) : JSValue -> string -> Prop :=
| refusal_named (m : string) :
    nonempty m = true -> refusal_message response (JStr m) m
| refusal_unnamed (reason : JSValue) :
    truthy reason = false ->
    refusal_message response reason
      ("Token exchange failed: " ++ show_Z (Response.status response)).

(** What [fetchNonce] makes of the answer to its request. *)
Definition nonce_outcome (r : Exn + Response.t) : Exn + JSValue :=
  match r with
  | inl e => inl e
  | inr response =>
      if Response.ok response then
        match Response.json response with
        | inl e => inl e
        | inr data => get_prop data "nonce"
        end
      else inl (nonce_refusal response)
  end.

(** What [exchangeToken] makes of the answer to its request; [tolerant] is
    the [.catch(() => ({}))] that [siwe-auth-fetch] puts behind the reading of
    a refusal's body and [oauth.ts] does not. *)
Definition exchange_outcome (tolerant : bool) (r : Exn + Response.t)
  : Exn + JSValue :=
  match r with
  | inl e => inl e
  | inr response =>
      if Response.ok response then Response.json response
      else
        match Response.json response with
        | inl e =>
            if tolerant then inl (exchange_refusal response JUndefined) else inl e
        | inr error =>
            match get_prop error "error" with
            | inl e' => inl e'
            | inr reason => inl (exchange_refusal response reason)
            end
        end
  end.

(** ** Headers of a request *)

(** The headers of [h] that [name] names. *)
Definition named (name : string) (h : Headers) : Headers :=
  filter (fun kv => Is_true (same_name name kv.1)) h.

(** The loop of [headers_set]. *)
Definition set_go (name value : string) : bool -> Headers -> Headers :=
  fix go (seen : bool) (l : Headers) : Headers :=
    match l with
    | [] => []
    | kv :: r =>
        if same_name name kv.1
        then (if seen then go true r else (kv.1, value) :: go true r)
        else kv :: go seen r
    end.

(** [req] is [base] with its [Authorization] header, in whatever letter
    case, set to [value]: that header reads [value], every other header
    and every other option reads as in [base]. *)
Definition authorized_as (value : string) (base req : RequestInit.t) : Prop :=
  RequestInit.method req = RequestInit.method base
  /\ RequestInit.body req = RequestInit.body base
  /\ RequestInit.other req = RequestInit.other base
  /\ (forall n, same_name n "Authorization" = true ->
                headers_get n (RequestInit.headers req) = Some value)
  /\ (forall n, same_name n "Authorization" = false ->
                headers_get n (RequestInit.headers req)
                = headers_get n (RequestInit.headers base)).

(** ** Runs that differ in [currentToken] only *)

(** Same settlement, same world afterwards, same events. *)
Definition same_outcome {W A} (run1 run2 : Run W A) : Prop :=
  run1.1.1 = run2.1.1 /\ world run1.1.2 = world run2.1.2 /\ run1.2 = run2.2.

(** Two programs that do the same from states with the same world. *)
Definition alike {W A} (m1 m2 : M W A) : Prop :=
  forall st1 st2, world st1 = world st2 -> same_outcome (m1 st1) (m2 st2).

(** ** The token kept between calls *)

(** A program that leaves [currentToken] as it found it. *)
Definition keeps_token {W A} (m : M W A) : Prop :=
  forall st r st' ev, m st = (r, st', ev) -> currentToken st' = currentToken st.

(** ** Counting what a run asks for *)

(** A weight for each kind of event. *)
Record Weights := {
  w_fetch : nat;
  w_parse : nat;
  w_siwe : nat;
  w_sign : nat;
  w_token : nat
}.

Definition weigh (ws : Weights) (e : Event) : nat :=
  match e with
  | EFetch _ _ => w_fetch ws
  | EParse _ => w_parse ws
  | ECreateSiwe _ => w_siwe ws
  | ESign _ => w_sign ws
  | EOnToken _ _ => w_token ws
  end.

Definition total (ws : Weights) (evs : list Event) : nat :=
  list_sum (map (weigh ws) evs).

(** The requests, the messages built, the signatures asked for and the
    calls of the token callback among [evs]. *)
Definition fetches : list Event -> nat :=
  total {| w_fetch := 1; w_parse := 0; w_siwe := 0; w_sign := 0; w_token := 0 |}.

Definition messages : list Event -> nat :=
  total {| w_fetch := 0; w_parse := 0; w_siwe := 1; w_sign := 0; w_token := 0 |}.

Definition signatures : list Event -> nat :=
  total {| w_fetch := 0; w_parse := 0; w_siwe := 0; w_sign := 1; w_token := 0 |}.

Definition callbacks : list Event -> nat :=
  total {| w_fetch := 0; w_parse := 0; w_siwe := 0; w_sign := 0; w_token := 1 |}.

(** Every run of [m] weighs [n] at most. *)
Definition costs {W A} (ws : Weights) (n : nat) (m : M W A) : Prop :=
  forall st r st' ev, m st = (r, st', ev) -> (total ws ev <= n)%nat.

(** The longest run: request, challenge, nonce, message, signature,
    exchange, callback, retry. *)
Definition full_flow (ws : Weights) : nat :=
  (w_fetch ws + (w_parse ws + (w_fetch ws + (w_siwe ws + (w_sign ws
     + (w_fetch ws + (w_token ws + w_fetch ws)))))))%nat.

(** [fetchWithOAuth] has no callback to call. *)
Definition oauth_flow (ws : Weights) : nat :=
  (w_fetch ws + (w_parse ws + (w_fetch ws + (w_siwe ws + (w_sign ws
     + (w_fetch ws + w_fetch ws))))))%nat.

(** ** Text of ASCII characters *)

Definition is_ascii (c : ascii) : bool := (nat_of_ascii c <? 128)%nat.

Definition ascii_text (s : string) : Prop := all_chars is_ascii s = true.

(** [l] is the small letter of the capital letter [u]: in ASCII the capitals
    are the codes 65 to 90 and each small letter stands 32 further on. *)
Definition small_of (u l : ascii) : Prop :=
  (65 <= nat_of_ascii u <= 90)%nat /\ nat_of_ascii l = (nat_of_ascii u + 32)%nat.

(** The same character, or the capital and the small form of one letter. *)
Definition same_letter (x y : ascii) : Prop :=
  x = y \/ small_of x y \/ small_of y x.

(** Two texts that differ in the case of their letters at most: as long as
    each other and, place by place, the same letter. *)
Inductive same_letters : string -> string -> Prop :=
| same_letters_nil : same_letters EmptyString EmptyString
| same_letters_cons x y a b :
    same_letter x y -> same_letters a b -> same_letters (String x a) (String y b).

(** ** A scripted network, for the examples

    The world is the list of answers the network still has to give; every
    request takes the next one.  The signer and [createSiweMessage] answer
    at once. *)
Module Scenario.
Definition network := list (Exn + Response.t).

Definition fetch (input : string) (init : RequestInit.t) (w : network)
  : (Exn + Response.t) * network :=
  match w with
  | r :: w' => (r, w')
  | [] => (inl (Rejected "network unreachable"), [])
  end.

Definition createSiweMessage (p : Siwe.params) (w : network)
  : (Exn + string) * network :=
  (inr (Siwe.domain p ++ " wants you to sign in with your Ethereum account"), w).

(** A [JSON.stringify] good enough for objects of plain strings. *)
Definition stringify (v : JSValue) : string :=
  match v with
  | JObj fields =>
      "{" ++ foldr (fun kv acc =>
                      quoted kv.1 ++ ":"
                      ++ match kv.2 with JStr x => quoted x | w => to_string w end
                      ++ (if nonempty acc then "," ++ acc else acc))
               EmptyString fields ++ "}"
  | JStr x => quoted x
  | w => to_string w
  end.

Definition env : Env network :=
  Build_Env network fetch createSiweMessage
    (fun _ => inr "api.example.com") stringify.

Definition signMessage (message : string) (w : network)
  : (Exn + string) * network := (inr "0x5164", w).

Definition keep_token (access_token scope : JSValue) (w : network)
  : (Exn + unit) * network := (inr tt, w).

Definition options : Options.t network :=
  {| Options.address := "0xd8dA6BF26964aF9D7eEd9e03E53415D37aA96045";
     Options.signMessage := signMessage;
     Options.chainId := None;
     Options.token := None;
     Options.onToken := Some keep_token |}.

Definition init : AuthRequestInit.t network :=
  {| AuthRequestInit.options := options; AuthRequestInit.fetchInit := no_init |}.

Definition resource : string := "https://api.example.com/user/profile".

Definition challenge_text : string :=
  "Bearer, " ++ pair_text "realm" "kv-profile" ++ ", "
  ++ pair_text "scope" "a b" ++ ", "
  ++ pair_text "token_uri" "https://api.example.com/api/auth/token".

Definition respond (status : Z) (headers : Headers) (json : Exn + JSValue)
  : Exn + Response.t :=
  inr {| Response.status := status; Response.headers := headers;
         Response.json := json |}.

Definition no_body : Exn + JSValue := inl (Rejected "Unexpected end of JSON input").

Definition challenge_response (text : string) : Exn + Response.t :=
  respond 401 [("WWW-Authenticate", text)] no_body.

Definition nonce_response : Exn + Response.t :=
  respond 200 [] (inr (JObj [("nonce", JStr "N1abcdefg")])).

Definition token_response : Exn + Response.t :=
  respond 200 []
    (inr (JObj [("access_token", JStr "T1"); ("token_type", JStr "Bearer");
                ("expires_in", JNum 3600); ("scope", JStr "a b")])).

Definition start (w : network) : State network :=
  {| world := w; currentToken := JUndefined |}.

(** The challenge that [challenge_text] spells. *)
Definition challenge : OAuthChallenge.t :=
  {| OAuthChallenge.realm := "kv-profile";
     OAuthChallenge.scope := "a b";
     OAuthChallenge.tokenUri := "https://api.example.com/api/auth/token";
     OAuthChallenge.chainId := Num 1;
     OAuthChallenge.signingScheme := "eip4361" |}.

Definition token_json : JSValue :=
  JObj [("access_token", JStr "T1"); ("token_type", JStr "Bearer");
        ("expires_in", JNum 3600); ("scope", JStr "a b")].

Definition forbidden : Response.t :=
  {| Response.status := 403; Response.headers := []; Response.json := no_body |}.

Definition unauthorized : Response.t :=
  {| Response.status := 401; Response.headers := []; Response.json := no_body |}.

(** The resource challenges, nonce and token are granted, and the retry
    is refused all the same. *)
Definition refused_after_auth : network :=
  [challenge_response challenge_text; nonce_response; token_response; inr forbidden].

(** A challenge that asks for a scheme this client does not know. *)
Definition unknown_scheme_text : string :=
  challenge_text ++ ", " ++ pair_text "signing_scheme" "unknownscheme".

Definition unknown_scheme_challenge : OAuthChallenge.t :=
  {| OAuthChallenge.realm := "kv-profile";
     OAuthChallenge.scope := "a b";
     OAuthChallenge.tokenUri := "https://api.example.com/api/auth/token";
     OAuthChallenge.chainId := Num 1;
     OAuthChallenge.signingScheme := "unknownscheme" |}.

(** A challenge whose chain id is zero, and a caller who names chain 5. *)
Definition chain_zero_text : string :=
  challenge_text ++ ", " ++ pair_text "chain_id" "0".

Definition chain_zero_challenge : OAuthChallenge.t :=
  {| OAuthChallenge.realm := "kv-profile";
     OAuthChallenge.scope := "a b";
     OAuthChallenge.tokenUri := "https://api.example.com/api/auth/token";
     OAuthChallenge.chainId := Num 0;
     OAuthChallenge.signingScheme := "eip4361" |}.

Definition init_chain_5 : AuthRequestInit.t network :=
  {| AuthRequestInit.options :=
       {| Options.address := Options.address options;
          Options.signMessage := signMessage;
          Options.chainId := Some (Num 5);
          Options.token := None;
          Options.onToken := Some keep_token |};
     AuthRequestInit.fetchInit := no_init |}.

(** A header that names [realm] and [scope] twice. *)
Definition repeated_keys_text : string :=
  "Bearer, " ++ pair_text "realm" "first" ++ ", " ++ pair_text "scope" "a" ++ ", "
  ++ pair_text "token_uri" "https://api.example.com/api/auth/token" ++ ", "
  ++ pair_text "realm" "second" ++ ", " ++ pair_text "scope" "b c".

Definition repeated_keys_challenge : OAuthChallenge.t :=
  {| OAuthChallenge.realm := "second";
     OAuthChallenge.scope := "b c";
     OAuthChallenge.tokenUri := "https://api.example.com/api/auth/token";
     OAuthChallenge.chainId := Num 1;
     OAuthChallenge.signingScheme := "eip4361" |}.

Definition siwe_text : string :=
  "api.example.com wants you to sign in with your Ethereum account".

Definition nonce_url : string := "https://api.example.com/api/auth/nonce".

(** What [authFetch] asks for up to the nonce, up to the signature and up
    to the exchange, when the resource sends [challenge_text]. *)
Definition events_to_nonce (text : string) : list Event :=
  [EFetch resource no_init; EParse text; EFetch nonce_url no_init].

Definition events_to_signature : list Event :=
  (events_to_nonce challenge_text
   ++ [ECreateSiwe (siwe_params (Options.address options) (Num 1)
                      "api.example.com" (JStr "N1abcdefg") resource "a b");
       ESign siwe_text])%list.

Definition events_to_exchange : list Event :=
  (events_to_signature
   ++ [EFetch (OAuthChallenge.tokenUri challenge)
         (exchange_request env siwe_text "0x5164" "a b")])%list.
End Scenario.

(** ** More scripted cases *)
Module Cases.
(** The scripted network with another [new URL(uri).host]. *)
Definition env_with_host (host : string -> Exn + string) : Env Scenario.network :=
  Build_Env Scenario.network Scenario.fetch Scenario.createSiweMessage host
    Scenario.stringify.

Definition invalid_url (uri : string) : Exn + string := inl (TypeError "Invalid URL").

Definition init_of (options : Options.t Scenario.network)
  : AuthRequestInit.t Scenario.network :=
  {| AuthRequestInit.options := options; AuthRequestInit.fetchInit := no_init |}.

(** A user who declines to sign. *)
Definition declining (message : string) (w : Scenario.network)
  : (Exn + string) * Scenario.network :=
  (inl (Rejected "User rejected the request"), w).

Definition options_declining : Options.t Scenario.network :=
  {| Options.address := Options.address Scenario.options;
     Options.signMessage := declining;
     Options.chainId := None;
     Options.token := None;
     Options.onToken := Some Scenario.keep_token |}.

Definition challenged_then (rest : Scenario.network) : Scenario.network :=
  Scenario.challenge_response Scenario.challenge_text :: rest.

Definition nonce_then (rest : Scenario.network) : Scenario.network :=
  challenged_then (Scenario.nonce_response :: rest).

Definition server_error : Response.t :=
  {| Response.status := 500; Response.headers := []; Response.json := Scenario.no_body |}.

Definition empty_object : Response.t :=
  {| Response.status := 200; Response.headers := []; Response.json := inr (JObj []) |}.

Definition invalid_signature : Response.t :=
  {| Response.status := 400; Response.headers := [];
     Response.json := inr (JObj [("error", JStr "invalid_signature")]) |}.

Definition bad_gateway : Response.t :=
  {| Response.status := 502; Response.headers := []; Response.json := Scenario.no_body |}.

Definition success : Response.t :=
  {| Response.status := 200; Response.headers := [];
     Response.json := inr (JObj [("ok", JBool true)]) |}.

(** The token endpoint grants [tokenResponse]. *)
Definition granted (tokenResponse : JSValue) : Exn + Response.t :=
  inr {| Response.status := 200; Response.headers := [];
         Response.json := inr tokenResponse |}.

Definition token_type_only : JSValue := JObj [("token_type", JStr "Bearer")].

(** A hook whose state is not part of the scripted network. *)
Definition react : Hook.React Scenario.network :=
  {| Hook.setAccessToken := fun _ w => w; Hook.setAuthError := fun _ w => w |}.

Definition messages_body : JSValue :=
  JObj [("author", JStr "0xd8da6bf26964af9d7eed9e03e53415d37aa96045");
        ("messages", JArr [])].

Definition messages_response : Response.t :=
  {| Response.status := 200; Response.headers := [];
     Response.json := inr messages_body |}.
End Cases.

(** * Properties *)

(** ** Strings *)

Lemma append_nil_r (s : string) : s ++ EmptyString = s.
Proof. induction s; simpl; congruence. Qed.

Lemma append_assoc (a b c : string) : (a ++ b) ++ c = a ++ (b ++ c).
Proof. induction a; simpl; congruence. Qed.

Lemma length_append (a b : string) :
  String.length (a ++ b) = (String.length a + String.length b)%nat.
Proof. induction a; simpl; lia. Qed.

Lemma span_spec p s a b :
  span p s = (a, b) ->
  s = a ++ b /\ all_chars p a = true
  /\ match b with EmptyString => True | String c _ => p c = false end.
Proof.
  revert a b; induction s as [|c s IH]; simpl; intros a b.
  - intros [= <- <-]; auto.
  - destruct (p c) eqn:Hc.
    + destruct (span p s) as [a' b'] eqn:E. intros [= <- <-].
      destruct (IH _ _ eq_refl) as (-> & Ha & Hb).
      simpl; rewrite Hc, Ha; auto.
    + intros [= <- <-]; simpl; rewrite Hc; auto.
Qed.

(** A run of [p]-characters followed by a character outside [p], or by
    nothing, is what [span] takes. *)
Lemma span_app p a b :
  all_chars p a = true ->
  match b with EmptyString => True | String c _ => p c = false end ->
  span p (a ++ b) = (a, b).
Proof.
  intros Ha Hb; induction a as [|c a IH]; simpl in *.
  - destruct b as [|c b]; [reflexivity|]. simpl. now rewrite Hb.
  - apply andb_prop in Ha as [Hc Ha]. rewrite Hc, (IH Ha). reflexivity.
Qed.

(** ** [replace] and [split] *)

Lemma is_prefix_app p r : is_prefix p (p ++ r) = true.
Proof.
  induction p as [|a p IH]; simpl; [reflexivity|].
  now rewrite Ascii.eqb_refl, IH.
Qed.

Lemma is_prefix_spec p s :
  is_prefix p s = true -> s = p ++ drop_chars (String.length p) s.
Proof.
  revert s; induction p as [|a p IH]; intros s; simpl; [reflexivity|].
  destruct s as [|b s]; [discriminate|].
  intros H. apply andb_prop in H as [Hab Hp].
  apply Ascii.eqb_eq in Hab as ->. now rewrite <- (IH _ Hp).
Qed.

Lemma drop_chars_app p r : drop_chars (String.length p) (p ++ r) = r.
Proof. induction p; simpl; auto. Qed.

Lemma contains_spec pat s : contains pat s = true <-> occurs_in pat s.
Proof.
  induction s as [|c s IH]; simpl.
  - rewrite orb_false_r. split.
    + intros H. exists EmptyString, (drop_chars (String.length pat) EmptyString).
      simpl. now apply is_prefix_spec.
    + intros (pre & post & H). destruct pre; [|discriminate]. simpl in H.
      rewrite H. apply is_prefix_app.
  - split.
    + intros H. apply orb_prop in H as [H|H].
      * exists EmptyString, (drop_chars (String.length pat) (String c s)).
        simpl. now apply is_prefix_spec.
      * apply IH in H as (pre & post & ->). now exists (String c pre), post.
    + intros (pre & post & H). destruct pre as [|c' pre]; simpl in H.
      * rewrite H, is_prefix_app. reflexivity.
      * injection H as <- ->. apply orb_true_iff. right. apply IH.
        now exists pre, post.
Qed.

Lemma replace_absent pat rep s : ~ occurs_in pat s -> replace pat rep s = s.
Proof.
  induction s as [|c s IH]; intros Hn.
  - simpl. destruct (is_prefix pat EmptyString) eqn:E; [|reflexivity].
    exfalso. apply Hn, contains_spec. simpl. now rewrite E.
  - simpl. destruct (is_prefix pat (String c s)) eqn:E.
    + exfalso. apply Hn, contains_spec. simpl. now rewrite E.
    + rewrite IH; [reflexivity|].
      intros (pre & post & ->). apply Hn. now exists (String c pre), post.
Qed.

Lemma replace_first_occurrence pat rep s pre post :
  first_occurrence pat s pre post -> replace pat rep s = pre ++ rep ++ post.
Proof.
  revert s; induction pre as [|c pre IH]; intros s [-> Hmin].
  - simpl. destruct (pat ++ post) eqn:E.
    + simpl. rewrite <- E at 1. rewrite is_prefix_app.
      rewrite <- E, drop_chars_app. reflexivity.
    + simpl. rewrite <- E at 1. rewrite is_prefix_app.
      rewrite <- E, drop_chars_app. reflexivity.
  - simpl. destruct (is_prefix pat (String c (pre ++ pat ++ post))) eqn:E.
    + apply is_prefix_spec in E.
      specialize (Hmin EmptyString _ E). simpl in Hmin. lia.
    + f_equal. apply IH. split; [reflexivity|].
      intros pre' post' H.
      specialize (Hmin (String c pre') post'). simpl in Hmin.
      rewrite H in Hmin. specialize (Hmin eq_refl). lia.
Qed.

Lemma split_not_nil sep s : split sep s <> [].
Proof.
  destruct s as [|c s]; simpl; [discriminate|].
  destruct (Ascii.eqb c sep); [discriminate|].
  destruct (split sep s); discriminate.
Qed.

Lemma join_split sep s : join (String sep EmptyString) (split sep s) = s.
Proof.
  induction s as [|c s IH]; [reflexivity|]. simpl.
  destruct (Ascii.eqb c sep) eqn:E.
  - apply Ascii.eqb_eq in E as ->.
    pose proof (split_not_nil sep s) as Hn.
    destruct (split sep s) as [|x r]; [congruence|].
    change (join (String sep EmptyString) (EmptyString :: x :: r))
      with (String sep (join (String sep EmptyString) (x :: r))).
    now rewrite IH.
  - pose proof (split_not_nil sep s) as Hn.
    destruct (split sep s) as [|x r]; [congruence|].
    destruct r as [|y r]; simpl in *; now rewrite <- IH.
Qed.

Lemma split_pieces sep s :
  Forall (fun piece => all_chars (fun c => negb (Ascii.eqb c sep)) piece = true)
    (split sep s).
Proof.
  induction s as [|c s IH]; simpl.
  - repeat constructor.
  - destruct (Ascii.eqb c sep) eqn:E.
    + constructor; [reflexivity|assumption].
    + destruct (split sep s) as [|x r]; [repeat constructor; simpl; now rewrite E|].
      inversion IH as [|? ? Hx Hr]; subst.
      constructor; [simpl; now rewrite E, Hx|assumption].
Qed.

(** ** The scan *)

Lemma match_at_spec s k v r :
  match_at s = Some (k, v, r) ->
  s = pair_text k v ++ r /\ well_formed_pair k v.
Proof.
  unfold match_at, pair_text, quoted, well_formed_pair.
  destruct (span is_word s) as [key r1] eqn:E1.
  apply span_spec in E1 as (-> & Hk & _).
  destruct (nonempty key) eqn:Hne; [|discriminate].
  destruct r1 as [|e [|q r2]]; try discriminate.
  destruct (Ascii.eqb e "=") eqn:He; [|discriminate].
  destruct (Ascii.eqb q dquote) eqn:Hq; [|discriminate]. simpl.
  apply Ascii.eqb_eq in He, Hq; subst e q.
  destruct (span not_quote r2) as [val r3] eqn:E2.
  apply span_spec in E2 as (-> & Hv & Hq).
  destruct (nonempty val) eqn:Hnv; [|discriminate].
  destruct r3 as [|c3 r4]; [discriminate|].
  apply negb_false_iff, Ascii.eqb_eq in Hq; subst c3.
  intros [= <- <- <-].
  rewrite !append_assoc. simpl. rewrite !append_assoc. auto.
Qed.

Lemma matchAll_step s :
  matchAll s =
  match match_at s with
  | Some (k, v, r) => (k, v) :: matchAll r
  | None => match s with EmptyString => [] | String _ s' => matchAll s' end
  end.
Proof.
  funelim (matchAll s).
  - rewrite e. reflexivity.
  - reflexivity.
  - rewrite e. reflexivity.
Qed.

Lemma matchAll_occurs s k v :
  In (k, v) (matchAll s) ->
  well_formed_pair k v /\ exists pre post, s = pre ++ pair_text k v ++ post.
Proof.
  funelim (matchAll s); simpl.
  - clear H0 Heqcall. apply match_at_spec in e as [-> Hwf].
    intros [[= <- <-]|Hin].
    + split; [assumption|]. exists EmptyString, r. reflexivity.
    + destruct (H _ _ Hin) as (Hwf' & pre & post & ->).
      split; [assumption|].
      exists (pair_text k v ++ pre), post. now rewrite append_assoc.
  - intros [].
  - intros Hin. destruct (H _ _ Hin) as (Hwf' & pre & post & ->).
    split; [assumption|]. exists (String a pre), post. reflexivity.
Qed.

Lemma foldl_insert_lookup (ms : list (string * string)) (m : gmap string string) k :
  foldl (fun params m => <[m.1 := m.2]> params) m ms !! k =
  match last_value k ms with Some v => Some v | None => m !! k end.
Proof.
  revert m; induction ms as [|[k' v] ms IH]; intros m; simpl; [reflexivity|].
  rewrite IH. destruct (last_value k ms); [reflexivity|].
  destruct (String.eqb_spec k k') as [->|Hne].
  - apply lookup_insert_eq.
  - apply lookup_insert_ne; congruence.
Qed.

Lemma collect_params_lookup ms k : collect_params ms !! k = last_value k ms.
Proof.
  unfold collect_params. rewrite foldl_insert_lookup, lookup_empty.
  now destruct (last_value k ms).
Qed.

Lemma last_value_None k ms : last_value k ms = None <-> forall v, ~ In (k, v) ms.
Proof.
  induction ms as [|[k' v'] ms IH]; simpl.
  - split; auto.
  - destruct (last_value k ms) eqn:E.
    + split; [discriminate|]. intros H. exfalso.
      assert (Hn : Some s = None) by (apply IH; intros v Hv; apply (H v); auto).
      discriminate.
    + destruct (String.eqb_spec k k') as [->|Hne].
      * split; [discriminate|]. intros H; exfalso; apply (H v'); auto.
      * split; [|reflexivity]. intros _ v [[= <- <-]|Hin]; [congruence|].
        destruct IH as [IH _]. now apply (IH eq_refl v).
Qed.

Lemma last_value_Some k ms v : last_value k ms = Some v <-> last_pair k ms v.
Proof.
  revert v; induction ms as [|[k' v'] ms IH]; intros v; simpl.
  - split; [discriminate|]. intros (ms1 & ms2 & H & _). now destruct ms1.
  - destruct (last_value k ms) as [w|] eqn:E.
    + split.
      * intros [= ->]. destruct (proj1 (IH v) eq_refl) as (ms1 & ms2 & -> & Hn).
        exists ((k', v') :: ms1), ms2. auto.
      * intros (ms1 & ms2 & Heq & Hn). destruct ms1 as [|p ms1]; simpl in Heq.
        -- injection Heq as <- <- <-. apply last_value_None in Hn. congruence.
        -- injection Heq as <- ->.
           apply IH. exists ms1, ms2; auto.
    + destruct (String.eqb_spec k k') as [->|Hne].
      * split.
        -- intros [= ->]. exists [], ms. split; [reflexivity|].
           now apply last_value_None.
        -- intros (ms1 & ms2 & Heq & Hn). destruct ms1 as [|p ms1]; simpl in Heq.
           ++ now injection Heq as <- <-.
           ++ injection Heq as <- ->. exfalso.
              apply (proj1 (last_value_None _ _) E v), in_or_app; simpl; auto.
      * split; [discriminate|].
        intros (ms1 & ms2 & Heq & Hn). destruct ms1 as [|p ms1]; simpl in Heq.
        -- injection Heq as <- <-. congruence.
        -- injection Heq as <- ->. exfalso.
           apply (proj1 (last_value_None _ _) E v), in_or_app; simpl; auto.
Qed.

Lemma matchAll_skip c s : is_word c = false -> matchAll (String c s) = matchAll s.
Proof.
  intros Hc. rewrite matchAll_step. unfold match_at; simpl. now rewrite Hc.
Qed.

Lemma match_at_pair k v rest :
  well_formed_pair k v -> match_at (pair_text k v ++ rest) = Some (k, v, rest).
Proof.
  intros (Hk & Hkw & Hv & Hvq). unfold match_at, pair_text, quoted.
  rewrite !append_assoc. simpl.
  rewrite (span_app is_word k) by (auto; reflexivity).
  rewrite Hk. simpl. rewrite append_assoc. simpl.
  rewrite (span_app not_quote v) by (auto; reflexivity).
  now rewrite Hv.
Qed.

Lemma matchAll_pair k v rest :
  well_formed_pair k v -> matchAll (pair_text k v ++ rest) = (k, v) :: matchAll rest.
Proof. intros H. now rewrite matchAll_step, match_at_pair. Qed.

(** A bare word, such as the scheme name [Bearer], is passed over. *)
Lemma matchAll_word w rest :
  all_chars is_word w = true ->
  match rest with
  | EmptyString => True
  | String c _ => is_word c = false /\ c <> "="%char
  end ->
  matchAll (w ++ rest) = matchAll rest.
Proof.
  intros Hw Hrest; induction w as [|a w IH]; [reflexivity|].
  simpl in Hw; apply andb_prop in Hw as [Ha Hw].
  rewrite matchAll_step.
  replace (match_at (String a w ++ rest)) with (@None (string * string * string)).
  - simpl. auto.
  - unfold match_at.
    rewrite (span_app is_word (String a w) rest).
    + simpl. destruct rest as [|e [|q r]]; try reflexivity.
      destruct Hrest as [_ Hne]. apply Ascii.eqb_neq in Hne. now rewrite Hne.
    + simpl. now rewrite Ha.
    + destruct rest; [exact I|]. tauto.
Qed.

Lemma matchAll_render kvs :
  Forall (fun kv => well_formed_pair kv.1 kv.2) kvs ->
  matchAll (render_challenge kvs) = kvs.
Proof.
  intros Hwf. unfold render_challenge.
  rewrite matchAll_word.
  - induction Hwf as [|[k v] r Hkv _ IH]; simpl.
    + now rewrite matchAll_step.
    + rewrite !matchAll_skip by reflexivity.
      rewrite matchAll_pair by assumption. now rewrite IH.
  - reflexivity.
  - destruct kvs as [|[k v] r]; simpl; [exact I|]. split; [reflexivity|discriminate].
Qed.

Lemma last_value_matched k header v :
  last_value k (matchAll header) = Some v ->
  In (k, v) (matchAll header) /\ nonempty v = true.
Proof.
  intros H. apply last_value_Some in H as (ms1 & ms2 & Heq & _).
  assert (Hin : In (k, v) (matchAll header))
    by (rewrite Heq; apply in_or_app; simpl; auto).
  split; [assumption|].
  now destruct (matchAll_occurs _ _ _ Hin) as ((_ & _ & Hv & _) & _).
Qed.

Lemma matched_last_value k header :
  matched k header <-> exists v, last_value k (matchAll header) = Some v.
Proof.
  split.
  - intros [v Hin]. destruct (last_value k (matchAll header)) as [w|] eqn:E; [eauto|].
    exfalso. exact (proj1 (last_value_None _ _) E v Hin).
  - intros [v Hv]. exists v. now apply last_value_matched in Hv.
Qed.

Lemma matched_occurs k header : matched k header -> occurs_pair k header.
Proof.
  intros [v Hin]. destruct (matchAll_occurs _ _ _ Hin) as (Hwf & pre & post & ->).
  now exists pre, v, post.
Qed.

Lemma truthy_last_value k header :
  truthy_string (collect_params (matchAll header) !! k)
  = match last_value k (matchAll header) with Some _ => true | None => false end.
Proof.
  rewrite collect_params_lookup.
  destruct (last_value k (matchAll header)) as [v|] eqn:E; [|reflexivity].
  simpl. now apply last_value_matched in E.
Qed.

(** The parser, read off the list of matches. *)
Lemma parse_last_values header :
  parseWWWAuthenticateChallenge header =
  let ms := matchAll header in
  match last_value "realm" ms, last_value "scope" ms, last_value "token_uri" ms with
  | Some r, Some s, Some t =>
      Some {| OAuthChallenge.realm := r;
              OAuthChallenge.scope := s;
              OAuthChallenge.tokenUri := t;
              OAuthChallenge.chainId :=
                match last_value "chain_id" ms with
                | Some v => parseInt v
                | None => CHAIN_ID
                end;
              OAuthChallenge.signingScheme :=
                match last_value "signing_scheme" ms with
                | Some v => v
                | None => "eip4361"
                end |}
  | _, _, _ => None
  end.
Proof.
  unfold parseWWWAuthenticateChallenge.
  rewrite !truthy_last_value, !collect_params_lookup. cbv zeta.
  destruct (last_value "realm" (matchAll header)); simpl; [|reflexivity].
  destruct (last_value "scope" (matchAll header)); simpl; [|reflexivity].
  destruct (last_value "token_uri" (matchAll header)); simpl; [|reflexivity].
  destruct (last_value "chain_id" (matchAll header));
    destruct (last_value "signing_scheme" (matchAll header)); reflexivity.
Qed.

(** C7. A header in which [realm], [scope] or [token_uri] does not stand
    as a key, an equals sign and a quoted value yields no challenge ([None],
    not a throw: the
    parser is a total function into [option]); a challenge is returned only
    when all three are matched, and then it is returned. *)
Theorem challenge_requires_realm_scope_token_uri (header : string) :
  (forall k, In k required_keys -> ~ occurs_pair k header ->
     parseWWWAuthenticateChallenge header = None)
  /\ (forall k, In k required_keys -> ~ matched k header ->
        parseWWWAuthenticateChallenge header = None)
  /\ (forall c, parseWWWAuthenticateChallenge header = Some c ->
        forall k, In k required_keys -> matched k header /\ occurs_pair k header)
  /\ ((forall k, In k required_keys -> matched k header) ->
        exists c, parseWWWAuthenticateChallenge header = Some c).
Proof.
  assert (Hnone : forall k, In k required_keys -> ~ matched k header ->
                    parseWWWAuthenticateChallenge header = None).
  { intros k Hk Hm. rewrite parse_last_values. cbv zeta.
    assert (last_value k (matchAll header) = None) as Hl.
    { destruct (last_value k (matchAll header)) eqn:E; [|reflexivity].
      exfalso; apply Hm, matched_last_value; eauto. }
    simpl in Hk. destruct Hk as [<-|[<-|[<-|[]]]]; rewrite Hl;
      repeat match goal with |- context [match ?x with _ => _ end] => destruct x end;
      reflexivity. }
  assert (Hsome : forall c, parseWWWAuthenticateChallenge header = Some c ->
                    forall k, In k required_keys -> matched k header).
  { intros c Hc k Hk. rewrite parse_last_values in Hc. cbv zeta in Hc.
    apply matched_last_value.
    destruct (last_value "realm" (matchAll header)) eqn:E1; [|discriminate].
    destruct (last_value "scope" (matchAll header)) eqn:E2; [|discriminate].
    destruct (last_value "token_uri" (matchAll header)) eqn:E3; [|discriminate].
    simpl in Hk. destruct Hk as [<-|[<-|[<-|[]]]]; eauto. }
  repeat split.
  - intros k Hk Ho. apply (Hnone k Hk). intros Hm. apply Ho, matched_occurs, Hm.
  - exact Hnone.
  - eapply Hsome; eauto.
  - eapply matched_occurs, Hsome; eauto.
  - intros Hall. rewrite parse_last_values. cbv zeta.
    destruct (proj1 (matched_last_value _ _) (Hall "realm" ltac:(simpl; auto))) as [r ->].
    destruct (proj1 (matched_last_value _ _) (Hall "scope" ltac:(simpl; auto))) as [s ->].
    destruct (proj1 (matched_last_value _ _) (Hall "token_uri" ltac:(simpl; auto))) as [t ->].
    eauto.
Qed.

(** ** Decimal numerals *)

Lemma digit_not_space c :
  is_digit c = true ->
  is_space c = false /\ Ascii.eqb c "-" = false /\ Ascii.eqb c "+" = false.
Proof.
  destruct c as [[] [] [] [] [] [] [] []]; try discriminate; intros _; repeat split.
Qed.

Lemma parseInt_digits s :
  nonempty s = true -> all_chars is_digit s = true ->
  parseInt s = Num (digits_value 0 s).
Proof.
  destruct s as [|c r]; [discriminate|]. intros _ Hd.
  pose proof Hd as Hd'. simpl in Hd'. apply andb_prop in Hd' as [Hc _].
  destruct (digit_not_space c Hc) as (Hs & Hm & Hp).
  assert (Hspan : span is_digit (String c r) = (String c r, EmptyString)).
  { pose proof (span_app is_digit (String c r) EmptyString Hd I) as H.
    now rewrite append_nil_r in H. }
  unfold parseInt. cbn [span]. rewrite Hs. cbn [snd]. rewrite Hm, Hp, Hspan.
  reflexivity.
Qed.

Lemma digits_string_of_uint d :
  all_chars is_digit (NilEmpty.string_of_uint d) = true.
Proof. induction d; simpl; auto. Qed.

Lemma digits_value_acc d p :
  digits_value (Z.pos p) (NilEmpty.string_of_uint d) = Z.pos (Pos.of_uint_acc d p).
Proof.
  revert p. induction d; intros p; cbn [NilEmpty.string_of_uint digits_value Pos.of_uint_acc];
    [reflexivity|..];
    match goal with
    | |- digits_value ?a _ = Z.pos (Pos.of_uint_acc _ ?q) =>
        replace a with (Z.pos q)
          by (unfold digit_value;
              match goal with
              | |- context [nat_of_ascii ?c] =>
                  let v := eval vm_compute in (Z.of_nat (nat_of_ascii c)) in
                  change (Z.of_nat (nat_of_ascii c)) with v
              end; lia)
    end; apply IHd.
Qed.

Lemma digits_value_of_uint d :
  digits_value 0 (NilEmpty.string_of_uint d) = Z.of_N (Pos.of_uint d).
Proof.
  induction d; cbn [NilEmpty.string_of_uint digits_value Pos.of_uint];
    [reflexivity|exact IHd|..];
    match goal with
    | |- digits_value ?a _ = Z.of_N (N.pos (Pos.of_uint_acc _ ?q)) =>
        replace a with (Z.pos q)
          by (unfold digit_value;
              match goal with
              | |- context [nat_of_ascii ?c] =>
                  let v := eval vm_compute in (Z.of_nat (nat_of_ascii c)) in
                  change (Z.of_nat (nat_of_ascii c)) with v
              end; lia)
    end; apply digits_value_acc.
Qed.

(** [parseInt] reads a number written in decimal back. *)
Lemma parseInt_show_Z z : 0 <= z -> parseInt (show_Z z) = Num z.
Proof.
  intros Hz. unfold show_Z. destruct z as [|p|p]; [reflexivity| |lia].
  cbn [Z.to_int NilZero.string_of_int].
  pose proof (DecimalPos.Unsigned.of_to p) as Hp.
  destruct (Pos.to_uint p) as [|d|d|d|d|d|d|d|d|d|d] eqn:E; [discriminate|..];
    (unfold NilZero.string_of_uint;
     rewrite parseInt_digits;
     [rewrite digits_value_of_uint, Hp; reflexivity
     |reflexivity
     |apply digits_string_of_uint]).
Qed.

(** C8. Later duplicates overwrite earlier ones.  The matches of a header
    written in the documented shape are its pairs in order of appearance,
    and [params] maps a key to the value of the last match with that key.
    A header in which [realm], [scope] and [token_uri] are matched, however
    often (so every header of the documented shape that names the three),
    parses to a challenge, and that challenge holds, for each of the
    five keys that is matched, the value of its last match: the text as it
    stands for the four text fields, and for [chain_id] the number [z] when
    the last value is [z] written in decimal ([0 <= z < 2^53], the numbers
    a JavaScript number holds exactly).  No challenge holds anything else:
    the fields of whatever the parser returns are last matches. *)
Theorem last_duplicate_key_wins :
  (forall kvs,
     Forall (fun kv => well_formed_pair kv.1 kv.2) kvs ->
     matchAll (render_challenge kvs) = kvs)
  /\ (forall header k v,
        last_pair k (matchAll header) v ->
        collect_params (matchAll header) !! k = Some v)
  /\ (forall header r s t,
        last_pair "realm" (matchAll header) r ->
        last_pair "scope" (matchAll header) s ->
        last_pair "token_uri" (matchAll header) t ->
        exists c,
          parseWWWAuthenticateChallenge header = Some c
          /\ OAuthChallenge.realm c = r
          /\ OAuthChallenge.scope c = s
          /\ OAuthChallenge.tokenUri c = t
          /\ (forall g, last_pair "signing_scheme" (matchAll header) g ->
                OAuthChallenge.signingScheme c = g)
          /\ (forall z, 0 <= z < 2 ^ 53 ->
                last_pair "chain_id" (matchAll header) (show_Z z) ->
                OAuthChallenge.chainId c = Num z))
  /\ (forall kvs r s t,
        Forall (fun kv => well_formed_pair kv.1 kv.2) kvs ->
        last_pair "realm" kvs r ->
        last_pair "scope" kvs s ->
        last_pair "token_uri" kvs t ->
        exists c,
          parseWWWAuthenticateChallenge (render_challenge kvs) = Some c
          /\ OAuthChallenge.realm c = r
          /\ OAuthChallenge.scope c = s
          /\ OAuthChallenge.tokenUri c = t
          /\ (forall g, last_pair "signing_scheme" kvs g ->
                OAuthChallenge.signingScheme c = g)
          /\ (forall z, 0 <= z < 2 ^ 53 ->
                last_pair "chain_id" kvs (show_Z z) ->
                OAuthChallenge.chainId c = Num z))
  /\ (forall header c,
        parseWWWAuthenticateChallenge header = Some c ->
        last_pair "realm" (matchAll header) (OAuthChallenge.realm c)
        /\ last_pair "scope" (matchAll header) (OAuthChallenge.scope c)
        /\ last_pair "token_uri" (matchAll header) (OAuthChallenge.tokenUri c)
        /\ (forall z, 0 <= z < 2 ^ 53 ->
              last_pair "chain_id" (matchAll header) (show_Z z) ->
              OAuthChallenge.chainId c = Num z)
        /\ (forall v, last_pair "signing_scheme" (matchAll header) v ->
              OAuthChallenge.signingScheme c = v)).
Proof.
  assert (Hlast : forall header r s t,
            last_pair "realm" (matchAll header) r ->
            last_pair "scope" (matchAll header) s ->
            last_pair "token_uri" (matchAll header) t ->
            exists c,
              parseWWWAuthenticateChallenge header = Some c
              /\ OAuthChallenge.realm c = r
              /\ OAuthChallenge.scope c = s
              /\ OAuthChallenge.tokenUri c = t
              /\ (forall g, last_pair "signing_scheme" (matchAll header) g ->
                    OAuthChallenge.signingScheme c = g)
              /\ (forall z, 0 <= z < 2 ^ 53 ->
                    last_pair "chain_id" (matchAll header) (show_Z z) ->
                    OAuthChallenge.chainId c = Num z)).
  { intros header r s t Hr Hs Ht.
    apply last_value_Some in Hr, Hs, Ht.
    rewrite parse_last_values. cbv zeta. rewrite Hr, Hs, Ht.
    eexists. split; [reflexivity|]. cbn.
    repeat split.
    + intros g Hg. apply last_value_Some in Hg. now rewrite Hg.
    + intros z Hz Hv. apply last_value_Some in Hv. rewrite Hv.
      apply parseInt_show_Z. lia. }
  split; [exact matchAll_render|]. split; [|split; [exact Hlast|split]].
  - intros header k v H. rewrite collect_params_lookup. now apply last_value_Some.
  - intros kvs r s t Hwf Hr Hs Ht.
    pose proof (Hlast (render_challenge kvs) r s t) as H.
    rewrite (matchAll_render kvs Hwf) in H. exact (H Hr Hs Ht).
  - intros header c Hc. rewrite parse_last_values in Hc. cbv zeta in Hc.
    destruct (last_value "realm" (matchAll header)) eqn:E1; [|discriminate].
    destruct (last_value "scope" (matchAll header)) eqn:E2; [|discriminate].
    destruct (last_value "token_uri" (matchAll header)) eqn:E3; [|discriminate].
    injection Hc as <-. simpl.
    repeat split; try (now apply last_value_Some).
    + intros z Hz Hv. apply last_value_Some in Hv. rewrite Hv.
      apply parseInt_show_Z. lia.
    + intros v Hv. apply last_value_Some in Hv. now rewrite Hv.
Qed.

(** ** Running the monad *)

Lemma prepend_nil {W A} (run : Run W A) : prepend [] run = run.
Proof. now destruct run as [[r st] ev]. Qed.

Lemma prepend_prepend {W A} (e1 e2 : list Event) (run : Run W A) :
  prepend e1 (prepend e2 run) = prepend (e1 ++ e2) run.
Proof. destruct run as [[r st] ev]; simpl. now rewrite app_assoc. Qed.

Lemma bind_inr {W A B} (m : M W A) (k : A -> M W B) st a st1 ev1 :
  m st = (inr a, st1, ev1) -> bind m k st = prepend ev1 (k a st1).
Proof. intros H. unfold bind. rewrite H. reflexivity. Qed.

Lemma bind_inl {W A B} (m : M W A) (k : A -> M W B) st e st1 ev1 :
  m st = (inl e, st1, ev1) -> bind m k st = (inl e, st1, ev1).
Proof. intros H. unfold bind. now rewrite H. Qed.

(** Whatever follows, the events of the first step come first. *)
Lemma bind_events {W A B} (m : M W A) (k : A -> M W B) st r0 st0 ev0 :
  m st = (r0, st0, ev0) ->
  exists r st' rest, bind m k st = (r, st', (ev0 ++ rest)%list).
Proof.
  intros H. destruct r0 as [e|a].
  - exists (inl e), st0, []. rewrite app_nil_r. now apply bind_inl.
  - rewrite (bind_inr _ _ _ _ _ _ H).
    destruct (k a st0) as [[r st'] ev]. now exists r, st', ev.
Qed.

Lemma prepend_events {W A} (evs : list Event) (run : Run W A) ev0 :
  (exists r st' rest, run = (r, st', (ev0 ++ rest)%list)) ->
  exists r st' rest, prepend evs run = (r, st', ((evs ++ ev0) ++ rest)%list).
Proof.
  intros (r & st' & rest & ->). exists r, st', rest. simpl. now rewrite app_assoc.
Qed.

(** ** The stages, for any implementation whose run continues from a
    detected challenge as [from_challenge] says *)
Section FlowProps.
Context {W A : Type}.
Variable first : M W Response.t.
Variable nonce_of : string -> M W JSValue.
Variable message_of : OAuthChallenge.t -> JSValue -> M W string.
Variable sign : string -> M W string.
Variable exchange : string -> string -> string -> string -> M W JSValue.
Variable finish : JSValue -> M W A.
Variable run : M W A.
Variable st : State W.

Hypothesis run_challenged : forall c st1 evs,
  challenged first st c st1 evs ->
  run st = prepend evs (from_challenge nonce_of message_of sign exchange finish c st1).

Lemma run_nonce_fetched c nonce st2 evs :
  nonce_fetched first nonce_of st c nonce st2 evs ->
  run st = prepend evs (from_nonce message_of sign exchange finish c nonce st2).
Proof.
  intros (st1 & evs1 & ev2 & Hc & Hn & ->).
  rewrite (run_challenged _ _ _ Hc). unfold from_challenge.
  rewrite (bind_inr _ _ _ _ _ _ Hn). apply prepend_prepend.
Qed.

Lemma run_signed c siweMessage signature st4 evs :
  signed first nonce_of message_of sign st c siweMessage signature st4 evs ->
  run st = prepend evs (from_signed exchange finish c siweMessage signature st4).
Proof.
  intros (nonce & st2 & evs2 & st3 & ev3 & ev4 & Hn & Hm & Hs & ->).
  rewrite (run_nonce_fetched _ _ _ _ Hn). unfold from_nonce.
  rewrite (bind_inr _ _ _ _ _ _ Hm), (bind_inr _ _ _ _ _ _ Hs).
  rewrite !prepend_prepend. now rewrite <- !app_assoc.
Qed.

Lemma run_exchanged c tokenResponse st5 evs :
  exchanged first nonce_of message_of sign exchange st c tokenResponse st5 evs ->
  run st = prepend evs (finish tokenResponse st5).
Proof.
  intros (siweMessage & signature & st4 & evs4 & ev5 & Hs & Hx & ->).
  rewrite (run_signed _ _ _ _ _ Hs). unfold from_signed.
  rewrite (bind_inr _ _ _ _ _ _ Hx). apply prepend_prepend.
Qed.
End FlowProps.

Section AuthFetchProps.
Context {W : Type} (env : Env W).

Lemma do_fetch_run input req (st : State W) r w :
  fetch env input req (world st) = (r, w) ->
  do_fetch env input req st = (r, moved st w, [EFetch input req]).
Proof.
  intros H. unfold do_fetch, bind, log, call. rewrite H.
  destruct r; reflexivity.
Qed.

Lemma do_parse_run header (st : State W) :
  do_parse header st
  = (inr (parseWWWAuthenticateChallenge header), st, [EParse header]).
Proof. reflexivity. Qed.

Lemma carries_truthy response c :
  carries_challenge response c ->
  truthy_string (www_authenticate response) = true
  /\ parseWWWAuthenticateChallenge (string_value (www_authenticate response)) = Some c.
Proof.
  intros (h & Hh & Hp). rewrite Hh. simpl. split; [|assumption].
  destruct h; [|reflexivity]. vm_compute in Hp. discriminate.
Qed.

(** From a detected challenge on, [authFetch] is its nonce step and what
    follows it. *)
Lemma authFetch_from_challenge input init st c st1 evs :
  authFetch_challenged env input init st c st1 evs ->
  AuthFetch.authFetch env input init st
  = prepend evs
      (from_challenge (AuthFetch.fetchNonce env) (authFetch_message env input init)
         (do_sign (Options.signMessage (AuthRequestInit.options init)))
         (AuthFetch.exchangeToken env) (authFetch_finish env input init) c st1).
Proof.
  intros (response & ev1 & Hf & Hs & Hc & Hscheme & ->).
  apply carries_truthy in Hc as [Ht Hp].
  unfold AuthFetch.authFetch. cbv zeta. fold (first_request init).
  rewrite (bind_inr _ _ _ _ _ _ Hf).
  rewrite Hs, Z.eqb_refl.
  fold (www_authenticate response). rewrite Ht. cbn [negb].
  rewrite (bind_inr _ _ _ _ _ _ (do_parse_run _ _)).
  rewrite Hp, Hscheme. cbn [String.eqb Ascii.eqb Bool.eqb negb].
  rewrite prepend_prepend. reflexivity.
Qed.

Lemma no_challenge_cases response :
  no_challenge response ->
  truthy_string (www_authenticate response) = false
  \/ (truthy_string (www_authenticate response) = true
      /\ parseWWWAuthenticateChallenge (string_value (www_authenticate response)) = None).
Proof.
  intros [Hn|(h & Hh & Hp)].
  - left. now rewrite Hn.
  - rewrite Hh. destruct h; [left; reflexivity|right; auto].
Qed.

Lemma authFetch_not_401 input init st response w :
  fetch env input (first_request init) (world st) = (inr response, w) ->
  Response.status response <> 401 ->
  AuthFetch.authFetch env input init st
  = (inr response, moved st w, [EFetch input (first_request init)]).
Proof.
  intros Hf Hs. unfold AuthFetch.authFetch. cbv zeta. fold (first_request init).
  rewrite (bind_inr _ _ _ _ _ _ (do_fetch_run _ _ _ _ _ Hf)).
  apply Z.eqb_neq in Hs. rewrite Hs. reflexivity.
Qed.

Lemma authFetch_no_challenge input init st response w :
  fetch env input (first_request init) (world st) = (inr response, w) ->
  Response.status response = 401 ->
  no_challenge response ->
  exists evs,
    AuthFetch.authFetch env input init st
    = (inr response, moved st w, EFetch input (first_request init) :: evs)
    /\ (evs = [] \/ exists h, evs = [EParse h]).
Proof.
  intros Hf Hs Hn. unfold AuthFetch.authFetch. cbv zeta. fold (first_request init).
  rewrite (bind_inr _ _ _ _ _ _ (do_fetch_run _ _ _ _ _ Hf)).
  rewrite Hs, Z.eqb_refl. fold (www_authenticate response).
  destruct (no_challenge_cases _ Hn) as [Ht|[Ht Hp]]; rewrite Ht; cbn [negb].
  - exists []. split; [reflexivity|now left].
  - rewrite (bind_inr _ _ _ _ _ _ (do_parse_run _ _)), Hp.
    eexists. split; [reflexivity|]. right. eauto.
Qed.

Lemma authFetch_unsupported input init st response w c :
  fetch env input (first_request init) (world st) = (inr response, w) ->
  Response.status response = 401 ->
  carries_challenge response c ->
  OAuthChallenge.signingScheme c <> "eip4361" ->
  AuthFetch.authFetch env input init st
  = (inl (JsError ("Unsupported signing scheme: " ++ OAuthChallenge.signingScheme c)),
     moved st w,
     [EFetch input (first_request init);
      EParse (string_value (www_authenticate response))]).
Proof.
  intros Hf Hs Hc Hne. apply carries_truthy in Hc as [Ht Hp].
  unfold AuthFetch.authFetch. cbv zeta. fold (first_request init).
  rewrite (bind_inr _ _ _ _ _ _ (do_fetch_run _ _ _ _ _ Hf)).
  rewrite Hs, Z.eqb_refl. fold (www_authenticate response).
  rewrite Ht. cbn [negb].
  rewrite (bind_inr _ _ _ _ _ _ (do_parse_run _ _)), Hp.
  apply String.eqb_neq in Hne. rewrite Hne. reflexivity.
Qed.

Lemma do_onToken_some cb tokenResponse (st : State W) a s r w :
  get_prop tokenResponse "access_token" = inr a ->
  get_prop tokenResponse "scope" = inr s ->
  cb a s (world st) = (r, w) ->
  do_onToken (Some cb) tokenResponse st = (r, moved st w, [EOnToken a s]).
Proof.
  intros Ha Hs Hcb. unfold do_onToken, bind, lift, log, call.
  rewrite Ha, Hs, Hcb. destruct r; reflexivity.
Qed.

Lemma authFetch_notifies input init st c tokenResponse st5 evs cb a s :
  authFetch_exchanged env input init st c tokenResponse st5 evs ->
  Options.onToken (AuthRequestInit.options init) = Some cb ->
  get_prop tokenResponse "access_token" = inr a ->
  get_prop tokenResponse "scope" = inr s ->
  (forall w r2 w',
     cb a s (world st5) = (inr tt, w) ->
     fetch env input (retry_request (AuthRequestInit.fetchInit init) a) w = (r2, w') ->
     AuthFetch.authFetch env input init st
     = (r2, moved st5 w',
        evs ++ [EOnToken a s;
                EFetch input (retry_request (AuthRequestInit.fetchInit init) a)])%list)
  /\ (forall e w,
        cb a s (world st5) = (inl e, w) ->
        AuthFetch.authFetch env input init st
        = (inl e, moved st5 w, evs ++ [EOnToken a s])%list).
Proof.
  intros Hx Hcb Ha Hs.
  rewrite (run_exchanged _ _ _ _ _ _ _ _ (authFetch_from_challenge input init st)
             _ _ _ _ Hx).
  unfold authFetch_finish. rewrite Hcb. split.
  - intros w r2 w' Hw Hr.
    rewrite (bind_inr _ _ _ _ _ _ (do_onToken_some _ _ _ _ _ _ _ Ha Hs Hw)).
    unfold lift at 1. rewrite Ha.
    rewrite (bind_inr _ _ (moved st5 w) a (moved st5 w) []) by reflexivity.
    rewrite (do_fetch_run _ _ (moved st5 w) _ _ Hr). reflexivity.
  - intros e w Hw.
    rewrite (bind_inl _ _ _ _ _ _ (do_onToken_some _ _ _ _ _ _ _ Ha Hs Hw)).
    reflexivity.
Qed.

Lemma authFetch_returns_retry input init st c tokenResponse st5 evs
    st6 ev6 a response w :
  authFetch_exchanged env input init st c tokenResponse st5 evs ->
  do_onToken (Options.onToken (AuthRequestInit.options init)) tokenResponse st5
    = (inr tt, st6, ev6) ->
  get_prop tokenResponse "access_token" = inr a ->
  fetch env input (retry_request (AuthRequestInit.fetchInit init) a) (world st6)
    = (inr response, w) ->
  AuthFetch.authFetch env input init st
  = (inr response, moved st6 w,
     evs ++ ev6 ++ [EFetch input (retry_request (AuthRequestInit.fetchInit init) a)])%list.
Proof.
  intros Hx Hcb Ha Hr.
  rewrite (run_exchanged _ _ _ _ _ _ _ _ (authFetch_from_challenge input init st)
             _ _ _ _ Hx).
  unfold authFetch_finish.
  rewrite (bind_inr _ _ _ _ _ _ Hcb).
  unfold lift at 1. rewrite Ha.
  rewrite (bind_inr _ _ st6 a st6 []) by reflexivity.
  rewrite (do_fetch_run _ _ _ _ _ Hr). reflexivity.
Qed.

(** The helpers ask the network exactly once, whatever comes back. *)
Lemma exchangeToken_events tokenUri message signature scope (st : State W) :
  exists r st',
    AuthFetch.exchangeToken env tokenUri message signature scope st
    = (r, st', [EFetch tokenUri (exchange_request env message signature scope)]).
Proof.
  unfold AuthFetch.exchangeToken. fold (exchange_request env message signature scope).
  destruct (fetch env tokenUri (exchange_request env message signature scope) (world st))
    as [[e|response] w] eqn:Hf.
  - rewrite (bind_inl _ _ _ _ _ _ (do_fetch_run _ _ _ _ _ Hf)). eauto.
  - rewrite (bind_inr _ _ _ _ _ _ (do_fetch_run _ _ _ _ _ Hf)).
    destruct (Response.ok response); cbn [negb].
    + unfold lift, prepend. eauto.
    + unfold bind, catch, lift, ret, throw, prepend.
      destruct (Response.json response) as [e|v];
        [destruct (get_prop (JObj []) "error")|destruct (get_prop v "error")];
        simpl; eauto.
Qed.

Lemma fetchNonce_events tokenUri (st : State W) :
  exists r st',
    AuthFetch.fetchNonce env tokenUri st
    = (r, st', [EFetch (replace "/token" "/nonce" tokenUri) no_init]).
Proof.
  unfold AuthFetch.fetchNonce. cbv zeta.
  destruct (fetch env (replace "/token" "/nonce" tokenUri) no_init (world st))
    as [[e|response] w] eqn:Hf.
  - rewrite (bind_inl _ _ _ _ _ _ (do_fetch_run _ _ _ _ _ Hf)). eauto.
  - rewrite (bind_inr _ _ _ _ _ _ (do_fetch_run _ _ _ _ _ Hf)).
    destruct (Response.ok response); cbn [negb].
    + unfold bind, lift, prepend.
      destruct (Response.json response) as [e|v]; [|destruct (get_prop v "nonce")];
        simpl; eauto.
    + unfold throw, prepend. eauto.
Qed.

Lemma buildSiweMessage_events address nonce scope uri chainId domain (st : State W) :
  url_host env uri = inr domain ->
  exists r st',
    AuthFetch.buildSiweMessage env address nonce (split " " scope) uri chainId st
    = (r, st', [ECreateSiwe (siwe_params address chainId domain nonce uri scope)]).
Proof.
  intros Hh. unfold AuthFetch.buildSiweMessage, do_createSiweMessage.
  unfold lift at 1. rewrite Hh.
  rewrite (bind_inr _ _ st domain st []) by reflexivity. cbv zeta.
  fold (siwe_params address chainId domain nonce uri scope).
  unfold bind, log, call, prepend.
  destruct (createSiweMessage env _ (world st)) as [[e|m] w]; simpl; eauto.
Qed.

Lemma authFetch_exchange_request input init st c siweMessage signature st4 evs :
  authFetch_signed env input init st c siweMessage signature st4 evs ->
  exists r st' rest,
    AuthFetch.authFetch env input init st
    = (r, st',
       (evs ++ [EFetch (OAuthChallenge.tokenUri c)
                  (exchange_request env siweMessage signature (OAuthChallenge.scope c))])
       ++ rest)%list.
Proof.
  intros Hs.
  rewrite (run_signed _ _ _ _ _ _ _ _ (authFetch_from_challenge input init st)
             _ _ _ _ _ Hs).
  apply prepend_events. unfold from_signed.
  destruct (exchangeToken_events (OAuthChallenge.tokenUri c) siweMessage signature
              (OAuthChallenge.scope c) st4) as (r & st' & Hx).
  exact (bind_events _ _ _ _ _ _ Hx).
Qed.

Lemma authFetch_siwe_params input init st c nonce st2 evs domain :
  authFetch_nonce_fetched env input init st c nonce st2 evs ->
  url_host env input = inr domain ->
  exists r st' rest,
    AuthFetch.authFetch env input init st
    = (r, st',
       (evs ++ [ECreateSiwe
                  (siwe_params (Options.address (AuthRequestInit.options init))
                     (chain_for c (Options.chainId (AuthRequestInit.options init)))
                     domain nonce input (OAuthChallenge.scope c))])
       ++ rest)%list.
Proof.
  intros Hn Hh.
  rewrite (run_nonce_fetched _ _ _ _ _ _ _ _ (authFetch_from_challenge input init st)
             _ _ _ _ Hn).
  apply prepend_events. unfold from_nonce, authFetch_message.
  destruct (buildSiweMessage_events
              (Options.address (AuthRequestInit.options init)) nonce
              (OAuthChallenge.scope c) input
              (chain_for c (Options.chainId (AuthRequestInit.options init)))
              domain st2 Hh) as (r & st' & Hb).
  exact (bind_events _ _ _ _ _ _ Hb).
Qed.
End AuthFetchProps.

Section FactoryProps.
Context {W : Type} (env : Env W).

Lemma authFetch_bound_first options input init (st : State W) response st1 ev1 :
  bound_first env input init st st = (inr response, st1, ev1) ->
  Factory.authFetch_bound env options input init st
  = prepend ev1
      ((if Response.status response =? 401 then
          if negb (truthy_string (www_authenticate response)) then ret response
          else
            challenge <- do_parse (string_value (www_authenticate response)) ;;
            match challenge with
            | None => ret response
            | Some c =>
                if negb (String.eqb (OAuthChallenge.signingScheme c) "eip4361") then
                  throw (JsError ("Unsupported signing scheme: "
                                  ++ OAuthChallenge.signingScheme c))
                else
                  from_challenge (AuthFetch.fetchNonce env)
                    (bound_message env options input)
                    (do_sign (Options.signMessage options))
                    (AuthFetch.exchangeToken env)
                    (bound_finish env options input init) c
            end
        else ret response) st1).
Proof.
  intros Hf. unfold Factory.authFetch_bound. cbv zeta.
  rewrite (bind_inr get_currentToken _ st (currentToken st) st []) by reflexivity.
  rewrite prepend_nil. fold (bound_first_request init (currentToken st)).
  unfold bound_first in Hf.
  rewrite (bind_inr _ _ _ _ _ _ Hf). reflexivity.
Qed.

Lemma bound_first_run input init (st : State W) r w :
  fetch env input (bound_first_request init (currentToken st)) (world st) = (r, w) ->
  bound_first env input init st st
  = (r, moved st w, [EFetch input (bound_first_request init (currentToken st))]).
Proof. apply do_fetch_run. Qed.

Lemma bound_not_401 options input init st response w :
  fetch env input (bound_first_request init (currentToken st)) (world st)
    = (inr response, w) ->
  Response.status response <> 401 ->
  Factory.authFetch_bound env options input init st
  = (inr response, moved st w,
     [EFetch input (bound_first_request init (currentToken st))]).
Proof.
  intros Hf Hs.
  rewrite (authFetch_bound_first _ _ _ _ _ _ _ (bound_first_run _ _ _ _ _ Hf)).
  apply Z.eqb_neq in Hs. rewrite Hs. reflexivity.
Qed.

Lemma bound_no_challenge options input init st response w :
  fetch env input (bound_first_request init (currentToken st)) (world st)
    = (inr response, w) ->
  Response.status response = 401 ->
  no_challenge response ->
  exists evs,
    Factory.authFetch_bound env options input init st
    = (inr response, moved st w,
       EFetch input (bound_first_request init (currentToken st)) :: evs)
    /\ (evs = [] \/ exists h, evs = [EParse h]).
Proof.
  intros Hf Hs Hn.
  rewrite (authFetch_bound_first _ _ _ _ _ _ _ (bound_first_run _ _ _ _ _ Hf)).
  rewrite Hs, Z.eqb_refl.
  destruct (no_challenge_cases _ Hn) as [Ht|[Ht Hp]]; rewrite Ht; cbn [negb].
  - exists []. split; [reflexivity|now left].
  - rewrite (bind_inr _ _ _ _ _ _ (do_parse_run _ _)), Hp.
    eexists. split; [reflexivity|]. right. eauto.
Qed.

Lemma bound_unsupported options input init st response w c :
  fetch env input (bound_first_request init (currentToken st)) (world st)
    = (inr response, w) ->
  Response.status response = 401 ->
  carries_challenge response c ->
  OAuthChallenge.signingScheme c <> "eip4361" ->
  Factory.authFetch_bound env options input init st
  = (inl (JsError ("Unsupported signing scheme: " ++ OAuthChallenge.signingScheme c)),
     moved st w,
     [EFetch input (bound_first_request init (currentToken st));
      EParse (string_value (www_authenticate response))]).
Proof.
  intros Hf Hs Hc Hne. apply carries_truthy in Hc as [Ht Hp].
  rewrite (authFetch_bound_first _ _ _ _ _ _ _ (bound_first_run _ _ _ _ _ Hf)).
  rewrite Hs, Z.eqb_refl, Ht. cbn [negb].
  rewrite (bind_inr _ _ _ _ _ _ (do_parse_run _ _)), Hp.
  apply String.eqb_neq in Hne. rewrite Hne. reflexivity.
Qed.

Lemma bound_from_challenge options input init st c st1 evs :
  bound_challenged env input init st c st1 evs ->
  Factory.authFetch_bound env options input init st
  = prepend evs
      (from_challenge (AuthFetch.fetchNonce env) (bound_message env options input)
         (do_sign (Options.signMessage options))
         (AuthFetch.exchangeToken env) (bound_finish env options input init) c st1).
Proof.
  intros (response & ev1 & Hf & Hs & Hc & Hscheme & ->).
  apply carries_truthy in Hc as [Ht Hp].
  rewrite (authFetch_bound_first _ _ _ _ _ _ _ Hf).
  rewrite Hs, Z.eqb_refl, Ht. cbn [negb].
  rewrite (bind_inr _ _ _ _ _ _ (do_parse_run _ _)).
  rewrite Hp, Hscheme. cbn [String.eqb Ascii.eqb Bool.eqb negb].
  now rewrite prepend_prepend.
Qed.

Lemma bound_notifies options input init st c tokenResponse st5 evs cb a s :
  bound_exchanged env options input init st c tokenResponse st5 evs ->
  Options.onToken options = Some cb ->
  get_prop tokenResponse "access_token" = inr a ->
  get_prop tokenResponse "scope" = inr s ->
  (forall w r2 w',
     cb a s (world st5) = (inr tt, w) ->
     fetch env input (bound_retry_request init a) w = (r2, w') ->
     Factory.authFetch_bound env options input init st
     = (r2, {| world := w'; currentToken := a |},
        evs ++ [EOnToken a s; EFetch input (bound_retry_request init a)])%list)
  /\ (forall e w,
        cb a s (world st5) = (inl e, w) ->
        Factory.authFetch_bound env options input init st
        = (inl e, {| world := w; currentToken := a |}, evs ++ [EOnToken a s])%list).
Proof.
  intros Hx Hcb Ha Hs.
  rewrite (run_exchanged _ _ _ _ _ _ _ _ (bound_from_challenge options input init st)
             _ _ _ _ Hx).
  unfold bound_finish. rewrite Hcb.
  assert (Hpre : forall k : unit -> M W Response.t,
    (access_token <- lift (get_prop tokenResponse "access_token") ;;
     _ <- set_currentToken access_token ;; k tt) st5
    = k tt (with_token st5 a)).
  { intros k. unfold lift at 1. rewrite Ha.
    rewrite (bind_inr _ _ st5 a st5 []) by reflexivity.
    rewrite (bind_inr (set_currentToken a) _ st5 tt (with_token st5 a) [])
      by reflexivity.
    now rewrite !prepend_nil. }
  rewrite (Hpre (fun _ =>
    _ <- do_onToken (Some cb) tokenResponse ;;
    currentToken <- get_currentToken ;;
    do_fetch env input (bound_retry_request init currentToken))).
  split.
  - intros w r2 w' Hw Hr.
    pose proof (do_onToken_some _ _ (with_token st5 a) _ _ _ _ Ha Hs Hw) as HH.
    rewrite (bind_inr _ _ _ _ _ _ HH).
    rewrite (bind_inr get_currentToken _ (moved (with_token st5 a) w) a
               (moved (with_token st5 a) w) []) by reflexivity.
    rewrite (do_fetch_run _ _ _ (moved (with_token st5 a) w) _ _ Hr). reflexivity.
  - intros e w Hw.
    pose proof (do_onToken_some _ _ (with_token st5 a) _ _ _ _ Ha Hs Hw) as HH.
    rewrite (bind_inl _ _ _ _ _ _ HH). reflexivity.
Qed.

Lemma do_onToken_currentToken onToken tokenResponse (st : State W) r st' ev :
  do_onToken onToken tokenResponse st = (r, st', ev) ->
  currentToken st' = currentToken st.
Proof.
  unfold do_onToken. destruct onToken as [cb|]; [|now intros [= <- <- <-]].
  unfold bind, lift, log, call.
  destruct (get_prop tokenResponse "access_token") as [e|a];
    [now intros [= <- <- <-]|].
  destruct (get_prop tokenResponse "scope") as [e|s]; [now intros [= <- <- <-]|].
  destruct (cb a s (world st)) as [[e|[]] w]; now intros [= <- <- <-].
Qed.

Lemma bound_returns_retry options input init st c tokenResponse st5 evs
    st6 ev6 a response w :
  bound_exchanged env options input init st c tokenResponse st5 evs ->
  get_prop tokenResponse "access_token" = inr a ->
  do_onToken (Options.onToken options) tokenResponse (with_token st5 a)
    = (inr tt, st6, ev6) ->
  fetch env input (bound_retry_request init a) (world st6) = (inr response, w) ->
  Factory.authFetch_bound env options input init st
  = (inr response, {| world := w; currentToken := a |},
     evs ++ ev6 ++ [EFetch input (bound_retry_request init a)])%list.
Proof.
  intros Hx Ha Hcb Hr.
  rewrite (run_exchanged _ _ _ _ _ _ _ _ (bound_from_challenge options input init st)
             _ _ _ _ Hx).
  unfold bound_finish.
  unfold lift at 1. rewrite Ha.
  rewrite (bind_inr _ _ st5 a st5 []) by reflexivity.
  rewrite (bind_inr (set_currentToken a) _ st5 tt (with_token st5 a) [])
    by reflexivity.
  rewrite (bind_inr _ _ _ _ _ _ Hcb).
  pose proof (do_onToken_currentToken _ _ _ _ _ _ Hcb) as Hct. simpl in Hct.
  rewrite (bind_inr get_currentToken _ st6 a st6 [])
    by (unfold get_currentToken; now rewrite Hct).
  rewrite (do_fetch_run _ _ _ _ _ _ Hr). unfold moved. rewrite Hct. reflexivity.
Qed.

Lemma bound_exchange_request options input init st c siweMessage signature st4 evs :
  bound_signed env options input init st c siweMessage signature st4 evs ->
  exists r st' rest,
    Factory.authFetch_bound env options input init st
    = (r, st',
       (evs ++ [EFetch (OAuthChallenge.tokenUri c)
                  (exchange_request env siweMessage signature (OAuthChallenge.scope c))])
       ++ rest)%list.
Proof.
  intros Hs.
  rewrite (run_signed _ _ _ _ _ _ _ _ (bound_from_challenge options input init st)
             _ _ _ _ _ Hs).
  apply prepend_events. unfold from_signed.
  destruct (exchangeToken_events env (OAuthChallenge.tokenUri c) siweMessage signature
              (OAuthChallenge.scope c) st4) as (r & st' & Hx).
  exact (bind_events _ _ _ _ _ _ Hx).
Qed.

Lemma bound_siwe_params options input init st c nonce st2 evs domain :
  bound_nonce_fetched env input init st c nonce st2 evs ->
  url_host env input = inr domain ->
  exists r st' rest,
    Factory.authFetch_bound env options input init st
    = (r, st',
       (evs ++ [ECreateSiwe
                  (siwe_params (Options.address options)
                     (chain_for c (Options.chainId options))
                     domain nonce input (OAuthChallenge.scope c))])
       ++ rest)%list.
Proof.
  intros Hn Hh.
  rewrite (run_nonce_fetched _ _ _ _ _ _ _ _ (bound_from_challenge options input init st)
             _ _ _ _ Hn).
  apply prepend_events. unfold from_nonce, bound_message.
  destruct (buildSiweMessage_events env (Options.address options) nonce
              (OAuthChallenge.scope c) input
              (chain_for c (Options.chainId options)) domain st2 Hh)
    as (r & st' & Hb).
  exact (bind_events _ _ _ _ _ _ Hb).
Qed.

(** The one-shot [authFetch] of this version is the bound function, run
    with [currentToken] set to the caller's token. *)
Lemma factory_authFetch_bound input init (st : State W) :
  Factory.authFetch env input init st
  = Factory.authFetch_bound env (AuthRequestInit.options init) input
      (Some (AuthRequestInit.fetchInit init))
      (with_token st
         (match Options.token (AuthRequestInit.options init) with
          | Some t => JStr t
          | None => JUndefined
          end)).
Proof.
  unfold Factory.authFetch, Factory.createAuthFetch.
  unfold bind at 1 2. unfold set_currentToken, ret. cbn [app].
  fold (with_token st
          (match Options.token (AuthRequestInit.options init) with
           | Some t => JStr t
           | None => JUndefined
           end)).
  destruct (Factory.authFetch_bound _ _ _ _ _) as [[r st'] ev]. reflexivity.
Qed.
End FactoryProps.

Section OAuthProps.
Context {W : Type} (env : Env W).
Variable url : string.
Variable signMessage : string -> W -> (Exn + string) * W.
Variable address : string.
Variable existingToken : option string.

Lemma oauth_not_401 st response w :
  fetch env url (oauth_first_request existingToken) (world st) = (inr response, w) ->
  Response.status response <> 401 ->
  OAuth.fetchWithOAuth env url signMessage address existingToken st
  = (oauth_outcome response
       (JStr (if truthy_string existingToken then string_value existingToken
              else EmptyString))
       "Request failed: ",
     moved st w, [EFetch url (oauth_first_request existingToken)]).
Proof.
  intros Hf Hs. unfold OAuth.fetchWithOAuth. cbv zeta.
  fold (oauth_first_request existingToken).
  rewrite (bind_inr _ _ _ _ _ _ (do_fetch_run _ _ _ _ _ _ Hf)).
  apply Z.eqb_neq in Hs. rewrite Hs. unfold oauth_outcome.
  destruct (Response.ok response); cbn [negb]; [|reflexivity].
  unfold bind, lift, ret, prepend.
  destruct (Response.json response); reflexivity.
Qed.

Lemma oauth_no_challenge st response w :
  fetch env url (oauth_first_request existingToken) (world st) = (inr response, w) ->
  Response.status response = 401 ->
  no_challenge response ->
  exists message evs,
    OAuth.fetchWithOAuth env url signMessage address existingToken st
    = (inl (JsError message), moved st w,
       EFetch url (oauth_first_request existingToken) :: evs)
    /\ ((message = "Missing WWW-Authenticate header in 401 response" /\ evs = [])
        \/ (message = "Failed to parse WWW-Authenticate challenge"
            /\ exists h, evs = [EParse h])).
Proof.
  intros Hf Hs Hn. unfold OAuth.fetchWithOAuth. cbv zeta.
  fold (oauth_first_request existingToken).
  rewrite (bind_inr _ _ _ _ _ _ (do_fetch_run _ _ _ _ _ _ Hf)).
  rewrite Hs, Z.eqb_refl. fold (www_authenticate response).
  destruct (no_challenge_cases _ Hn) as [Ht|[Ht Hp]]; rewrite Ht; cbn [negb].
  - do 2 eexists. split; [reflexivity|]. left. auto.
  - rewrite (bind_inr _ _ _ _ _ _ (do_parse_run _ _)), Hp.
    do 2 eexists. split; [reflexivity|]. right. eauto.
Qed.

Lemma oauth_unsupported st response w c :
  fetch env url (oauth_first_request existingToken) (world st) = (inr response, w) ->
  Response.status response = 401 ->
  carries_challenge response c ->
  OAuthChallenge.signingScheme c <> "eip4361" ->
  OAuth.fetchWithOAuth env url signMessage address existingToken st
  = (inl (JsError ("Unsupported signing scheme: " ++ OAuthChallenge.signingScheme c)),
     moved st w,
     [EFetch url (oauth_first_request existingToken);
      EParse (string_value (www_authenticate response))]).
Proof.
  intros Hf Hs Hc Hne. apply carries_truthy in Hc as [Ht Hp].
  unfold OAuth.fetchWithOAuth. cbv zeta. fold (oauth_first_request existingToken).
  rewrite (bind_inr _ _ _ _ _ _ (do_fetch_run _ _ _ _ _ _ Hf)).
  rewrite Hs, Z.eqb_refl. fold (www_authenticate response).
  rewrite Ht. cbn [negb].
  rewrite (bind_inr _ _ _ _ _ _ (do_parse_run _ _)), Hp.
  apply String.eqb_neq in Hne. rewrite Hne. reflexivity.
Qed.

Lemma oauth_from_challenge st c st1 evs :
  oauth_challenged env url existingToken st c st1 evs ->
  OAuth.fetchWithOAuth env url signMessage address existingToken st
  = prepend evs
      (from_challenge (OAuth.fetchNonce env) (oauth_message env address url)
         (do_sign signMessage) (OAuth.exchangeToken env) (oauth_finish env url) c st1).
Proof.
  intros (response & ev1 & Hf & Hs & Hc & Hscheme & ->).
  apply carries_truthy in Hc as [Ht Hp].
  unfold OAuth.fetchWithOAuth. cbv zeta. fold (oauth_first_request existingToken).
  rewrite (bind_inr _ _ _ _ _ _ Hf).
  rewrite Hs, Z.eqb_refl.
  fold (www_authenticate response). rewrite Ht. cbn [negb].
  rewrite (bind_inr _ _ _ _ _ _ (do_parse_run _ _)).
  rewrite Hp, Hscheme. cbn [String.eqb Ascii.eqb Bool.eqb negb].
  now rewrite prepend_prepend.
Qed.

(** After the exchange [fetchWithOAuth] goes straight to the retry: no
    callback is there to be told, and the token reaches the caller only
    inside the result of a successful retry. *)
Lemma oauth_retry st c tokenResponse st5 evs a r w :
  oauth_exchanged env url signMessage address existingToken st c tokenResponse st5 evs ->
  get_prop tokenResponse "access_token" = inr a ->
  fetch env url (oauth_retry_request a) (world st5) = (r, w) ->
  OAuth.fetchWithOAuth env url signMessage address existingToken st
  = (match r with
     | inl e => inl e
     | inr response => oauth_outcome response a "Request failed after auth: "
     end,
     moved st5 w, evs ++ [EFetch url (oauth_retry_request a)])%list.
Proof.
  intros Hx Ha Hr.
  rewrite (run_exchanged _ _ _ _ _ _ _ _ (oauth_from_challenge st) _ _ _ _ Hx).
  unfold oauth_finish. unfold lift at 1. rewrite Ha.
  rewrite (bind_inr _ _ st5 a st5 []) by reflexivity.
  destruct r as [e|response].
  - rewrite (bind_inl _ _ _ _ _ _ (do_fetch_run _ _ _ _ _ _ Hr)). reflexivity.
  - rewrite (bind_inr _ _ _ _ _ _ (do_fetch_run _ _ _ _ _ _ Hr)).
    unfold oauth_outcome.
    destruct (Response.ok response); cbn [negb]; [|reflexivity].
    unfold bind, lift, ret, prepend.
    destruct (Response.json response); reflexivity.
Qed.

Lemma oauth_exchangeToken_events tokenUri message signature scope (st : State W) :
  exists r st',
    OAuth.exchangeToken env tokenUri message signature scope st
    = (r, st', [EFetch tokenUri (exchange_request env message signature scope)]).
Proof.
  unfold OAuth.exchangeToken. fold (exchange_request env message signature scope).
  destruct (fetch env tokenUri (exchange_request env message signature scope) (world st))
    as [[e|response] w] eqn:Hf.
  - rewrite (bind_inl _ _ _ _ _ _ (do_fetch_run _ _ _ _ _ _ Hf)). eauto.
  - rewrite (bind_inr _ _ _ _ _ _ (do_fetch_run _ _ _ _ _ _ Hf)).
    destruct (Response.ok response); cbn [negb].
    + unfold lift, prepend. eauto.
    + unfold bind, lift, throw, prepend.
      destruct (Response.json response) as [e|v];
        [|destruct (get_prop v "error")]; simpl; eauto.
Qed.

Lemma oauth_fetchNonce_events tokenUri (st : State W) :
  exists r st',
    OAuth.fetchNonce env tokenUri st
    = (r, st', [EFetch (replace "/token" "" tokenUri ++ "/nonce") no_init]).
Proof.
  unfold OAuth.fetchNonce. cbv zeta.
  destruct (fetch env (replace "/token" "" tokenUri ++ "/nonce") no_init (world st))
    as [[e|response] w] eqn:Hf.
  - rewrite (bind_inl _ _ _ _ _ _ (do_fetch_run _ _ _ _ _ _ Hf)). eauto.
  - rewrite (bind_inr _ _ _ _ _ _ (do_fetch_run _ _ _ _ _ _ Hf)).
    destruct (Response.ok response); cbn [negb].
    + unfold bind, lift, prepend.
      destruct (Response.json response) as [e|v]; [|destruct (get_prop v "nonce")];
        simpl; eauto.
    + unfold throw, prepend. eauto.
Qed.

Lemma oauth_buildSiweMessage_events nonce scope domain (st : State W) :
  url_host env url = inr domain ->
  exists r st',
    OAuth.buildSiweMessage env address nonce (split " " scope) url st
    = (r, st', [ECreateSiwe (siwe_params address CHAIN_ID domain nonce url scope)]).
Proof.
  intros Hh. unfold OAuth.buildSiweMessage, do_createSiweMessage.
  unfold lift at 1. rewrite Hh.
  rewrite (bind_inr _ _ st domain st []) by reflexivity. cbv zeta.
  fold (siwe_params address CHAIN_ID domain nonce url scope).
  unfold bind, log, call, prepend.
  destruct (createSiweMessage env _ (world st)) as [[e|m] w]; simpl; eauto.
Qed.

Lemma oauth_exchange_request st c siweMessage signature st4 evs :
  oauth_signed env url signMessage address existingToken st c siweMessage signature st4 evs ->
  exists r st' rest,
    OAuth.fetchWithOAuth env url signMessage address existingToken st
    = (r, st',
       (evs ++ [EFetch (OAuthChallenge.tokenUri c)
                  (exchange_request env siweMessage signature (OAuthChallenge.scope c))])
       ++ rest)%list.
Proof.
  intros Hs.
  rewrite (run_signed _ _ _ _ _ _ _ _ (oauth_from_challenge st) _ _ _ _ _ Hs).
  apply prepend_events. unfold from_signed.
  destruct (oauth_exchangeToken_events (OAuthChallenge.tokenUri c) siweMessage signature
              (OAuthChallenge.scope c) st4) as (r & st' & Hx).
  exact (bind_events _ _ _ _ _ _ Hx).
Qed.

Lemma oauth_siwe_params st c nonce st2 evs domain :
  oauth_nonce_fetched env url existingToken st c nonce st2 evs ->
  url_host env url = inr domain ->
  exists r st' rest,
    OAuth.fetchWithOAuth env url signMessage address existingToken st
    = (r, st',
       (evs ++ [ECreateSiwe
                  (siwe_params address (Num 1) domain nonce url (OAuthChallenge.scope c))])
       ++ rest)%list.
Proof.
  intros Hn Hh.
  rewrite (run_nonce_fetched _ _ _ _ _ _ _ _ (oauth_from_challenge st) _ _ _ _ Hn).
  apply prepend_events. unfold from_nonce, oauth_message.
  destruct (oauth_buildSiweMessage_events nonce (OAuthChallenge.scope c) domain st2 Hh)
    as (r & st' & Hb).
  exact (bind_events _ _ _ _ _ _ Hb).
Qed.
End OAuthProps.

(** * The flow, end to end *)

Lemma oauth_missing_header {W : Type} (env : Env W) url signMessage address
    existingToken (st : State W) response w :
  fetch env url (oauth_first_request existingToken) (world st) = (inr response, w) ->
  Response.status response = 401 ->
  www_authenticate response = None \/ www_authenticate response = Some EmptyString ->
  OAuth.fetchWithOAuth env url signMessage address existingToken st
  = (inl (JsError "Missing WWW-Authenticate header in 401 response"), moved st w,
     [EFetch url (oauth_first_request existingToken)]).
Proof.
  intros Hf Hs Hh. unfold OAuth.fetchWithOAuth. cbv zeta.
  fold (oauth_first_request existingToken).
  rewrite (bind_inr _ _ _ _ _ _ (do_fetch_run _ _ _ _ _ _ Hf)).
  rewrite Hs, Z.eqb_refl. fold (www_authenticate response).
  destruct Hh as [-> | ->]; reflexivity.
Qed.

Lemma oauth_unparseable_header {W : Type} (env : Env W) url signMessage address
    existingToken (st : State W) response w h :
  fetch env url (oauth_first_request existingToken) (world st) = (inr response, w) ->
  Response.status response = 401 ->
  www_authenticate response = Some h ->
  nonempty h = true ->
  parseWWWAuthenticateChallenge h = None ->
  OAuth.fetchWithOAuth env url signMessage address existingToken st
  = (inl (JsError "Failed to parse WWW-Authenticate challenge"), moved st w,
     [EFetch url (oauth_first_request existingToken); EParse h]).
Proof.
  intros Hf Hs Hh Hn Hp. unfold OAuth.fetchWithOAuth. cbv zeta.
  fold (oauth_first_request existingToken).
  rewrite (bind_inr _ _ _ _ _ _ (do_fetch_run _ _ _ _ _ _ Hf)).
  rewrite Hs, Z.eqb_refl. fold (www_authenticate response).
  rewrite Hh. change (string_value (Some h)) with h.
  change (truthy_string (Some h)) with (nonempty h). rewrite Hn. cbn [negb].
  rewrite (bind_inr _ _ _ _ _ _ (do_parse_run _ _)), Hp. reflexivity.
Qed.

(** C1, as the code has it.  A first answer with status 401 whose
    [WWW-Authenticate] header is absent, or present but unparseable:
    [AuthFetch.authFetch] and the function bound by [createAuthFetch] return
    that very response, without a throw, after the one request and at most a
    call of the parser.  [fetchWithOAuth] throws an [Error] instead, likewise
    without any nonce or token-exchange request:
    [Missing WWW-Authenticate header in 401 response] after the one request
    when the header is absent or empty, and
    [Failed to parse WWW-Authenticate challenge] after the request and the
    call of the parser when the header is there, not empty, and does not
    parse. *)
Theorem unchallenged_401_ends_the_flow {W : Type} (env : Env W) :
  (forall input init st response w,
     fetch env input (first_request init) (world st) = (inr response, w) ->
     Response.status response = 401 ->
     no_challenge response ->
     exists evs,
       AuthFetch.authFetch env input init st
       = (inr response, moved st w, EFetch input (first_request init) :: evs)
       /\ (evs = [] \/ exists h, evs = [EParse h]))
  /\ (forall options input init st response w,
        fetch env input (bound_first_request init (currentToken st)) (world st)
          = (inr response, w) ->
        Response.status response = 401 ->
        no_challenge response ->
        exists evs,
          Factory.authFetch_bound env options input init st
          = (inr response, moved st w,
             EFetch input (bound_first_request init (currentToken st)) :: evs)
          /\ (evs = [] \/ exists h, evs = [EParse h]))
  /\ (forall url signMessage address existingToken st response w,
        fetch env url (oauth_first_request existingToken) (world st) = (inr response, w) ->
        Response.status response = 401 ->
        (www_authenticate response = None
         \/ www_authenticate response = Some EmptyString ->
         OAuth.fetchWithOAuth env url signMessage address existingToken st
         = (inl (JsError "Missing WWW-Authenticate header in 401 response"),
            moved st w, [EFetch url (oauth_first_request existingToken)]))
        /\ (forall h,
              www_authenticate response = Some h ->
              nonempty h = true ->
              parseWWWAuthenticateChallenge h = None ->
              OAuth.fetchWithOAuth env url signMessage address existingToken st
              = (inl (JsError "Failed to parse WWW-Authenticate challenge"),
                 moved st w,
                 [EFetch url (oauth_first_request existingToken); EParse h]))).
Proof.
  split; [|split].
  - intros. now apply authFetch_no_challenge.
  - intros. now apply bound_no_challenge.
  - intros url signMessage address existingToken st response w Hf Hs. split.
    + intros Hh. eapply oauth_missing_header; eassumption.
    + intros h Hh Hn Hp. eapply oauth_unparseable_header; eassumption.
Qed.

Lemma unchallenged_401_ends_the_flow_witness :
  exists evs,
    AuthFetch.authFetch Scenario.env Scenario.resource Scenario.init
      (Scenario.start [inr Scenario.unauthorized])
    = (inr Scenario.unauthorized, moved (Scenario.start [inr Scenario.unauthorized]) [],
       EFetch Scenario.resource (first_request Scenario.init) :: evs)
    /\ (evs = [] \/ exists h, evs = [EParse h]).
Proof.
  exact (proj1 (unchallenged_401_ends_the_flow Scenario.env)
           Scenario.resource Scenario.init
           (Scenario.start [inr Scenario.unauthorized]) Scenario.unauthorized []
           eq_refl eq_refl (or_introl eq_refl)).
Defined.

(** C1 does not hold of [fetchWithOAuth]: a 401 without the header makes it
    throw. *)
Lemma fetchWithOAuth_throws_on_unchallenged_401 :
  OAuth.fetchWithOAuth Scenario.env Scenario.resource Scenario.signMessage
    (Options.address Scenario.options) None
    (Scenario.start [inr Scenario.unauthorized])
  = (inl (JsError "Missing WWW-Authenticate header in 401 response"),
     Scenario.start [], [EFetch Scenario.resource no_init])
  /\ Response.status Scenario.unauthorized = 401
  /\ www_authenticate Scenario.unauthorized = None.
Proof. repeat split. Qed.

(** C4, as the code has it.  A first answer whose status is not 401, whatever it
    is: [AuthFetch.authFetch] and the function bound by [createAuthFetch]
    return that very response, and the one request is all they asked of
    anyone (no parser, nonce, signer or exchange).  [fetchWithOAuth] also
    stops after the one request, but hands back the parsed body with the
    token it was given when the status is a success, and throws an [Error]
    when it is not. *)
Theorem non_401_ends_the_flow {W : Type} (env : Env W) :
  (forall input init st response w,
     fetch env input (first_request init) (world st) = (inr response, w) ->
     Response.status response <> 401 ->
     AuthFetch.authFetch env input init st
     = (inr response, moved st w, [EFetch input (first_request init)]))
  /\ (forall options input init st response w,
        fetch env input (bound_first_request init (currentToken st)) (world st)
          = (inr response, w) ->
        Response.status response <> 401 ->
        Factory.authFetch_bound env options input init st
        = (inr response, moved st w,
           [EFetch input (bound_first_request init (currentToken st))]))
  /\ (forall url signMessage address existingToken st response w,
        fetch env url (oauth_first_request existingToken) (world st) = (inr response, w) ->
        Response.status response <> 401 ->
        OAuth.fetchWithOAuth env url signMessage address existingToken st
        = (oauth_outcome response
             (JStr (if truthy_string existingToken then string_value existingToken
                    else EmptyString))
             "Request failed: ",
           moved st w, [EFetch url (oauth_first_request existingToken)])).
Proof.
  split; [|split].
  - intros. now apply authFetch_not_401.
  - intros. now apply bound_not_401.
  - intros. now apply oauth_not_401.
Qed.

Lemma non_401_ends_the_flow_witness :
  AuthFetch.authFetch Scenario.env Scenario.resource Scenario.init
    (Scenario.start [inr Scenario.forbidden])
  = (inr Scenario.forbidden, moved (Scenario.start [inr Scenario.forbidden]) [],
     [EFetch Scenario.resource (first_request Scenario.init)]).
Proof.
  refine (proj1 (non_401_ends_the_flow Scenario.env)
            Scenario.resource Scenario.init
            (Scenario.start [inr Scenario.forbidden]) Scenario.forbidden []
            eq_refl _).
  discriminate.
Defined.

(** C4 does not hold of [fetchWithOAuth]: a 403 makes it throw. *)
Lemma fetchWithOAuth_throws_on_403 :
  OAuth.fetchWithOAuth Scenario.env Scenario.resource Scenario.signMessage
    (Options.address Scenario.options) None
    (Scenario.start [inr Scenario.forbidden])
  = (inl (JsError "Request failed: 403"),
     Scenario.start [], [EFetch Scenario.resource no_init])
  /\ Response.status Scenario.forbidden = 403.
Proof. repeat split. Qed.

(** C6.  A challenge that parses and names a signing scheme other than
    [eip4361]: every implementation throws [Error("Unsupported signing
    scheme: ...")] right after parsing, having asked for no nonce, no
    signature and no token. *)
Theorem unsupported_scheme_fails_at_once {W : Type} (env : Env W) :
  (forall input init st response w c,
     fetch env input (first_request init) (world st) = (inr response, w) ->
     Response.status response = 401 ->
     carries_challenge response c ->
     OAuthChallenge.signingScheme c <> "eip4361" ->
     AuthFetch.authFetch env input init st
     = (inl (JsError ("Unsupported signing scheme: " ++ OAuthChallenge.signingScheme c)),
        moved st w,
        [EFetch input (first_request init);
         EParse (string_value (www_authenticate response))]))
  /\ (forall options input init st response w c,
        fetch env input (bound_first_request init (currentToken st)) (world st)
          = (inr response, w) ->
        Response.status response = 401 ->
        carries_challenge response c ->
        OAuthChallenge.signingScheme c <> "eip4361" ->
        Factory.authFetch_bound env options input init st
        = (inl (JsError ("Unsupported signing scheme: " ++ OAuthChallenge.signingScheme c)),
           moved st w,
           [EFetch input (bound_first_request init (currentToken st));
            EParse (string_value (www_authenticate response))]))
  /\ (forall url signMessage address existingToken st response w c,
        fetch env url (oauth_first_request existingToken) (world st) = (inr response, w) ->
        Response.status response = 401 ->
        carries_challenge response c ->
        OAuthChallenge.signingScheme c <> "eip4361" ->
        OAuth.fetchWithOAuth env url signMessage address existingToken st
        = (inl (JsError ("Unsupported signing scheme: " ++ OAuthChallenge.signingScheme c)),
           moved st w,
           [EFetch url (oauth_first_request existingToken);
            EParse (string_value (www_authenticate response))])).
Proof.
  split; [|split].
  - intros. now apply authFetch_unsupported.
  - intros. now apply bound_unsupported.
  - intros. now apply oauth_unsupported.
Qed.

Lemma unsupported_scheme_fails_at_once_witness :
  AuthFetch.authFetch Scenario.env Scenario.resource Scenario.init
    (Scenario.start [Scenario.challenge_response Scenario.unknown_scheme_text])
  = (inl (JsError "Unsupported signing scheme: unknownscheme"),
     Scenario.start [],
     [EFetch Scenario.resource no_init; EParse Scenario.unknown_scheme_text]).
Proof.
  refine (proj1 (unsupported_scheme_fails_at_once Scenario.env)
            Scenario.resource Scenario.init
            (Scenario.start [Scenario.challenge_response Scenario.unknown_scheme_text])
            _ [] Scenario.unknown_scheme_challenge eq_refl eq_refl _ _).
  - exists Scenario.unknown_scheme_text. split; [reflexivity|]. vm_compute. reflexivity.
  - discriminate.
Defined.

(** ** The scripted network at work *)

Lemma scenario_nonce_fetched :
  authFetch_nonce_fetched Scenario.env Scenario.resource Scenario.init
    (Scenario.start Scenario.refused_after_auth) Scenario.challenge
    (JStr "N1abcdefg")
    (Scenario.start [Scenario.token_response; inr Scenario.forbidden])
    (Scenario.events_to_nonce Scenario.challenge_text).
Proof.
  unfold authFetch_nonce_fetched, nonce_fetched, challenged.
  eexists _, _, _. split.
  { eexists _, _. split; [reflexivity|].
    split; [reflexivity|]. split; [|split; reflexivity].
    exists Scenario.challenge_text. split; [reflexivity|]. vm_compute. reflexivity. }
  split; reflexivity.
Qed.

Lemma scenario_signed :
  authFetch_signed Scenario.env Scenario.resource Scenario.init
    (Scenario.start Scenario.refused_after_auth) Scenario.challenge
    Scenario.siwe_text "0x5164"
    (Scenario.start [Scenario.token_response; inr Scenario.forbidden])
    Scenario.events_to_signature.
Proof.
  unfold authFetch_signed, signed.
  eexists _, _, _, _, _, _. split; [exact scenario_nonce_fetched|].
  split; [reflexivity|]. split; reflexivity.
Qed.

Lemma scenario_exchanged :
  authFetch_exchanged Scenario.env Scenario.resource Scenario.init
    (Scenario.start Scenario.refused_after_auth) Scenario.challenge
    Scenario.token_json (Scenario.start [inr Scenario.forbidden])
    Scenario.events_to_exchange.
Proof.
  unfold authFetch_exchanged, exchanged.
  eexists _, _, _, _, _. split; [exact scenario_signed|].
  split; reflexivity.
Qed.

(** C2, as the code has it.  Once the token exchange has succeeded and its answer
    lets [access_token] and [scope] be read: [AuthFetch.authFetch] and the
    function bound by [createAuthFetch], given a callback, invoke it with
    those two values straight after the exchange and before the retry is
    sent, and the retry follows whatever the network then answers; should
    the callback throw, it has still been invoked and no retry is sent.
    [fetchWithOAuth] has no such callback: after the exchange it only sends
    the retry, and the token reaches its caller in the result of a
    successful retry alone. *)
Theorem token_callback_precedes_retry {W : Type} (env : Env W) :
  (forall input init st c tokenResponse st5 evs cb a s,
     authFetch_exchanged env input init st c tokenResponse st5 evs ->
     Options.onToken (AuthRequestInit.options init) = Some cb ->
     get_prop tokenResponse "access_token" = inr a ->
     get_prop tokenResponse "scope" = inr s ->
     (forall w r2 w',
        cb a s (world st5) = (inr tt, w) ->
        fetch env input (retry_request (AuthRequestInit.fetchInit init) a) w = (r2, w') ->
        AuthFetch.authFetch env input init st
        = (r2, moved st5 w',
           evs ++ [EOnToken a s;
                   EFetch input (retry_request (AuthRequestInit.fetchInit init) a)])%list)
     /\ (forall e w,
           cb a s (world st5) = (inl e, w) ->
           AuthFetch.authFetch env input init st
           = (inl e, moved st5 w, evs ++ [EOnToken a s])%list))
  /\ (forall options input init st c tokenResponse st5 evs cb a s,
        bound_exchanged env options input init st c tokenResponse st5 evs ->
        Options.onToken options = Some cb ->
        get_prop tokenResponse "access_token" = inr a ->
        get_prop tokenResponse "scope" = inr s ->
        (forall w r2 w',
           cb a s (world st5) = (inr tt, w) ->
           fetch env input (bound_retry_request init a) w = (r2, w') ->
           Factory.authFetch_bound env options input init st
           = (r2, {| world := w'; currentToken := a |},
              evs ++ [EOnToken a s; EFetch input (bound_retry_request init a)])%list)
        /\ (forall e w,
              cb a s (world st5) = (inl e, w) ->
              Factory.authFetch_bound env options input init st
              = (inl e, {| world := w; currentToken := a |},
                 evs ++ [EOnToken a s])%list))
  /\ (forall url signMessage address existingToken st c tokenResponse st5 evs a r w,
        oauth_exchanged env url signMessage address existingToken st c
          tokenResponse st5 evs ->
        get_prop tokenResponse "access_token" = inr a ->
        fetch env url (oauth_retry_request a) (world st5) = (r, w) ->
        OAuth.fetchWithOAuth env url signMessage address existingToken st
        = (match r with
           | inl e => inl e
           | inr response => oauth_outcome response a "Request failed after auth: "
           end,
           moved st5 w, evs ++ [EFetch url (oauth_retry_request a)])%list).
Proof.
  split; [|split].
  - intros. eapply authFetch_notifies; eassumption.
  - intros. eapply bound_notifies; eassumption.
  - intros. eapply oauth_retry; eassumption.
Qed.

Lemma token_callback_precedes_retry_witness :
  AuthFetch.authFetch Scenario.env Scenario.resource Scenario.init
    (Scenario.start Scenario.refused_after_auth)
  = (inr Scenario.forbidden, Scenario.start [],
     Scenario.events_to_exchange
     ++ [EOnToken (JStr "T1") (JStr "a b");
         EFetch Scenario.resource (retry_request no_init (JStr "T1"))])%list.
Proof.
  exact (proj1 (proj1 (token_callback_precedes_retry Scenario.env)
                  Scenario.resource Scenario.init
                  (Scenario.start Scenario.refused_after_auth) Scenario.challenge
                  Scenario.token_json (Scenario.start [inr Scenario.forbidden])
                  Scenario.events_to_exchange Scenario.keep_token
                  (JStr "T1") (JStr "a b")
                  scenario_exchanged eq_refl eq_refl eq_refl)
           [inr Scenario.forbidden] (inr Scenario.forbidden) [] eq_refl eq_refl).
Defined.

(** C2 does not hold of [fetchWithOAuth]: the exchange succeeds, no callback
    is told of the token, and with the retry refused the token is lost to
    the caller. *)
Lemma fetchWithOAuth_has_no_token_callback :
  let run :=
    OAuth.fetchWithOAuth Scenario.env Scenario.resource Scenario.signMessage
      (Options.address Scenario.options) None
      (Scenario.start Scenario.refused_after_auth) in
  run = (inl (JsError "Request failed after auth: 403"), Scenario.start [],
         Scenario.events_to_exchange
         ++ [EFetch Scenario.resource (oauth_retry_request (JStr "T1"))])%list
  /\ forall token scope, ~ In (EOnToken token scope) (snd run).
Proof.
  split; [reflexivity|].
  intros token scope H. vm_compute in H.
  repeat (destruct H as [H|H]; [discriminate|]). exact H.
Qed.

(** C3, as the code has it.  Once the token exchange has succeeded and the callback,
    if any, has returned: the answer to the retried request is the result of
    [AuthFetch.authFetch] and of the function bound by [createAuthFetch],
    whatever its status.  [fetchWithOAuth] returns the parsed body and the
    token when that answer is a success, and throws [Error("Request failed
    after auth: ...")] when it is not. *)
Theorem retry_response_is_the_result {W : Type} (env : Env W) :
  (forall input init st c tokenResponse st5 evs st6 ev6 a response w,
     authFetch_exchanged env input init st c tokenResponse st5 evs ->
     do_onToken (Options.onToken (AuthRequestInit.options init)) tokenResponse st5
       = (inr tt, st6, ev6) ->
     get_prop tokenResponse "access_token" = inr a ->
     fetch env input (retry_request (AuthRequestInit.fetchInit init) a) (world st6)
       = (inr response, w) ->
     AuthFetch.authFetch env input init st
     = (inr response, moved st6 w,
        evs ++ ev6
        ++ [EFetch input (retry_request (AuthRequestInit.fetchInit init) a)])%list)
  /\ (forall options input init st c tokenResponse st5 evs st6 ev6 a response w,
        bound_exchanged env options input init st c tokenResponse st5 evs ->
        get_prop tokenResponse "access_token" = inr a ->
        do_onToken (Options.onToken options) tokenResponse (with_token st5 a)
          = (inr tt, st6, ev6) ->
        fetch env input (bound_retry_request init a) (world st6) = (inr response, w) ->
        Factory.authFetch_bound env options input init st
        = (inr response, {| world := w; currentToken := a |},
           evs ++ ev6 ++ [EFetch input (bound_retry_request init a)])%list)
  /\ (forall url signMessage address existingToken st c tokenResponse st5 evs
             a response w,
        oauth_exchanged env url signMessage address existingToken st c
          tokenResponse st5 evs ->
        get_prop tokenResponse "access_token" = inr a ->
        fetch env url (oauth_retry_request a) (world st5) = (inr response, w) ->
        OAuth.fetchWithOAuth env url signMessage address existingToken st
        = (oauth_outcome response a "Request failed after auth: ",
           moved st5 w, evs ++ [EFetch url (oauth_retry_request a)])%list).
Proof.
  split; [|split].
  - intros. eapply authFetch_returns_retry; eassumption.
  - intros. eapply bound_returns_retry; eassumption.
  - intros until w. intros Hx Ha Hr. exact (oauth_retry _ _ _ _ _ _ _ _ _ _ _ _ _ Hx Ha Hr).
Qed.

Lemma retry_response_is_the_result_witness :
  AuthFetch.authFetch Scenario.env Scenario.resource Scenario.init
    (Scenario.start Scenario.refused_after_auth)
  = (inr Scenario.forbidden, Scenario.start [],
     Scenario.events_to_exchange
     ++ [EOnToken (JStr "T1") (JStr "a b")]
     ++ [EFetch Scenario.resource (retry_request no_init (JStr "T1"))])%list.
Proof.
  exact (proj1 (retry_response_is_the_result Scenario.env)
           Scenario.resource Scenario.init
           (Scenario.start Scenario.refused_after_auth) Scenario.challenge
           Scenario.token_json (Scenario.start [inr Scenario.forbidden])
           Scenario.events_to_exchange
           (Scenario.start [inr Scenario.forbidden])
           [EOnToken (JStr "T1") (JStr "a b")] (JStr "T1") Scenario.forbidden []
           scenario_exchanged eq_refl eq_refl eq_refl).
Defined.

(** C3 does not hold of [fetchWithOAuth]: the retry completes with status
    403 and the call throws instead of returning that answer. *)
Lemma fetchWithOAuth_throws_on_refused_retry :
  fst (fst (OAuth.fetchWithOAuth Scenario.env Scenario.resource Scenario.signMessage
              (Options.address Scenario.options) None
              (Scenario.start Scenario.refused_after_auth)))
  = inl (JsError "Request failed after auth: 403")
  /\ Scenario.fetch Scenario.resource (oauth_retry_request (JStr "T1"))
       [inr Scenario.forbidden]
     = (inr Scenario.forbidden, []).
Proof. split; reflexivity. Qed.

Lemma index_of_le pat pre post :
  exists n, index_of pat (pre ++ pat ++ post) = Some n /\ (n <= String.length pre)%nat.
Proof.
  induction pre as [|c pre (n & Hn & Hle)].
  - exists O. split; [|simpl; lia]. cbn [String.append].
    destruct (pat ++ post) eqn:E; simpl; rewrite <- E, is_prefix_app; reflexivity.
  - cbn [String.append index_of].
    destruct (is_prefix pat (String c (pre ++ pat ++ post))).
    + exists O. split; [reflexivity|lia].
    + exists (S n). rewrite Hn. split; [reflexivity|simpl; lia].
Qed.

(** The first occurrence, found by computation. *)
Lemma first_occurrence_index pat s pre post :
  s = pre ++ pat ++ post ->
  index_of pat s = Some (String.length pre) ->
  first_occurrence pat s pre post.
Proof.
  intros Hs Hi. split; [assumption|].
  intros pre' post' H'.
  destruct (index_of_le pat pre' post') as (n & Hn & Hle).
  rewrite <- H', Hi in Hn. injection Hn as <-. assumption.
Qed.

(** C5, as the code has it.  [fetchNonce] of [siwe-auth-fetch] (both versions share
    it) sends its request, without any check beforehand, to the token URI
    with the first [/token] replaced by [/nonce], and to the token URI
    itself when [/token] does not occur in it.  [fetchNonce] of [oauth.ts]
    removes the first [/token] and appends [/nonce]: the same address when
    the first [/token] ends the URI, and the URI followed by [/nonce] when
    [/token] does not occur. *)
Theorem nonce_endpoint_derivation {W : Type} (env : Env W) :
  (forall tokenUri st,
     exists nonceUrl r st',
       AuthFetch.fetchNonce env tokenUri st = (r, st', [EFetch nonceUrl no_init])
       /\ (forall pre post,
             first_occurrence "/token" tokenUri pre post ->
             nonceUrl = pre ++ "/nonce" ++ post)
       /\ (~ occurs_in "/token" tokenUri -> nonceUrl = tokenUri))
  /\ (forall tokenUri st,
        exists nonceUrl r st',
          OAuth.fetchNonce env tokenUri st = (r, st', [EFetch nonceUrl no_init])
          /\ (forall pre post,
                first_occurrence "/token" tokenUri pre post ->
                nonceUrl = pre ++ post ++ "/nonce")
          /\ (forall pre,
                first_occurrence "/token" tokenUri pre EmptyString ->
                nonceUrl = pre ++ "/nonce")
          /\ (~ occurs_in "/token" tokenUri -> nonceUrl = tokenUri ++ "/nonce")).
Proof.
  split.
  - intros tokenUri st.
    destruct (fetchNonce_events env tokenUri st) as (r & st' & H).
    exists (replace "/token" "/nonce" tokenUri), r, st'.
    split; [assumption|]. split.
    + intros pre post Hf. now apply replace_first_occurrence.
    + intros Hn. now apply replace_absent.
  - intros tokenUri st.
    destruct (oauth_fetchNonce_events env tokenUri st) as (r & st' & H).
    exists (replace "/token" "" tokenUri ++ "/nonce"), r, st'.
    split; [assumption|]. repeat split.
    + intros pre post Hf.
      rewrite (replace_first_occurrence _ "" _ _ _ Hf). cbn [String.append].
      now rewrite append_assoc.
    + intros pre Hf.
      rewrite (replace_first_occurrence _ "" _ _ _ Hf). cbn [String.append].
      now rewrite append_nil_r.
    + intros Hn. now rewrite replace_absent.
Qed.

Lemma nonce_endpoint_derivation_witness :
  exists nonceUrl r st',
    AuthFetch.fetchNonce Scenario.env "https://api.example.com/api/auth/token"
      (Scenario.start [Scenario.nonce_response])
    = (r, st', [EFetch nonceUrl no_init])
    /\ nonceUrl = "https://api.example.com/api/auth" ++ "/nonce" ++ "".
Proof.
  destruct (proj1 (nonce_endpoint_derivation Scenario.env)
              "https://api.example.com/api/auth/token"
              (Scenario.start [Scenario.nonce_response]))
    as (nonceUrl & r & st' & Hrun & Hfirst & _).
  exists nonceUrl, r, st'. split; [exact Hrun|].
  apply Hfirst. apply first_occurrence_index; reflexivity.
Defined.

(** C5 does not hold of [fetchNonce] in [oauth.ts]: a token URI without
    [/token] is not used unchanged, and a [/token] that does not end the URI
    is not replaced in place. *)
Lemma oauth_fetchNonce_is_not_a_replacement :
  (contains "/token" "https://api.example.com/oauth" = false
   /\ snd (OAuth.fetchNonce Scenario.env "https://api.example.com/oauth"
             (Scenario.start [Scenario.nonce_response]))
      = [EFetch "https://api.example.com/oauth/nonce" no_init])
  /\ snd (OAuth.fetchNonce Scenario.env "https://api.example.com/token/v2"
            (Scenario.start [Scenario.nonce_response]))
     = [EFetch "https://api.example.com/v2/nonce" no_init].
Proof. repeat split. Qed.

Lemma challenge_requires_realm_scope_token_uri_witness :
  parseWWWAuthenticateChallenge
    ("Bearer, " ++ pair_text "realm" "kv-profile" ++ ", "
     ++ pair_text "token_uri" "https://api.example.com/api/auth/token")
  = None.
Proof.
  refine (proj1 (proj2 (challenge_requires_realm_scope_token_uri _)) "scope" _ _).
  - right. left. reflexivity.
  - intros [v H]. vm_compute in H.
    repeat (destruct H as [H|H]; [discriminate|]). exact H.
Defined.

Lemma last_duplicate_key_wins_witness :
  exists c,
    parseWWWAuthenticateChallenge Scenario.repeated_keys_text = Some c
    /\ OAuthChallenge.realm c = "second"
    /\ OAuthChallenge.scope c = "b c"
    /\ OAuthChallenge.tokenUri c = "https://api.example.com/api/auth/token".
Proof.
  assert (Hm : matchAll Scenario.repeated_keys_text
               = [("realm", "first"); ("scope", "a");
                  ("token_uri", "https://api.example.com/api/auth/token");
                  ("realm", "second"); ("scope", "b c")])
    by (vm_compute; reflexivity).
  assert (Hno : forall k (ms : list (string * string)),
            last_value k ms = None -> forall v', ~ In (k, v') ms)
    by (intros k ms; apply last_value_None).
  destruct (proj1 (proj2 (proj2 last_duplicate_key_wins))
              Scenario.repeated_keys_text "second" "b c"
              "https://api.example.com/api/auth/token")
    as (c & Hc & Hr & Hs & Ht & _).
  - rewrite Hm.
    exists [("realm", "first"); ("scope", "a");
            ("token_uri", "https://api.example.com/api/auth/token")],
           [("scope", "b c")].
    split; [reflexivity|]. now apply Hno.
  - rewrite Hm.
    exists [("realm", "first"); ("scope", "a");
            ("token_uri", "https://api.example.com/api/auth/token");
            ("realm", "second")], [].
    split; [reflexivity|]. now apply Hno.
  - rewrite Hm.
    exists [("realm", "first"); ("scope", "a")], [("realm", "second"); ("scope", "b c")].
    split; [reflexivity|]. now apply Hno.
  - exists c. auto.
Defined.

(** The documented header parses; a key glued to a longer word is another
    key, and an empty value is no pair at all. *)
Example parse_examples :
  parseWWWAuthenticateChallenge Scenario.challenge_text = Some Scenario.challenge
  /\ parseWWWAuthenticateChallenge
       ("Bearer, x" ++ pair_text "realm" "kv" ++ ", " ++ pair_text "scope" "a" ++ ", "
        ++ pair_text "token_uri" "https://api.example.com/api/auth/token")
     = None
  /\ matchAll (pair_text "realm" "" ++ pair_text "scope" "a") = [("scope", "a")].
Proof. repeat split; vm_compute; reflexivity. Qed.

(** A [chain_id] that is no number parses to [NaN], and ["0"] to zero. *)
Example chain_id_not_a_number :
  (OAuthChallenge.chainId <$>
     parseWWWAuthenticateChallenge
       (Scenario.challenge_text ++ ", " ++ pair_text "chain_id" "mainnet"))
  = Some NaN
  /\ parseWWWAuthenticateChallenge Scenario.chain_zero_text
     = Some Scenario.chain_zero_challenge.
Proof. split; vm_compute; reflexivity. Qed.

(** C9.  The scope string of the challenge goes unsplit into the [scope]
    field of the token-exchange body, and the [resources] of the SIWE message
    are that string split at every single space and prefixed, piece by piece
    and in order, with [urn:oauth:scope:]; the pieces joined by spaces give
    the string back and none holds a space, so repeated spaces leave empty
    pieces and nothing is trimmed or dropped.  In each implementation the
    message built after the nonce and the request sent after the signature
    are these. *)
Theorem scope_verbatim_and_split_resources {W : Type} (env : Env W) :
  (forall message signature scope,
     exchange_request env message signature scope
     = {| RequestInit.method := Some "POST";
          RequestInit.headers := [("Content-Type", "application/json")];
          RequestInit.body :=
            Some (JSON_stringify env
                    (JObj [("grant_type", JStr "eth_signature");
                           ("message", JStr message);
                           ("signature", JStr signature);
                           ("scope", JStr scope)]));
          RequestInit.other := [] |})
  /\ (forall address chainId domain nonce uri scope,
        Siwe.resources (siwe_params address chainId domain nonce uri scope)
        = map (fun s => "urn:oauth:scope:" ++ s) (split " " scope))
  /\ (forall scope,
        join " " (split " " scope) = scope
        /\ Forall (fun piece => all_chars (fun c => negb (Ascii.eqb c " ")) piece = true)
             (split " " scope))
  /\ (forall input init st c siweMessage signature st4 evs,
        authFetch_signed env input init st c siweMessage signature st4 evs ->
        exists r st' rest,
          AuthFetch.authFetch env input init st
          = (r, st',
             (evs ++ [EFetch (OAuthChallenge.tokenUri c)
                        (exchange_request env siweMessage signature
                           (OAuthChallenge.scope c))])
             ++ rest)%list)
  /\ (forall input init st c nonce st2 evs domain,
        authFetch_nonce_fetched env input init st c nonce st2 evs ->
        url_host env input = inr domain ->
        exists r st' rest,
          AuthFetch.authFetch env input init st
          = (r, st',
             (evs ++ [ECreateSiwe
                        (siwe_params (Options.address (AuthRequestInit.options init))
                           (chain_for c (Options.chainId (AuthRequestInit.options init)))
                           domain nonce input (OAuthChallenge.scope c))])
             ++ rest)%list)
  /\ (forall options input init st c siweMessage signature st4 evs,
        bound_signed env options input init st c siweMessage signature st4 evs ->
        exists r st' rest,
          Factory.authFetch_bound env options input init st
          = (r, st',
             (evs ++ [EFetch (OAuthChallenge.tokenUri c)
                        (exchange_request env siweMessage signature
                           (OAuthChallenge.scope c))])
             ++ rest)%list)
  /\ (forall options input init st c nonce st2 evs domain,
        bound_nonce_fetched env input init st c nonce st2 evs ->
        url_host env input = inr domain ->
        exists r st' rest,
          Factory.authFetch_bound env options input init st
          = (r, st',
             (evs ++ [ECreateSiwe
                        (siwe_params (Options.address options)
                           (chain_for c (Options.chainId options))
                           domain nonce input (OAuthChallenge.scope c))])
             ++ rest)%list)
  /\ (forall url signMessage address existingToken st c siweMessage signature st4 evs,
        oauth_signed env url signMessage address existingToken st c
          siweMessage signature st4 evs ->
        exists r st' rest,
          OAuth.fetchWithOAuth env url signMessage address existingToken st
          = (r, st',
             (evs ++ [EFetch (OAuthChallenge.tokenUri c)
                        (exchange_request env siweMessage signature
                           (OAuthChallenge.scope c))])
             ++ rest)%list)
  /\ (forall url signMessage address existingToken st c nonce st2 evs domain,
        oauth_nonce_fetched env url existingToken st c nonce st2 evs ->
        url_host env url = inr domain ->
        exists r st' rest,
          OAuth.fetchWithOAuth env url signMessage address existingToken st
          = (r, st',
             (evs ++ [ECreateSiwe
                        (siwe_params address (Num 1) domain nonce url
                           (OAuthChallenge.scope c))])
             ++ rest)%list).
Proof.
  split; [reflexivity|]. split; [reflexivity|].
  split; [intros scope; split; [apply (join_split " ")|apply split_pieces]|].
  split; [intros; eapply authFetch_exchange_request; eassumption|].
  split; [intros; eapply authFetch_siwe_params; eassumption|].
  split; [intros; eapply bound_exchange_request; eassumption|].
  split; [intros; eapply bound_siwe_params; eassumption|].
  split; [intros; eapply oauth_exchange_request; eassumption|].
  intros; eapply oauth_siwe_params; eassumption.
Qed.

Lemma scope_verbatim_and_split_resources_witness :
  (exists r st' rest,
     AuthFetch.authFetch Scenario.env Scenario.resource Scenario.init
       (Scenario.start Scenario.refused_after_auth)
     = (r, st',
        (Scenario.events_to_signature
         ++ [EFetch "https://api.example.com/api/auth/token"
               (exchange_request Scenario.env Scenario.siwe_text "0x5164" "a b")])
        ++ rest)%list)
  /\ (exists r st' rest,
        AuthFetch.authFetch Scenario.env Scenario.resource Scenario.init
          (Scenario.start Scenario.refused_after_auth)
        = (r, st',
           (Scenario.events_to_nonce Scenario.challenge_text
            ++ [ECreateSiwe
                  (siwe_params (Options.address Scenario.options) (Num 1)
                     "api.example.com" (JStr "N1abcdefg") Scenario.resource "a b")])
           ++ rest)%list).
Proof.
  pose proof (scope_verbatim_and_split_resources Scenario.env)
    as (_ & _ & _ & Hx & Hm & _).
  split.
  - exact (Hx _ _ _ _ _ _ _ _ scenario_signed).
  - exact (Hm _ _ _ _ _ _ _ "api.example.com" scenario_nonce_fetched eq_refl).
Defined.

(** Repeated spaces are kept as empty scopes. *)
Example resources_of_repeated_spaces :
  Siwe.resources (siwe_params "0x0" (Num 1) "h" (JStr "n") "https://h/" "a  b")
  = ["urn:oauth:scope:a"; "urn:oauth:scope:"; "urn:oauth:scope:b"].
Proof. reflexivity. Qed.

Lemma scenario_chain_zero_nonce_fetched :
  authFetch_nonce_fetched Scenario.env Scenario.resource Scenario.init_chain_5
    (Scenario.start [Scenario.challenge_response Scenario.chain_zero_text;
                     Scenario.nonce_response])
    Scenario.chain_zero_challenge (JStr "N1abcdefg") (Scenario.start [])
    (Scenario.events_to_nonce Scenario.chain_zero_text).
Proof.
  unfold authFetch_nonce_fetched, nonce_fetched, challenged.
  eexists _, _, _. split.
  { eexists _, _. split; [reflexivity|].
    split; [reflexivity|]. split; [|split; reflexivity].
    exists Scenario.chain_zero_text. split; [reflexivity|]. vm_compute. reflexivity. }
  split; reflexivity.
Qed.

(** C10.  When the chain id of the parsed challenge is zero or [NaN],
    [AuthFetch.authFetch] and the function bound by [createAuthFetch] build
    the SIWE message with the caller's [chainId] option, 1 when the caller
    gives none; [fetchWithOAuth] builds it with chain id 1 whatever the
    challenge and the caller say. *)
Theorem chain_id_of_the_siwe_message {W : Type} (env : Env W) :
  (forall input init st c nonce st2 evs domain,
     authFetch_nonce_fetched env input init st c nonce st2 evs ->
     url_host env input = inr domain ->
     OAuthChallenge.chainId c = Num 0 \/ OAuthChallenge.chainId c = NaN ->
     exists r st' rest,
       AuthFetch.authFetch env input init st
       = (r, st',
          (evs ++ [ECreateSiwe
                     (siwe_params (Options.address (AuthRequestInit.options init))
                        (default (Num 1) (Options.chainId (AuthRequestInit.options init)))
                        domain nonce input (OAuthChallenge.scope c))])
          ++ rest)%list)
  /\ (forall options input init st c nonce st2 evs domain,
        bound_nonce_fetched env input init st c nonce st2 evs ->
        url_host env input = inr domain ->
        OAuthChallenge.chainId c = Num 0 \/ OAuthChallenge.chainId c = NaN ->
        exists r st' rest,
          Factory.authFetch_bound env options input init st
          = (r, st',
             (evs ++ [ECreateSiwe
                        (siwe_params (Options.address options)
                           (default (Num 1) (Options.chainId options))
                           domain nonce input (OAuthChallenge.scope c))])
             ++ rest)%list)
  /\ (forall url signMessage address existingToken st c nonce st2 evs domain,
        oauth_nonce_fetched env url existingToken st c nonce st2 evs ->
        url_host env url = inr domain ->
        exists r st' rest,
          OAuth.fetchWithOAuth env url signMessage address existingToken st
          = (r, st',
             (evs ++ [ECreateSiwe
                        (siwe_params address (Num 1) domain nonce url
                           (OAuthChallenge.scope c))])
             ++ rest)%list).
Proof.
  assert (Hchain : forall c chainId,
            OAuthChallenge.chainId c = Num 0 \/ OAuthChallenge.chainId c = NaN ->
            chain_for c chainId = default (Num 1) chainId).
  { intros c chainId [H|H]; unfold chain_for; now rewrite H. }
  split; [|split].
  - intros input init st c nonce st2 evs domain Hn Hh Hc.
    rewrite <- (Hchain c _ Hc). eapply authFetch_siwe_params; eassumption.
  - intros options input init st c nonce st2 evs domain Hn Hh Hc.
    rewrite <- (Hchain c _ Hc). eapply bound_siwe_params; eassumption.
  - intros. eapply oauth_siwe_params; eassumption.
Qed.

Lemma chain_id_of_the_siwe_message_witness :
  exists r st' rest,
    AuthFetch.authFetch Scenario.env Scenario.resource Scenario.init_chain_5
      (Scenario.start [Scenario.challenge_response Scenario.chain_zero_text;
                       Scenario.nonce_response])
    = (r, st',
       (Scenario.events_to_nonce Scenario.chain_zero_text
        ++ [ECreateSiwe
              (siwe_params (Options.address Scenario.options) (Num 5)
                 "api.example.com" (JStr "N1abcdefg") Scenario.resource "a b")])
       ++ rest)%list.
Proof.
  exact (proj1 (chain_id_of_the_siwe_message Scenario.env)
           _ _ _ _ _ _ _ "api.example.com"
           scenario_chain_zero_nonce_fetched eq_refl (or_introl eq_refl)).
Defined.

(** * Further properties *)

(** ** The parser *)

Lemma last_value_app k (a b : list (string * string)) :
  last_value k (a ++ b) =
  match last_value k b with Some v => Some v | None => last_value k a end.
Proof.
  induction a as [|[k' v'] a IH]; simpl.
  - now destruct (last_value k b).
  - rewrite IH. destruct (last_value k b); [reflexivity|].
    now destruct (last_value k a).
Qed.

Lemma last_value_unmatched k header :
  ~ matched k header -> last_value k (matchAll header) = None.
Proof.
  intros H. destruct (last_value k (matchAll header)) eqn:E; [|reflexivity].
  exfalso. apply H, matched_last_value. eauto.
Qed.

(** X1.  Defaults: a challenge whose header has no [chain_id] pair gets
    chain id 1, and one without a [signing_scheme] pair gets the scheme
    [eip4361]. *)
Theorem challenge_defaults (header : string) (c : OAuthChallenge.t) :
  parseWWWAuthenticateChallenge header = Some c ->
  (~ matched "chain_id" header -> OAuthChallenge.chainId c = Num 1)
  /\ (~ matched "signing_scheme" header ->
      OAuthChallenge.signingScheme c = "eip4361").
Proof.
  intros Hc. rewrite parse_last_values in Hc. cbv zeta in Hc.
  destruct (last_value "realm" (matchAll header)); [|discriminate].
  destruct (last_value "scope" (matchAll header)); [|discriminate].
  destruct (last_value "token_uri" (matchAll header)); [|discriminate].
  injection Hc as <-. simpl. split; intros H.
  - now rewrite (last_value_unmatched _ _ H).
  - now rewrite (last_value_unmatched _ _ H).
Qed.

Lemma challenge_defaults_witness :
  OAuthChallenge.chainId Scenario.challenge = Num 1
  /\ OAuthChallenge.signingScheme Scenario.challenge = "eip4361".
Proof.
  assert (Hc : parseWWWAuthenticateChallenge Scenario.challenge_text
               = Some Scenario.challenge) by (vm_compute; reflexivity).
  assert (Hn : forall k, k = "chain_id" \/ k = "signing_scheme" ->
                 ~ matched k Scenario.challenge_text).
  { intros k Hk [v H]. vm_compute in H.
    destruct Hk as [-> | ->];
      repeat (destruct H as [H|H]; [discriminate|]); exact H. }
  destruct (challenge_defaults _ _ Hc) as [H1 H2].
  split; [apply H1|apply H2]; apply Hn; auto.
Defined.

Lemma parse_by_last_values h1 h2 :
  (forall k, In k recognized_keys ->
     last_value k (matchAll h1) = last_value k (matchAll h2)) ->
  parseWWWAuthenticateChallenge h1 = parseWWWAuthenticateChallenge h2.
Proof.
  intros H. rewrite !parse_last_values. cbv zeta.
  rewrite (H "realm"), (H "scope"), (H "token_uri"), (H "chain_id"),
    (H "signing_scheme") by (simpl; tauto).
  reflexivity.
Qed.

(** X2.  Unrecognized keys are ignored: in a header of the documented shape
    a pair whose key is none of the five the parser reads can be taken out,
    wherever it stands, without changing the result. *)
Theorem unrecognized_keys_are_ignored
    (kvs1 kvs2 : list (string * string)) (k v : string) :
  ~ In k recognized_keys ->
  Forall (fun kv => well_formed_pair kv.1 kv.2) (kvs1 ++ (k, v) :: kvs2) ->
  parseWWWAuthenticateChallenge (render_challenge (kvs1 ++ (k, v) :: kvs2))
  = parseWWWAuthenticateChallenge (render_challenge (kvs1 ++ kvs2)).
Proof.
  intros Hk Hwf. apply parse_by_last_values. intros k' Hk'.
  assert (Hwf' : Forall (fun kv => well_formed_pair kv.1 kv.2) (kvs1 ++ kvs2)).
  { apply Forall_app in Hwf as [H1 H2]. apply Forall_app. split; [assumption|].
    now inversion H2. }
  rewrite !matchAll_render by assumption.
  rewrite !last_value_app. simpl.
  destruct (last_value k' kvs2); [reflexivity|].
  destruct (String.eqb_spec k' k) as [->|_]; [contradiction|reflexivity].
Qed.

Lemma unrecognized_keys_are_ignored_witness :
  parseWWWAuthenticateChallenge
    (render_challenge
       ([("realm", "kv"); ("scope", "a b")]
        ++ ("error", "invalid_token") :: [("token_uri", "https://h/token")]))
  = parseWWWAuthenticateChallenge
      (render_challenge
         ([("realm", "kv"); ("scope", "a b")] ++ [("token_uri", "https://h/token")])).
Proof.
  apply unrecognized_keys_are_ignored.
  - simpl. intros H. repeat (destruct H as [H|H]; [discriminate|]). exact H.
  - repeat constructor.
Defined.

Lemma last_value_NoDup k v (kvs : list (string * string)) :
  List.NoDup (map fst kvs) -> (last_value k kvs = Some v <-> In (k, v) kvs).
Proof.
  intros Hnd. rewrite last_value_Some. split.
  - intros (a & b & -> & _). apply in_or_app. simpl. auto.
  - intros Hin. apply in_split in Hin as (a & b & ->).
    exists a, b. split; [reflexivity|].
    intros v' Hv'. rewrite map_app in Hnd. simpl in Hnd.
    apply NoDup_remove_2 in Hnd. apply Hnd, in_or_app. right.
    change k with (fst (k, v')). now apply in_map.
Qed.

(** X3.  The order of the pairs does not matter when no key is repeated: two
    headers of the documented shape with the same pairs in different order
    parse alike. *)
Theorem pair_order_is_irrelevant (kvs kvs' : list (string * string)) :
  Permutation kvs kvs' ->
  List.NoDup (map fst kvs) ->
  Forall (fun kv => well_formed_pair kv.1 kv.2) kvs ->
  parseWWWAuthenticateChallenge (render_challenge kvs)
  = parseWWWAuthenticateChallenge (render_challenge kvs').
Proof.
  intros Hp Hnd Hwf. apply parse_by_last_values. intros k _.
  assert (Hnd' : List.NoDup (map fst kvs')).
  { eapply Permutation_NoDup; [|exact Hnd]. now apply Permutation_map. }
  assert (Hwf' : Forall (fun kv => well_formed_pair kv.1 kv.2) kvs').
  { rewrite Forall_forall in *. intros x Hx. apply Hwf.
    rewrite list_elem_of_In in *. eapply Permutation_in; [|exact Hx].
    now apply Permutation_sym. }
  rewrite !matchAll_render by assumption.
  destruct (last_value k kvs) as [v|] eqn:E.
  - symmetry. apply (last_value_NoDup _ _ _ Hnd'). 
    eapply Permutation_in; [exact Hp|]. now apply (last_value_NoDup _ _ _ Hnd).
  - destruct (last_value k kvs') as [v'|] eqn:E'; [|reflexivity].
    apply (last_value_NoDup _ _ _ Hnd') in E'.
    apply (Permutation_in _ (Permutation_sym Hp)) in E'.
    apply (last_value_NoDup _ _ _ Hnd) in E'. congruence.
Qed.

Lemma pair_order_is_irrelevant_witness :
  parseWWWAuthenticateChallenge
    (render_challenge [("realm", "kv"); ("scope", "a b"); ("token_uri", "https://h/token")])
  = parseWWWAuthenticateChallenge
      (render_challenge [("token_uri", "https://h/token"); ("realm", "kv"); ("scope", "a b")]).
Proof.
  apply pair_order_is_irrelevant.
  - apply Permutation_sym, (Permutation_cons_app [("realm", "kv"); ("scope", "a b")] []).
    now rewrite app_nil_r.
  - simpl. repeat constructor; simpl; intros H;
      repeat (destruct H as [H|H]; [discriminate|]); exact H.
  - repeat constructor.
Defined.

Lemma captured_show_Z z : 0 <= z -> captured_value (show_Z z).
Proof.
  intros Hz. unfold show_Z, captured_value.
  assert (H : forall d, all_chars not_quote (NilEmpty.string_of_uint d) = true)
    by (induction d; simpl; auto).
  destruct z as [|p|p]; [split; reflexivity| |lia].
  cbn [Z.to_int NilZero.string_of_int].
  pose proof (DecimalPos.Unsigned.of_to p) as Hp.
  destruct (Pos.to_uint p) eqn:E; [discriminate|..];
    (split; [reflexivity|apply (H (_ _))]).
Qed.

(** X4.  A header of the documented shape that carries all five pairs,
    its chain id a number [z] written in decimal ([0 <= z < 2^53], the
    numbers a JavaScript number holds exactly), parses to exactly the four
    texts and the number [z]. *)
Theorem documented_challenge_parses (r s t g : string) (z : Z) :
  Forall captured_value [r; s; t; g] ->
  0 <= z < 2 ^ 53 ->
  parseWWWAuthenticateChallenge
    (render_challenge
       [("realm", r); ("scope", s); ("token_uri", t); ("chain_id", show_Z z);
        ("signing_scheme", g)])
  = Some {| OAuthChallenge.realm := r;
            OAuthChallenge.scope := s;
            OAuthChallenge.tokenUri := t;
            OAuthChallenge.chainId := Num z;
            OAuthChallenge.signingScheme := g |}.
Proof.
  intros H Hz.
  assert (Hn : captured_value (show_Z z)) by (apply captured_show_Z; lia).
  assert (Hwf : Forall (fun kv : string * string => well_formed_pair kv.1 kv.2)
                  [("realm", r); ("scope", s); ("token_uri", t); ("chain_id", show_Z z);
                   ("signing_scheme", g)]).
  { repeat match goal with
           | H : Forall _ (_ :: _) |- _ => inversion H; clear H; subst
           end.
    repeat constructor; simpl; unfold captured_value in *; tauto. }
  rewrite parse_last_values, matchAll_render by assumption.
  cbn [last_value String.eqb Ascii.eqb Bool.eqb].
  rewrite parseInt_show_Z by lia. reflexivity.
Qed.

Lemma documented_challenge_parses_witness :
  parseWWWAuthenticateChallenge
    (render_challenge
       [("realm", "kv"); ("scope", "a b"); ("token_uri", "https://h/token");
        ("chain_id", "8453"); ("signing_scheme", "eip4361")])
  = Some {| OAuthChallenge.realm := "kv";
            OAuthChallenge.scope := "a b";
            OAuthChallenge.tokenUri := "https://h/token";
            OAuthChallenge.chainId := Num 8453;
            OAuthChallenge.signingScheme := "eip4361" |}.
Proof.
  apply (documented_challenge_parses "kv" "a b" "https://h/token" "eip4361" 8453).
  - repeat constructor.
  - lia.
Defined.

(** X5.  What a challenge holds: its realm, scope, token URI and signing
    scheme are never empty and never hold a double quote. *)
Theorem challenge_fields_are_captured_values (header : string) (c : OAuthChallenge.t) :
  parseWWWAuthenticateChallenge header = Some c ->
  Forall captured_value
    [OAuthChallenge.realm c; OAuthChallenge.scope c; OAuthChallenge.tokenUri c;
     OAuthChallenge.signingScheme c].
Proof.
  intros Hc. rewrite parse_last_values in Hc. cbv zeta in Hc.
  assert (Hv : forall k v, last_value k (matchAll header) = Some v -> captured_value v).
  { intros k v H. apply last_value_matched in H as [Hin _].
    destruct (matchAll_occurs _ _ _ Hin) as ((_ & _ & H1 & H2) & _). now split. }
  destruct (last_value "realm" (matchAll header)) eqn:E1; [|discriminate].
  destruct (last_value "scope" (matchAll header)) eqn:E2; [|discriminate].
  destruct (last_value "token_uri" (matchAll header)) eqn:E3; [|discriminate].
  injection Hc as <-. simpl.
  constructor; [eapply Hv; eassumption|].
  constructor; [eapply Hv; eassumption|].
  constructor; [eapply Hv; eassumption|].
  constructor; [|constructor].
  destruct (last_value "signing_scheme" (matchAll header)) eqn:E4.
  - eapply Hv; eassumption.
  - split; reflexivity.
Qed.

Lemma challenge_fields_are_captured_values_witness :
  Forall captured_value
    [OAuthChallenge.realm Scenario.challenge; OAuthChallenge.scope Scenario.challenge;
     OAuthChallenge.tokenUri Scenario.challenge;
     OAuthChallenge.signingScheme Scenario.challenge].
Proof.
  apply (challenge_fields_are_captured_values Scenario.challenge_text).
  vm_compute. reflexivity.
Defined.

(** ** Headers *)

Lemma same_name_eq a b : same_name a b = true <-> lower_string a = lower_string b.
Proof. unfold same_name. apply String.eqb_eq. Qed.

Lemma same_name_refl a : same_name a a = true.
Proof. now apply same_name_eq. Qed.

Lemma same_name_trans a b c :
  same_name a b = true -> same_name b c = true -> same_name a c = true.
Proof. rewrite !same_name_eq. congruence. Qed.

Lemma same_name_other n name k :
  same_name n name = false -> same_name name k = true -> same_name n k = false.
Proof.
  intros Hn Hk. destruct (same_name n k) eqn:E; [|reflexivity].
  apply same_name_eq in E, Hk.
  assert (same_name n name = true) by (apply same_name_eq; congruence).
  congruence.
Qed.

Lemma same_name_alike n name k :
  same_name n name = true -> same_name n k = same_name name k.
Proof.
  intros Hn. apply same_name_eq in Hn. unfold same_name. now rewrite Hn.
Qed.

Lemma named_cons name kv h :
  named name (kv :: h)
  = if same_name name kv.1 then kv :: named name h else named name h.
Proof.
  unfold named, Headers. destruct (same_name name kv.1) eqn:E.
  - rewrite filter_cons_True; [reflexivity|]. simpl. now rewrite E.
  - rewrite filter_cons_False; [reflexivity|]. simpl. now rewrite E.
Qed.

Lemma named_app name (h1 h2 : Headers) :
  named name (h1 ++ h2)%list = (named name h1 ++ named name h2)%list.
Proof. unfold named, Headers. apply filter_app. Qed.

Lemma named_alike n name h :
  same_name n name = true -> named n h = named name h.
Proof.
  intros Hn. induction h as [|kv h IH]; [reflexivity|].
  rewrite !named_cons, IH, (same_name_alike n name _ Hn). reflexivity.
Qed.

Lemma headers_get_named name h :
  headers_get name h
  = match named name h with
    | [] => None
    | kv :: r => Some (foldl (fun acc kv' => acc ++ ", " ++ kv'.2) kv.2 r)
    end.
Proof. reflexivity. Qed.

Lemma headers_get_None name h : headers_get name h = None <-> named name h = [].
Proof.
  rewrite headers_get_named. destruct (named name h); split; congruence.
Qed.

Lemma headers_set_go name value h :
  headers_set name value h
  = if decide (headers_get name h = None) then (h ++ [(name, value)])%list
    else set_go name value false h.
Proof. reflexivity. Qed.

Lemma named_go_seen name value h : named name (set_go name value true h) = [].
Proof.
  induction h as [|kv h IH]; [reflexivity|]. simpl.
  destruct (same_name name kv.1) eqn:E; [exact IH|].
  rewrite named_cons, E. exact IH.
Qed.

Lemma named_go name value h :
  named name h <> [] ->
  exists k, same_name name k = true /\ named name (set_go name value false h) = [(k, value)].
Proof.
  induction h as [|kv h IH]; [intros H; now elim H|].
  rewrite named_cons. simpl. destruct (same_name name kv.1) eqn:E.
  - intros _. exists kv.1. split; [exact E|].
    rewrite named_cons. simpl. rewrite E, named_go_seen. reflexivity.
  - intros H. destruct (IH H) as (k & Hk & Hg). exists k. split; [exact Hk|].
    rewrite named_cons, E. exact Hg.
Qed.

Lemma named_go_other n name value seen h :
  same_name n name = false ->
  named n (set_go name value seen h) = named n h.
Proof.
  intros Hn. revert seen. induction h as [|kv h IH]; intros seen; [reflexivity|].
  simpl. rewrite named_cons. destruct (same_name name kv.1) eqn:E.
  - rewrite (same_name_other _ _ _ Hn E). destruct seen; [apply IH|].
    rewrite named_cons. simpl. rewrite (same_name_other _ _ _ Hn E). apply IH.
  - rewrite named_cons. destruct (same_name n kv.1); now rewrite IH.
Qed.

(** [get] after [set], for a name that differs at most in letter case. *)
Lemma headers_get_set name value h n :
  same_name n name = true ->
  headers_get n (headers_set name value h) = Some value.
Proof.
  intros Hn. rewrite headers_get_named, (named_alike _ _ _ Hn), headers_set_go.
  destruct (decide (headers_get name h = None)) as [Hnone|Hsome].
  - apply headers_get_None in Hnone.
    rewrite named_app, Hnone, named_cons. simpl.
    now rewrite same_name_refl.
  - assert (Hne : named name h <> []) by (intros E; apply Hsome; now apply headers_get_None).
    destruct (named_go name value h Hne) as (k & _ & Hg). now rewrite Hg.
Qed.

(** [get] after [set], for any other name. *)
Lemma headers_get_set_other name value h n :
  same_name n name = false ->
  headers_get n (headers_set name value h) = headers_get n h.
Proof.
  intros Hn. rewrite !headers_get_named, headers_set_go.
  destruct (decide (headers_get name h = None)).
  - rewrite named_app, named_cons. simpl. rewrite Hn, app_nil_r. reflexivity.
  - now rewrite named_go_other.
Qed.


Lemma with_headers_authorized value base :
  authorized_as value base
    (with_headers base (headers_set "Authorization" value (RequestInit.headers base))).
Proof.
  repeat split; simpl.
  - intros n Hn. now apply headers_get_set.
  - intros n Hn. now apply headers_get_set_other.
Qed.

Lemma oauth_request_authorized value :
  authorized_as value no_init (with_headers no_init [("Authorization", value)]).
Proof. exact (with_headers_authorized value no_init). Qed.

Lemma retry_request_authorized fetchInit a :
  authorized_as (bearer a) fetchInit (retry_request fetchInit a).
Proof. apply with_headers_authorized. Qed.

Lemma bound_retry_request_authorized init a :
  authorized_as (bearer a) (default no_init init) (bound_retry_request init a).
Proof. destruct init; apply with_headers_authorized. Qed.




Lemma oauth_first_request_authorized existingToken :
  if truthy_string existingToken
  then authorized_as ("Bearer " ++ string_value existingToken) no_init
         (oauth_first_request existingToken)
  else oauth_first_request existingToken = no_init.
Proof.
  unfold oauth_first_request. destruct (truthy_string existingToken).
  - apply oauth_request_authorized.
  - reflexivity.
Qed.

(** ** The requests to the resource *)

Section RequestProps.
Context {W : Type} (env : Env W).

Lemma bind_get_currentToken {A} (k : JSValue -> M W A) (st : State W) :
  bind get_currentToken k st = k (currentToken st) st.
Proof.
  unfold bind, get_currentToken. now destruct (k (currentToken st) st) as [[r st'] ev].
Qed.



Lemma oauth_first_event url signMessage address existingToken (st : State W) :
  exists r st' rest,
    OAuth.fetchWithOAuth env url signMessage address existingToken st
    = (r, st', EFetch url (oauth_first_request existingToken) :: rest).
Proof.
  destruct (fetch env url (oauth_first_request existingToken) (world st))
    as [r0 w] eqn:Hf.
  unfold OAuth.fetchWithOAuth. cbv zeta. fold (oauth_first_request existingToken).
  exact (bind_events _ _ _ _ _ _ (do_fetch_run _ _ _ _ _ _ Hf)).
Qed.

Lemma authFetch_retry_goes_out input init st c tokenResponse st5 evs st6 ev6 a r w :
  authFetch_exchanged env input init st c tokenResponse st5 evs ->
  do_onToken (Options.onToken (AuthRequestInit.options init)) tokenResponse st5
    = (inr tt, st6, ev6) ->
  get_prop tokenResponse "access_token" = inr a ->
  fetch env input (retry_request (AuthRequestInit.fetchInit init) a) (world st6) = (r, w) ->
  AuthFetch.authFetch env input init st
  = (r, moved st6 w,
     evs ++ ev6 ++ [EFetch input (retry_request (AuthRequestInit.fetchInit init) a)])%list.
Proof.
  intros Hx Hcb Ha Hr.
  rewrite (run_exchanged _ _ _ _ _ _ _ _ (authFetch_from_challenge env input init st)
             _ _ _ _ Hx).
  unfold authFetch_finish.
  rewrite (bind_inr _ _ _ _ _ _ Hcb).
  unfold lift at 1. rewrite Ha.
  rewrite (bind_inr _ _ st6 a st6 []) by reflexivity.
  rewrite (do_fetch_run _ _ _ _ _ _ Hr). reflexivity.
Qed.

Lemma bound_retry_goes_out options input init st c tokenResponse st5 evs st6 ev6 a r w :
  bound_exchanged env options input init st c tokenResponse st5 evs ->
  get_prop tokenResponse "access_token" = inr a ->
  do_onToken (Options.onToken options) tokenResponse (with_token st5 a)
    = (inr tt, st6, ev6) ->
  fetch env input (bound_retry_request init a) (world st6) = (r, w) ->
  Factory.authFetch_bound env options input init st
  = (r, {| world := w; currentToken := a |},
     evs ++ ev6 ++ [EFetch input (bound_retry_request init a)])%list.
Proof.
  intros Hx Ha Hcb Hr.
  rewrite (run_exchanged _ _ _ _ _ _ _ _ (bound_from_challenge env options input init st)
             _ _ _ _ Hx).
  unfold bound_finish.
  unfold lift at 1. rewrite Ha.
  rewrite (bind_inr _ _ st5 a st5 []) by reflexivity.
  rewrite (bind_inr (set_currentToken a) _ st5 tt (with_token st5 a) [])
    by reflexivity.
  rewrite (bind_inr _ _ _ _ _ _ Hcb).
  pose proof (do_onToken_currentToken _ _ _ _ _ _ Hcb) as Hct. simpl in Hct.
  rewrite bind_get_currentToken, Hct.
  rewrite (do_fetch_run _ _ _ _ _ _ Hr). unfold moved. rewrite Hct. reflexivity.
Qed.

Lemma get_prop_missing fields k :
  assoc k fields = None -> get_prop (JObj fields) k = inr JUndefined.
Proof. intros H. simpl. now rewrite H. Qed.
End RequestProps.

(** ** The two versions of [authFetch] *)

Section Alike.
Context {W : Type}.

Lemma alike_bind {A B} (m1 m2 : M W A) (k1 k2 : A -> M W B) :
  alike m1 m2 -> (forall a, alike (k1 a) (k2 a)) -> alike (bind m1 k1) (bind m2 k2).
Proof.
  intros Hm Hk st1 st2 Hw. unfold bind.
  destruct (Hm st1 st2 Hw) as (Hr & Hw' & He).
  destruct (m1 st1) as [[r1 s1] e1], (m2 st2) as [[r2 s2] e2]. simpl in Hr, Hw', He.
  subst r2 e2. destruct r1 as [e|a]; [now repeat split|].
  destruct (Hk a s1 s2 Hw') as (Hr & Hw'' & He).
  destruct (k1 a s1) as [[r1' s1'] e1'], (k2 a s2) as [[r2' s2'] e2'].
  simpl in *. subst. now repeat split.
Qed.

Lemma alike_ret {A} (a : A) : alike (W:=W) (ret a) (ret a).
Proof. intros st1 st2 Hw. now repeat split. Qed.

Lemma alike_throw {A} (e : Exn) : alike (W:=W) (A:=A) (throw e) (throw e).
Proof. intros st1 st2 Hw. now repeat split. Qed.

Lemma alike_lift {A} (r : Exn + A) : alike (W:=W) (lift r) (lift r).
Proof. intros st1 st2 Hw. now repeat split. Qed.

Lemma alike_log (e : Event) : alike (W:=W) (log e) (log e).
Proof. intros st1 st2 Hw. now repeat split. Qed.

Lemma alike_call {A} (f : W -> (Exn + A) * W) : alike (call f) (call f).
Proof.
  intros st1 st2 Hw. unfold call. rewrite Hw.
  destruct (f (world st2)) as [r w]. now repeat split.
Qed.

Lemma alike_catch {A} (m : M W A) (h : Exn -> M W A) :
  alike m m -> (forall e, alike (h e) (h e)) -> alike (catch m h) (catch m h).
Proof.
  intros Hm Hh st1 st2 Hw. unfold catch.
  destruct (Hm st1 st2 Hw) as (Hr & Hw' & He).
  destruct (m st1) as [[r1 s1] e1], (m st2) as [[r2 s2] e2]. simpl in Hr, Hw', He.
  subst r2 e2. destruct r1 as [e|a]; [|now repeat split].
  destruct (Hh e s1 s2 Hw') as (Hr & Hw'' & He).
  destruct (h e s1) as [[r1' s1'] e1'], (h e s2) as [[r2' s2'] e2'].
  simpl in *. subst. now repeat split.
Qed.

Lemma alike_set_currentToken_r {A} (m1 m2 : M W A) v :
  alike m1 m2 -> alike m1 (_ <- set_currentToken v ;; m2).
Proof.
  intros H st1 st2 Hw. unfold bind, set_currentToken.
  specialize (H st1 {| world := world st2; currentToken := v |} Hw).
  destruct (m2 _) as [[r s] e]. exact H.
Qed.

Context (env : Env W).

Ltac alike_step :=
  first [ apply alike_ret | apply alike_throw | apply alike_lift | apply alike_log
        | apply alike_call
        | apply alike_bind; [|intros ?]
        | apply alike_catch; [|intros ?] ].

Lemma alike_do_fetch input req : alike (do_fetch env input req) (do_fetch env input req).
Proof. unfold do_fetch. repeat alike_step. Qed.

Lemma alike_do_parse header : alike (W:=W) (do_parse header) (do_parse header).
Proof. unfold do_parse. repeat alike_step. Qed.

Lemma alike_do_sign signMessage message :
  alike (W:=W) (do_sign signMessage message) (do_sign signMessage message).
Proof. unfold do_sign. repeat alike_step. Qed.

Lemma alike_do_onToken onToken tokenResponse :
  alike (W:=W) (do_onToken onToken tokenResponse) (do_onToken onToken tokenResponse).
Proof. unfold do_onToken. destruct onToken; repeat alike_step. Qed.

Lemma alike_fetchNonce tokenUri :
  alike (AuthFetch.fetchNonce env tokenUri) (AuthFetch.fetchNonce env tokenUri).
Proof.
  unfold AuthFetch.fetchNonce. cbv zeta.
  apply alike_bind; [apply alike_do_fetch|intros response].
  destruct (negb (Response.ok response)); repeat alike_step.
Qed.

Lemma alike_buildSiweMessage address nonce scopes uri chainId :
  alike (AuthFetch.buildSiweMessage env address nonce scopes uri chainId)
        (AuthFetch.buildSiweMessage env address nonce scopes uri chainId).
Proof.
  unfold AuthFetch.buildSiweMessage, do_createSiweMessage. repeat alike_step.
Qed.

Lemma alike_exchangeToken tokenUri message signature scope :
  alike (AuthFetch.exchangeToken env tokenUri message signature scope)
        (AuthFetch.exchangeToken env tokenUri message signature scope).
Proof.
  unfold AuthFetch.exchangeToken.
  apply alike_bind; [apply alike_do_fetch|intros response].
  destruct (negb (Response.ok response)); repeat alike_step.
Qed.

(** After the exchange: the callback and the retry of the one version, the
    assignment, the callback and the retry of the other. *)
Lemma alike_finish input (init : AuthRequestInit.t W) tokenResponse :
  alike (authFetch_finish env input init tokenResponse)
        (bound_finish env (AuthRequestInit.options init) input
           (Some (AuthRequestInit.fetchInit init)) tokenResponse).
Proof.
  intros st1 st2 Hw. unfold authFetch_finish, bound_finish.
  destruct (get_prop tokenResponse "access_token") as [e|a] eqn:Ha.
  - rewrite (bind_inl (lift (inl e)) _ st2 e st2 []) by reflexivity.
    unfold do_onToken. destruct (Options.onToken (AuthRequestInit.options init)).
    + rewrite Ha. unfold bind, lift. now repeat split.
    + unfold bind, lift, ret. now repeat split.
  - rewrite (bind_inr (lift (inr a)) _ st2 a st2 []) by reflexivity.
    rewrite (bind_inr (set_currentToken a) _ st2 tt (with_token st2 a) [])
      by reflexivity.
    rewrite !prepend_nil.
    pose proof (alike_do_onToken (Options.onToken (AuthRequestInit.options init))
                  tokenResponse st1 (with_token st2 a) Hw) as (Hr & Hw' & He).
    destruct (do_onToken _ tokenResponse st1) as [[r1 s1] e1] eqn:H1.
    destruct (do_onToken _ tokenResponse (with_token st2 a)) as [[r2 s2] e2] eqn:H2.
    simpl in Hr, Hw', He. subst r2 e2.
    pose proof (do_onToken_currentToken _ _ _ _ _ _ H2) as Hct. simpl in Hct.
    destruct r1 as [e|[]].
    + rewrite (bind_inl _ _ _ _ _ _ H1), (bind_inl _ _ _ _ _ _ H2). now repeat split.
    + rewrite (bind_inr _ _ _ _ _ _ H1), (bind_inr _ _ _ _ _ _ H2).
      rewrite (bind_inr (lift (inr a)) _ s1 a s1 []) by reflexivity.
      rewrite bind_get_currentToken, Hct, prepend_nil.
      pose proof (alike_do_fetch input
                    (retry_request (AuthRequestInit.fetchInit init) a) s1 s2 Hw')
        as (Hr & Hw'' & He).
      change (bound_retry_request (Some (AuthRequestInit.fetchInit init)) a)
        with (retry_request (AuthRequestInit.fetchInit init) a).
      destruct (do_fetch env input _ s1) as [[r1' s1'] e1'].
      destruct (do_fetch env input _ s2) as [[r2' s2'] e2'].
      simpl in *. subst. now repeat split.
Qed.

Lemma first_requests_agree (init : AuthRequestInit.t W) :
  bound_first_request (Some (AuthRequestInit.fetchInit init))
    (match Options.token (AuthRequestInit.options init) with
     | Some t => JStr t
     | None => JUndefined
     end)
  = first_request init.
Proof.
  unfold bound_first_request, first_request. simpl.
  now destruct (Options.token (AuthRequestInit.options init)).
Qed.

Lemma alike_authFetch input (init : AuthRequestInit.t W) st :
  same_outcome (AuthFetch.authFetch env input init st)
               (Factory.authFetch env input init st).
Proof.
  rewrite factory_authFetch_bound.
  unfold Factory.authFetch_bound, AuthFetch.authFetch. cbv zeta.
  rewrite bind_get_currentToken.
  fold (first_request init).
  change (currentToken (with_token st ?v)) with v.
  fold (bound_first_request (Some (AuthRequestInit.fetchInit init))
          (match Options.token (AuthRequestInit.options init) with
           | Some t => JStr t
           | None => JUndefined
           end)).
  rewrite first_requests_agree.
  revert st. 
  match goal with
  | |- forall st, same_outcome (?m1 st) (?m2 (with_token st ?v)) =>
      assert (H : alike m1 m2); [|intros st; exact (H st (with_token st v) eq_refl)]
  end.
  apply alike_bind; [apply alike_do_fetch|intros response].
  destruct (Response.status response =? 401); [|apply alike_ret].
  destruct (negb (truthy_string _)); [apply alike_ret|].
  apply alike_bind; [apply alike_do_parse|intros [challenge|]]; [|apply alike_ret].
  destruct (negb (String.eqb _ _)); [apply alike_throw|].
  apply alike_bind; [apply alike_fetchNonce|intros nonce].
  apply alike_bind; [apply alike_buildSiweMessage|intros siweMessage].
  apply alike_bind; [apply alike_do_sign|intros signature].
  apply alike_bind; [apply alike_exchangeToken|intros tokenResponse].
  exact (alike_finish input init tokenResponse).
Qed.
End Alike.

(** ** The token kept between calls *)

Section Keeps.
Context {W : Type}.

Lemma bind_cases {A B} (m : M W A) (k : A -> M W B) st r st' ev :
  bind m k st = (r, st', ev) ->
  (exists e, m st = (inl e, st', ev) /\ r = inl e)
  \/ (exists a st1 ev1 ev2,
        m st = (inr a, st1, ev1) /\ k a st1 = (r, st', ev2) /\ ev = (ev1 ++ ev2)%list).
Proof.
  unfold bind. destruct (m st) as [[[e|a] st1] ev1].
  - intros [= <- <- <-]. left. now exists e.
  - destruct (k a st1) as [[r2 st2] ev2] eqn:Hk. intros [= <- <- <-].
    right. exists a, st1, ev1, ev2. split; [reflexivity|]. split; [exact Hk|reflexivity].
Qed.

Lemma keeps_bind {A B} (m : M W A) (k : A -> M W B) :
  keeps_token m -> (forall a, keeps_token (k a)) -> keeps_token (bind m k).
Proof.
  intros Hm Hk st r st' ev H.
  destruct (bind_cases _ _ _ _ _ _ H) as [(e & H1 & _)|(a & st1 & ev1 & ev2 & H1 & H2 & _)].
  - exact (Hm _ _ _ _ H1).
  - rewrite (Hk _ _ _ _ _ H2). exact (Hm _ _ _ _ H1).
Qed.

Lemma keeps_ret {A} (a : A) : keeps_token (W:=W) (ret a).
Proof. now intros st r st' ev [= <- <- <-]. Qed.

Lemma keeps_throw {A} (e : Exn) : keeps_token (W:=W) (A:=A) (throw e).
Proof. now intros st r st' ev [= <- <- <-]. Qed.

Lemma keeps_lift {A} (r : Exn + A) : keeps_token (W:=W) (lift r).
Proof. now intros st r0 st' ev [= <- <- <-]. Qed.

Lemma keeps_log (e : Event) : keeps_token (W:=W) (log e).
Proof. now intros st r0 st' ev [= <- <- <-]. Qed.

Lemma keeps_call {A} (f : W -> (Exn + A) * W) : keeps_token (call f).
Proof.
  intros st r st' ev. unfold call. destruct (f (world st)) as [r0 w].
  now intros [= <- <- <-].
Qed.

Lemma keeps_catch {A} (m : M W A) (h : Exn -> M W A) :
  keeps_token m -> (forall e, keeps_token (h e)) -> keeps_token (catch m h).
Proof.
  intros Hm Hh st r st' ev. unfold catch.
  destruct (m st) as [[[e|a] st1] ev1] eqn:H1.
  - destruct (h e st1) as [[r2 st2] ev2] eqn:H2. intros [= <- <- <-].
    rewrite (Hh _ _ _ _ _ H2). exact (Hm _ _ _ _ H1).
  - intros [= <- <- <-]. exact (Hm _ _ _ _ H1).
Qed.

Context (env : Env W).

Ltac keeps_step :=
  first [ apply keeps_ret | apply keeps_throw | apply keeps_lift | apply keeps_log
        | apply keeps_call
        | apply keeps_bind; [|intros ?]
        | apply keeps_catch; [|intros ?] ].

Lemma keeps_do_fetch input req : keeps_token (do_fetch env input req).
Proof. unfold do_fetch. repeat keeps_step. Qed.

Lemma keeps_do_sign signMessage message : keeps_token (W:=W) (do_sign signMessage message).
Proof. unfold do_sign. repeat keeps_step. Qed.

Lemma keeps_do_onToken onToken tokenResponse :
  keeps_token (W:=W) (do_onToken onToken tokenResponse).
Proof. intros st r st' ev. apply do_onToken_currentToken. Qed.

Lemma keeps_fetchNonce tokenUri : keeps_token (AuthFetch.fetchNonce env tokenUri).
Proof.
  unfold AuthFetch.fetchNonce. cbv zeta.
  apply keeps_bind; [apply keeps_do_fetch|intros response].
  destruct (negb (Response.ok response)); repeat keeps_step.
Qed.

Lemma keeps_buildSiweMessage address nonce scopes uri chainId :
  keeps_token (AuthFetch.buildSiweMessage env address nonce scopes uri chainId).
Proof.
  unfold AuthFetch.buildSiweMessage, do_createSiweMessage. repeat keeps_step.
Qed.

Lemma keeps_exchangeToken tokenUri message signature scope :
  keeps_token (AuthFetch.exchangeToken env tokenUri message signature scope).
Proof.
  unfold AuthFetch.exchangeToken.
  apply keeps_bind; [apply keeps_do_fetch|intros response].
  destruct (negb (Response.ok response)); repeat keeps_step.
Qed.
End Keeps.

(** Where a run that started from a challenge can end: before the exchange
    is through, or in what follows it. *)
Section FlowCases.
Context {W A : Type}.
Variable first : M W Response.t.
Variable nonce_of : string -> M W JSValue.
Variable message_of : OAuthChallenge.t -> JSValue -> M W string.
Variable sign : string -> M W string.
Variable exchange : string -> string -> string -> string -> M W JSValue.
Variable finish : JSValue -> M W A.

Hypothesis keeps_nonce : forall uri, keeps_token (nonce_of uri).
Hypothesis keeps_message : forall c nonce, keeps_token (message_of c nonce).
Hypothesis keeps_sign : forall message, keeps_token (sign message).
Hypothesis keeps_exchange : forall uri message signature scope,
  keeps_token (exchange uri message signature scope).

Lemma from_challenge_cases st c st1 evs r st' ev :
  challenged first st c st1 evs ->
  from_challenge nonce_of message_of sign exchange finish c st1 = (r, st', ev) ->
  currentToken st' = currentToken st1
  \/ exists tokenResponse st5 evs5 ev5,
       exchanged first nonce_of message_of sign exchange st c tokenResponse st5 evs5
       /\ currentToken st5 = currentToken st1
       /\ finish tokenResponse st5 = (r, st', ev5).
Proof.
  intros Hc H. unfold from_challenge in H.
  destruct (bind_cases _ _ _ _ _ _ H)
    as [(e & H1 & _)|(nonce & st2 & ev2 & ev2' & H1 & H2 & _)]; clear H.
  { left. exact (keeps_nonce _ _ _ _ _ H1). }
  pose proof (keeps_nonce _ _ _ _ _ H1) as K2.
  assert (Hn : nonce_fetched first nonce_of st c nonce st2 (evs ++ ev2)%list)
    by (now exists st1, evs, ev2).
  unfold from_nonce in H2.
  destruct (bind_cases _ _ _ _ _ _ H2)
    as [(e & H3 & _)|(message & st3 & ev3 & ev3' & H3 & H4 & _)]; clear H2.
  { left. rewrite (keeps_message _ _ _ _ _ _ H3). exact K2. }
  pose proof (keeps_message _ _ _ _ _ _ H3) as K3.
  destruct (bind_cases _ _ _ _ _ _ H4)
    as [(e & H5 & _)|(signature & st4 & ev4 & ev4' & H5 & H6 & _)]; clear H4.
  { left. rewrite (keeps_sign _ _ _ _ _ H5). congruence. }
  pose proof (keeps_sign _ _ _ _ _ H5) as K4.
  assert (Hs : signed first nonce_of message_of sign st c message signature st4
                 ((evs ++ ev2) ++ ev3 ++ ev4)%list)
    by (now exists nonce, st2, (evs ++ ev2)%list, st3, ev3, ev4).
  unfold from_signed in H6.
  destruct (bind_cases _ _ _ _ _ _ H6)
    as [(e & H7 & _)|(tokenResponse & st5 & ev5 & ev5' & H7 & H8 & _)]; clear H6.
  { left. rewrite (keeps_exchange _ _ _ _ _ _ _ _ H7). congruence. }
  pose proof (keeps_exchange _ _ _ _ _ _ _ _ H7) as K5.
  right. exists tokenResponse, st5, (((evs ++ ev2) ++ ev3 ++ ev4) ++ ev5)%list, ev5'.
  split; [|split; [congruence|exact H8]].
  now exists message, signature, st4, ((evs ++ ev2) ++ ev3 ++ ev4)%list, ev5.
Qed.
End FlowCases.

Section CacheProps.
Context {W : Type} (env : Env W).

Lemma bound_finish_token options input init tokenResponse (st5 : State W) r st' ev :
  bound_finish env options input init tokenResponse st5 = (r, st', ev) ->
  currentToken st' = currentToken st5
  \/ get_prop tokenResponse "access_token" = inr (currentToken st').
Proof.
  unfold bound_finish. intros H.
  destruct (get_prop tokenResponse "access_token") as [e|a] eqn:Ha.
  - left. rewrite (bind_inl (lift (inl e)) _ st5 e st5 []) in H by reflexivity.
    now injection H as <- <- <-.
  - right. rewrite (bind_inr (lift (inr a)) _ st5 a st5 []) in H by reflexivity.
    rewrite (bind_inr (set_currentToken a) _ st5 tt (with_token st5 a) []) in H
      by reflexivity.
    rewrite !prepend_nil in H.
    assert (K : keeps_token
                  (_ <- do_onToken (Options.onToken options) tokenResponse ;;
                   currentToken <- get_currentToken ;;
                   do_fetch env input (bound_retry_request init currentToken))).
    { apply keeps_bind; [apply keeps_do_onToken|intros _].
      intros s r0 s' ev0. rewrite bind_get_currentToken. apply keeps_do_fetch. }
    rewrite (K _ _ _ _ H). reflexivity.
Qed.

Lemma bound_token_cases options input init (st : State W) r st' evs :
  Factory.authFetch_bound env options input init st = (r, st', evs) ->
  currentToken st' = currentToken st
  \/ exists c tokenResponse st5 evs5,
       bound_exchanged env options input init st c tokenResponse st5 evs5
       /\ get_prop tokenResponse "access_token" = inr (currentToken st').
Proof.
  intros H.
  destruct (bound_first env input init st st) as [[[e|response] st1] ev1] eqn:H1.
  - left. unfold Factory.authFetch_bound in H. cbv zeta in H.
    rewrite bind_get_currentToken in H.
    fold (bound_first_request init (currentToken st)) in H.
    unfold bound_first in H1.
    rewrite (bind_inl _ _ _ _ _ _ H1) in H. injection H as <- <- <-.
    exact (keeps_do_fetch env _ _ _ _ _ _ H1).
  - pose proof (keeps_do_fetch env _ _ _ _ _ _ H1) as K1.
    rewrite (authFetch_bound_first env options input init st response st1 ev1 H1) in H.
    destruct (Response.status response =? 401) eqn:Hs;
      [|left; unfold prepend, ret in H; now injection H as <- <- <-].
    destruct (truthy_string (www_authenticate response)) eqn:Ht; cbn [negb] in H;
      [|left; unfold prepend, ret in H; now injection H as <- <- <-].
    rewrite (bind_inr _ _ _ _ _ _ (do_parse_run _ _)) in H.
    destruct (parseWWWAuthenticateChallenge (string_value (www_authenticate response)))
      as [c|] eqn:Hp;
      [|left; unfold prepend, ret in H; now injection H as <- <- <-].
    destruct (String.eqb (OAuthChallenge.signingScheme c) "eip4361") eqn:Hg;
      cbn [negb] in H;
      [|left; unfold prepend, throw in H; now injection H as <- <- <-].
    assert (Hcc : carries_challenge response c).
    { unfold carries_challenge. unfold truthy_string in Ht.
      destruct (www_authenticate response) as [h|]; [|discriminate].
      exists h. split; [reflexivity|exact Hp]. }
    assert (Hc : bound_challenged env input init st c st1
                   (ev1 ++ [EParse (string_value (www_authenticate response))])%list).
    { exists response, ev1. split; [exact H1|].
      split; [now apply Z.eqb_eq|]. split; [exact Hcc|].
      split; [now apply String.eqb_eq|reflexivity]. }
    rewrite prepend_prepend in H.
    destruct (from_challenge _ _ _ _ _ c st1) as [[r2 st2] ev2] eqn:H2.
    unfold prepend in H. injection H as <- <- <-.
    destruct (from_challenge_cases _ _ _ _ _ _
                (keeps_fetchNonce env)
                (fun c nonce => keeps_buildSiweMessage env _ _ _ _ _)
                (keeps_do_sign _)
                (keeps_exchangeToken env)
                _ _ _ _ _ _ _ Hc H2)
      as [K|(tokenResponse & st5 & evs5 & ev5 & Hx & K5 & Hf)].
    + left. congruence.
    + destruct (bound_finish_token _ _ _ _ _ _ _ _ Hf) as [K|K].
      * left. congruence.
      * right. now exists c, tokenResponse, st5, evs5.
Qed.
Lemma bound_finish_sets options input init tokenResponse (st5 : State W) a r st' ev :
  get_prop tokenResponse "access_token" = inr a ->
  bound_finish env options input init tokenResponse st5 = (r, st', ev) ->
  currentToken st' = a.
Proof.
  intros Ha H. unfold bound_finish in H. rewrite Ha in H.
  rewrite (bind_inr (lift (inr a)) _ st5 a st5 []) in H by reflexivity.
  rewrite (bind_inr (set_currentToken a) _ st5 tt (with_token st5 a) []) in H
    by reflexivity.
  rewrite !prepend_nil in H.
  assert (K : keeps_token
                (_ <- do_onToken (Options.onToken options) tokenResponse ;;
                 currentToken <- get_currentToken ;;
                 do_fetch env input (bound_retry_request init currentToken))).
  { apply keeps_bind; [apply keeps_do_onToken|intros _].
    intros s r0 s' ev0. rewrite bind_get_currentToken. apply keeps_do_fetch. }
  rewrite (K _ _ _ _ H). reflexivity.
Qed.

Lemma bound_exchange_sets options input init (st : State W) c tokenResponse st5 evs5
    a r st' evs :
  bound_exchanged env options input init st c tokenResponse st5 evs5 ->
  get_prop tokenResponse "access_token" = inr a ->
  Factory.authFetch_bound env options input init st = (r, st', evs) ->
  currentToken st' = a.
Proof.
  intros Hx Ha H.
  rewrite (run_exchanged _ _ _ _ _ _ _ _ (bound_from_challenge env options input init st)
             _ _ _ _ Hx) in H.
  destruct (bound_finish env options input init tokenResponse st5)
    as [[r5 s5] e5] eqn:Hf.
  unfold prepend in H. injection H as <- <- <-.
  exact (bound_finish_sets _ _ _ _ _ _ _ _ _ Ha Hf).
Qed.

Lemma bound_no_exchange_keeps options input init (st : State W) r st' evs :
  Factory.authFetch_bound env options input init st = (r, st', evs) ->
  (forall c tokenResponse st5 evs5 a,
     bound_exchanged env options input init st c tokenResponse st5 evs5 ->
     get_prop tokenResponse "access_token" <> inr a) ->
  currentToken st' = currentToken st.
Proof.
  intros H Hno.
  destruct (bound_token_cases _ _ _ _ _ _ _ H)
    as [K|(c & tokenResponse & st5 & evs5 & Hx & Ha)]; [exact K|].
  exfalso. exact (Hno _ _ _ _ _ Hx Ha).
Qed.
End CacheProps.

(** ** Counting what a run asks for *)

Section Costs.
Context {W : Type} (ws : Weights).

Lemma total_app evs1 evs2 : total ws (evs1 ++ evs2) = (total ws evs1 + total ws evs2)%nat.
Proof. unfold total. now rewrite map_app, list_sum_app. Qed.

Lemma costs_weaken {A} a b (m : M W A) : costs ws a m -> (a <= b)%nat -> costs ws b m.
Proof. intros H Hab st r st' ev E. specialize (H _ _ _ _ E). lia. Qed.

Lemma costs_bind {A B} a b (m : M W A) (k : A -> M W B) :
  costs ws a m -> (forall x, costs ws b (k x)) -> costs ws (a + b)%nat (bind m k).
Proof.
  intros Hm Hk st r st' ev H.
  destruct (bind_cases _ _ _ _ _ _ H)
    as [(e & H1 & _)|(x & st1 & ev1 & ev2 & H1 & H2 & ->)].
  - specialize (Hm _ _ _ _ H1). lia.
  - rewrite total_app. specialize (Hm _ _ _ _ H1). specialize (Hk _ _ _ _ _ H2). lia.
Qed.

Lemma costs_free {A B} n (m : M W A) (k : A -> M W B) :
  costs ws 0%nat m -> (forall x, costs ws n (k x)) -> costs ws n (bind m k).
Proof. intros Hm Hk. exact (costs_bind 0%nat n m k Hm Hk). Qed.

Lemma costs_ret {A} n (a : A) : costs (W:=W) ws n (ret a).
Proof. intros st r st' ev [= <- <- <-]. unfold total. simpl. lia. Qed.

Lemma costs_throw {A} n (e : Exn) : costs (W:=W) (A:=A) ws n (throw e).
Proof. intros st r st' ev [= <- <- <-]. unfold total. simpl. lia. Qed.

Lemma costs_lift {A} n (r : Exn + A) : costs (W:=W) ws n (lift r).
Proof. intros st r0 st' ev [= <- <- <-]. unfold total. simpl. lia. Qed.

Lemma costs_get_currentToken n : costs (W:=W) ws n get_currentToken.
Proof. intros st r0 st' ev [= <- <- <-]. unfold total. simpl. lia. Qed.

Lemma costs_set_currentToken n v : costs (W:=W) ws n (set_currentToken v).
Proof. intros st r0 st' ev [= <- <- <-]. unfold total. simpl. lia. Qed.

Lemma costs_call {A} n (f : W -> (Exn + A) * W) : costs ws n (call f).
Proof.
  intros st r st' ev. unfold call. destruct (f (world st)) as [r0 w].
  intros [= <- <- <-]. unfold total. simpl. lia.
Qed.

Lemma costs_log (e : Event) : costs (W:=W) ws (weigh ws e) (log e).
Proof. intros st r0 st' ev [= <- <- <-]. unfold total. simpl. lia. Qed.

Lemma costs_logged_call {A} (e : Event) (f : W -> (Exn + A) * W) :
  costs ws (weigh ws e) (_ <- log e ;; call f).
Proof.
  eapply costs_weaken; [eapply (costs_bind _ 0%nat); [apply costs_log|intros _; apply costs_call]|].
  lia.
Qed.

Lemma costs_catch_lift {A} n (r : Exn + A) (h : Exn -> M W A) :
  (forall e, costs ws n (h e)) -> costs ws n (catch (lift r) h).
Proof.
  intros Hh st r0 st' ev. unfold catch, lift. destruct r as [e|a].
  - destruct (h e st) as [[r2 st2] ev2] eqn:H2. intros [= <- <- <-].
    exact (Hh _ _ _ _ _ H2).
  - intros [= <- <- <-]. unfold total. simpl. lia.
Qed.

Context (env : Env W).

Lemma costs_do_fetch input req : costs ws (w_fetch ws) (do_fetch env input req).
Proof. exact (costs_logged_call (EFetch input req) _). Qed.

Lemma costs_do_parse header : costs (W:=W) ws (w_parse ws) (do_parse header).
Proof.
  unfold do_parse.
  eapply costs_weaken;
    [eapply (costs_bind _ 0%nat); [apply (costs_log (EParse header))|intros _; apply costs_ret]|].
  simpl. lia.
Qed.

Lemma costs_do_createSiweMessage p :
  costs ws (w_siwe ws) (do_createSiweMessage env p).
Proof. exact (costs_logged_call (ECreateSiwe p) _). Qed.

Lemma costs_do_sign signMessage message :
  costs (W:=W) ws (w_sign ws) (do_sign signMessage message).
Proof. exact (costs_logged_call (ESign message) _). Qed.

Lemma costs_do_onToken onToken tokenResponse :
  costs (W:=W) ws (w_token ws) (do_onToken onToken tokenResponse).
Proof.
  unfold do_onToken. destruct onToken as [cb|]; [|apply costs_ret].
  apply costs_free; [apply costs_lift|intros a].
  apply costs_free; [apply costs_lift|intros s].
  exact (costs_logged_call (EOnToken a s) _).
Qed.

Lemma costs_nonce_answer (response : Response.t) :
  costs (W:=W) ws 0%nat
    (if negb (Response.ok response) then
       throw (JsError ("Failed to fetch nonce: " ++ show_Z (Response.status response)))
     else data <- lift (Response.json response) ;; lift (get_prop data "nonce")).
Proof.
  destruct (negb (Response.ok response)); [apply costs_throw|].
  apply costs_free; [apply costs_lift|intros data; apply costs_lift].
Qed.

Lemma costs_fetchNonce tokenUri :
  costs ws (w_fetch ws) (AuthFetch.fetchNonce env tokenUri).
Proof.
  unfold AuthFetch.fetchNonce. cbv zeta.
  eapply costs_weaken;
    [eapply (costs_bind _ 0%nat); [apply costs_do_fetch|intros r; apply costs_nonce_answer]|lia].
Qed.

Lemma costs_oauth_fetchNonce tokenUri :
  costs ws (w_fetch ws) (OAuth.fetchNonce env tokenUri).
Proof.
  unfold OAuth.fetchNonce. cbv zeta.
  eapply costs_weaken;
    [eapply (costs_bind _ 0%nat); [apply costs_do_fetch|intros r; apply costs_nonce_answer]|lia].
Qed.

Lemma costs_buildSiweMessage address nonce scopes uri chainId :
  costs ws (w_siwe ws) (AuthFetch.buildSiweMessage env address nonce scopes uri chainId).
Proof.
  unfold AuthFetch.buildSiweMessage.
  apply costs_free; [apply costs_lift|intros domain; apply costs_do_createSiweMessage].
Qed.

Lemma costs_oauth_buildSiweMessage address nonce scopes uri :
  costs ws (w_siwe ws) (OAuth.buildSiweMessage env address nonce scopes uri).
Proof.
  unfold OAuth.buildSiweMessage.
  apply costs_free; [apply costs_lift|intros domain; apply costs_do_createSiweMessage].
Qed.

Lemma costs_exchangeToken tokenUri message signature scope :
  costs ws (w_fetch ws) (AuthFetch.exchangeToken env tokenUri message signature scope).
Proof.
  unfold AuthFetch.exchangeToken.
  eapply costs_weaken; [eapply (costs_bind _ 0%nat); [apply costs_do_fetch|intros response]|lia].
  destruct (negb (Response.ok response)); [|apply costs_lift].
  apply costs_free; [apply costs_catch_lift; intros _; apply costs_ret|intros error].
  apply costs_free; [apply costs_lift|intros reason; apply costs_throw].
Qed.

Lemma costs_oauth_exchangeToken tokenUri message signature scope :
  costs ws (w_fetch ws) (OAuth.exchangeToken env tokenUri message signature scope).
Proof.
  unfold OAuth.exchangeToken.
  eapply costs_weaken; [eapply (costs_bind _ 0%nat); [apply costs_do_fetch|intros response]|lia].
  destruct (negb (Response.ok response)); [|apply costs_lift].
  apply costs_free; [apply costs_lift|intros error].
  apply costs_free; [apply costs_lift|intros reason; apply costs_throw].
Qed.

Lemma costs_authFetch input (init : AuthRequestInit.t W) :
  costs ws (full_flow ws) (AuthFetch.authFetch env input init).
Proof.
  unfold AuthFetch.authFetch, full_flow. cbv zeta.
  apply costs_bind; [apply costs_do_fetch|intros response].
  destruct (Response.status response =? 401); [|apply costs_ret].
  destruct (negb (truthy_string _)); [apply costs_ret|].
  apply costs_bind; [apply costs_do_parse|intros [challenge|]]; [|apply costs_ret].
  destruct (negb (String.eqb _ _)); [apply costs_throw|].
  apply costs_bind; [apply costs_fetchNonce|intros nonce].
  apply costs_bind; [apply costs_buildSiweMessage|intros siweMessage].
  apply costs_bind; [apply costs_do_sign|intros signature].
  apply costs_bind; [apply costs_exchangeToken|intros tokenResponse].
  apply costs_bind; [apply costs_do_onToken|intros _].
  apply costs_free; [apply costs_lift|intros access_token].
  apply costs_do_fetch.
Qed.

Lemma costs_authFetch_bound (options : Options.t W) input init :
  costs ws (full_flow ws) (Factory.authFetch_bound env options input init).
Proof.
  unfold Factory.authFetch_bound, full_flow. cbv zeta.
  apply costs_free; [apply costs_get_currentToken|intros currentToken].
  apply costs_bind; [apply costs_do_fetch|intros response].
  destruct (Response.status response =? 401); [|apply costs_ret].
  destruct (negb (truthy_string _)); [apply costs_ret|].
  apply costs_bind; [apply costs_do_parse|intros [challenge|]]; [|apply costs_ret].
  destruct (negb (String.eqb _ _)); [apply costs_throw|].
  apply costs_bind; [apply costs_fetchNonce|intros nonce].
  apply costs_bind; [apply costs_buildSiweMessage|intros siweMessage].
  apply costs_bind; [apply costs_do_sign|intros signature].
  apply costs_bind; [apply costs_exchangeToken|intros tokenResponse].
  apply costs_free; [apply costs_lift|intros access_token].
  apply costs_free; [apply costs_set_currentToken|intros _].
  apply costs_bind; [apply costs_do_onToken|intros _].
  apply costs_free; [apply costs_get_currentToken|intros currentToken'].
  apply costs_do_fetch.
Qed.

Lemma costs_factory_authFetch input (init : AuthRequestInit.t W) :
  costs ws (full_flow ws) (Factory.authFetch env input init).
Proof.
  intros st r st' ev. rewrite factory_authFetch_bound.
  apply costs_authFetch_bound.
Qed.

Lemma costs_fetchWithOAuth url signMessage address existingToken :
  costs ws (oauth_flow ws) (OAuth.fetchWithOAuth env url signMessage address existingToken).
Proof.
  unfold OAuth.fetchWithOAuth, oauth_flow. cbv zeta.
  apply costs_bind; [apply costs_do_fetch|intros response].
  destruct (Response.status response =? 401).
  - destruct (negb (truthy_string _)); [apply costs_throw|].
    apply costs_bind; [apply costs_do_parse|intros [challenge|]]; [|apply costs_throw].
    destruct (negb (String.eqb _ _)); [apply costs_throw|].
    apply costs_bind; [apply costs_oauth_fetchNonce|intros nonce].
    apply costs_bind; [apply costs_oauth_buildSiweMessage|intros siweMessage].
    apply costs_bind; [apply costs_do_sign|intros signature].
    apply costs_bind; [apply costs_oauth_exchangeToken|intros tokenResponse].
    apply costs_free; [apply costs_lift|intros access_token].
    eapply costs_weaken;
      [eapply (costs_bind _ 0%nat); [apply costs_do_fetch|intros response']|lia].
    destruct (negb (Response.ok response')); [apply costs_throw|].
    apply costs_free; [apply costs_lift|intros data].
    apply costs_free; [apply costs_lift|intros access_token'; apply costs_ret].
  - destruct (negb (Response.ok response)); [apply costs_throw|].
    apply costs_free; [apply costs_lift|intros data; apply costs_ret].
Qed.
End Costs.

(** ** Where the flow stops *)

Section FlowFailures.
Context {W A : Type}.
Variable first : M W Response.t.
Variable nonce_of : string -> M W JSValue.
Variable message_of : OAuthChallenge.t -> JSValue -> M W string.
Variable sign : string -> M W string.
Variable exchange : string -> string -> string -> string -> M W JSValue.
Variable finish : JSValue -> M W A.
Variable run : M W A.
Variable st : State W.

Hypothesis run_challenged : forall c st1 evs,
  challenged first st c st1 evs ->
  run st = prepend evs (from_challenge nonce_of message_of sign exchange finish c st1).

Lemma run_stops_at_nonce c st1 evs e st2 ev2 :
  challenged first st c st1 evs ->
  nonce_of (OAuthChallenge.tokenUri c) st1 = (inl e, st2, ev2) ->
  run st = (inl e, st2, (evs ++ ev2)%list).
Proof.
  intros Hc Hn. rewrite (run_challenged _ _ _ Hc). unfold from_challenge.
  now rewrite (bind_inl _ _ _ _ _ _ Hn).
Qed.

Lemma run_stops_at_message c nonce st2 evs e st3 ev3 :
  nonce_fetched first nonce_of st c nonce st2 evs ->
  message_of c nonce st2 = (inl e, st3, ev3) ->
  run st = (inl e, st3, (evs ++ ev3)%list).
Proof.
  intros Hn Hm.
  rewrite (run_nonce_fetched _ _ _ _ _ _ _ _ run_challenged _ _ _ _ Hn).
  unfold from_nonce. now rewrite (bind_inl _ _ _ _ _ _ Hm).
Qed.

Lemma run_stops_at_signature c nonce st2 evs siweMessage st3 ev3 e st4 ev4 :
  nonce_fetched first nonce_of st c nonce st2 evs ->
  message_of c nonce st2 = (inr siweMessage, st3, ev3) ->
  sign siweMessage st3 = (inl e, st4, ev4) ->
  run st = (inl e, st4, (evs ++ ev3 ++ ev4)%list).
Proof.
  intros Hn Hm Hs.
  rewrite (run_nonce_fetched _ _ _ _ _ _ _ _ run_challenged _ _ _ _ Hn).
  unfold from_nonce.
  rewrite (bind_inr _ _ _ _ _ _ Hm), (bind_inl _ _ _ _ _ _ Hs).
  reflexivity.
Qed.

Lemma run_stops_at_exchange c siweMessage signature st4 evs e st5 ev5 :
  signed first nonce_of message_of sign st c siweMessage signature st4 evs ->
  exchange (OAuthChallenge.tokenUri c) siweMessage signature
    (OAuthChallenge.scope c) st4 = (inl e, st5, ev5) ->
  run st = (inl e, st5, (evs ++ ev5)%list).
Proof.
  intros Hs Hx.
  rewrite (run_signed _ _ _ _ _ _ _ _ run_challenged _ _ _ _ _ Hs).
  unfold from_signed. now rewrite (bind_inl _ _ _ _ _ _ Hx).
Qed.
End FlowFailures.

Section HelperOutcomes.
Context {W : Type} (env : Env W).

Lemma do_sign_run signMessage message (st : State W) r w :
  signMessage message (world st) = (r, w) ->
  do_sign signMessage message st = (r, moved st w, [ESign message]).
Proof.
  intros H. unfold do_sign, bind, log, call. rewrite H. now destruct r.
Qed.

Lemma fetchNonce_run tokenUri (st : State W) r w :
  fetch env (replace "/token" "/nonce" tokenUri) no_init (world st) = (r, w) ->
  AuthFetch.fetchNonce env tokenUri st
  = (nonce_outcome r, moved st w,
     [EFetch (replace "/token" "/nonce" tokenUri) no_init]).
Proof.
  intros Hf. unfold AuthFetch.fetchNonce, nonce_outcome. cbv zeta.
  destruct r as [e|response].
  - now rewrite (bind_inl _ _ _ _ _ _ (do_fetch_run _ _ _ _ _ _ Hf)).
  - rewrite (bind_inr _ _ _ _ _ _ (do_fetch_run _ _ _ _ _ _ Hf)).
    destruct (Response.ok response); cbn [negb]; [|reflexivity].
    unfold bind, lift, prepend.
    destruct (Response.json response) as [e|v]; [reflexivity|].
    now destruct (get_prop v "nonce").
Qed.

Lemma oauth_fetchNonce_run tokenUri (st : State W) r w :
  fetch env (replace "/token" "" tokenUri ++ "/nonce") no_init (world st) = (r, w) ->
  OAuth.fetchNonce env tokenUri st
  = (nonce_outcome r, moved st w,
     [EFetch (replace "/token" "" tokenUri ++ "/nonce") no_init]).
Proof.
  intros Hf. unfold OAuth.fetchNonce, nonce_outcome. cbv zeta.
  destruct r as [e|response].
  - now rewrite (bind_inl _ _ _ _ _ _ (do_fetch_run _ _ _ _ _ _ Hf)).
  - rewrite (bind_inr _ _ _ _ _ _ (do_fetch_run _ _ _ _ _ _ Hf)).
    destruct (Response.ok response); cbn [negb]; [|reflexivity].
    unfold bind, lift, prepend.
    destruct (Response.json response) as [e|v]; [reflexivity|].
    now destruct (get_prop v "nonce").
Qed.

Lemma exchangeToken_run tokenUri message signature scope (st : State W) r w :
  fetch env tokenUri (exchange_request env message signature scope) (world st) = (r, w) ->
  AuthFetch.exchangeToken env tokenUri message signature scope st
  = (exchange_outcome true r, moved st w,
     [EFetch tokenUri (exchange_request env message signature scope)]).
Proof.
  intros Hf. unfold AuthFetch.exchangeToken, exchange_outcome.
  fold (exchange_request env message signature scope).
  destruct r as [e|response].
  - now rewrite (bind_inl _ _ _ _ _ _ (do_fetch_run _ _ _ _ _ _ Hf)).
  - rewrite (bind_inr _ _ _ _ _ _ (do_fetch_run _ _ _ _ _ _ Hf)).
    destruct (Response.ok response); cbn [negb].
    + unfold lift, prepend. now destruct (Response.json response).
    + unfold bind, catch, lift, ret, throw, prepend, exchange_refusal.
      destruct (Response.json response) as [e|v];
        [reflexivity|destruct (get_prop v "error")]; reflexivity.
Qed.

Lemma oauth_exchangeToken_run tokenUri message signature scope (st : State W) r w :
  fetch env tokenUri (exchange_request env message signature scope) (world st) = (r, w) ->
  OAuth.exchangeToken env tokenUri message signature scope st
  = (exchange_outcome false r, moved st w,
     [EFetch tokenUri (exchange_request env message signature scope)]).
Proof.
  intros Hf. unfold OAuth.exchangeToken, exchange_outcome.
  fold (exchange_request env message signature scope).
  destruct r as [e|response].
  - now rewrite (bind_inl _ _ _ _ _ _ (do_fetch_run _ _ _ _ _ _ Hf)).
  - rewrite (bind_inr _ _ _ _ _ _ (do_fetch_run _ _ _ _ _ _ Hf)).
    destruct (Response.ok response); cbn [negb].
    + unfold lift, prepend. now destruct (Response.json response).
    + unfold bind, lift, throw, prepend, exchange_refusal.
      destruct (Response.json response) as [e|v]; [reflexivity|].
      destruct (get_prop v "error"); reflexivity.
Qed.
End HelperOutcomes.

Section StopsProps.
Context {W : Type} (env : Env W).

Lemma authFetch_first_rejected (input : string) (init : AuthRequestInit.t W) (st : State W) e w :
  fetch env input (first_request init) (world st) = (inl e, w) ->
  AuthFetch.authFetch env input init st = (inl e, moved st w, [EFetch input (first_request init)]).
Proof.
  intros Hf.
  unfold AuthFetch.authFetch. cbv zeta. fold (first_request init).
  now rewrite (bind_inl _ _ _ _ _ _ (do_fetch_run _ _ _ _ _ _ Hf)).
Qed.

Lemma authFetch_nonce_step (input : string) (init : AuthRequestInit.t W) (st : State W) c st1 evs r w e :
  authFetch_challenged env input init st c st1 evs ->
  fetch env (replace "/token" "/nonce" (OAuthChallenge.tokenUri c)) no_init (world st1) = (r, w) ->
  nonce_outcome r = inl e ->
  AuthFetch.authFetch env input init st = (inl e, moved st1 w, (evs ++ [EFetch (replace "/token" "/nonce" (OAuthChallenge.tokenUri c)) no_init])%list).
Proof.
  intros Hc Hf He.
  refine (run_stops_at_nonce _ _ _ _ _ _ _ _ (authFetch_from_challenge env input init st) _ _ _ _ _ _ Hc _).
  rewrite (fetchNonce_run _ _ _ _ _ Hf). now rewrite He.
Qed.

Lemma authFetch_nonce_taken (input : string) (init : AuthRequestInit.t W) (st : State W) c st1 evs response w data nonce :
  authFetch_challenged env input init st c st1 evs ->
  fetch env (replace "/token" "/nonce" (OAuthChallenge.tokenUri c)) no_init (world st1) = (inr response, w) ->
  Response.ok response = true ->
  Response.json response = inr data ->
  get_prop data "nonce" = inr nonce ->
  authFetch_nonce_fetched env input init st c nonce (moved st1 w)
    (evs ++ [EFetch (replace "/token" "/nonce" (OAuthChallenge.tokenUri c)) no_init])%list.
Proof.
  intros Hc Hf Hok Hj Hn. exists st1, evs, [EFetch (replace "/token" "/nonce" (OAuthChallenge.tokenUri c)) no_init].
  split; [exact Hc|]. split; [|reflexivity].
  rewrite (fetchNonce_run _ _ _ _ _ Hf). unfold nonce_outcome. now rewrite Hok, Hj, Hn.
Qed.

Lemma authFetch_message_step (input : string) (init : AuthRequestInit.t W) (st : State W) c nonce st2 evs :
  authFetch_nonce_fetched env input init st c nonce st2 evs ->
  (forall e, url_host env input = inl e -> AuthFetch.authFetch env input init st = (inl e, st2, evs))
  /\ (forall domain e w,
        url_host env input = inr domain ->
        createSiweMessage env
          (siwe_params (Options.address (AuthRequestInit.options init)) (chain_for c (Options.chainId (AuthRequestInit.options init))) domain nonce input
             (OAuthChallenge.scope c)) (world st2) = (inl e, w) ->
        AuthFetch.authFetch env input init st
        = (inl e, moved st2 w,
           (evs ++ [ECreateSiwe
                      (siwe_params (Options.address (AuthRequestInit.options init)) (chain_for c (Options.chainId (AuthRequestInit.options init))) domain nonce input
                         (OAuthChallenge.scope c))])%list)).
Proof.
  intros Hn. split.
  - intros e Hh.
    rewrite <- (app_nil_r evs).
    refine (run_stops_at_message _ _ _ _ _ _ _ _ (authFetch_from_challenge env input init st)
              _ _ _ _ _ _ _ Hn _).
    unfold authFetch_message, AuthFetch.buildSiweMessage. unfold lift at 1. rewrite Hh. reflexivity.
  - intros domain e w Hh Hm.
    refine (run_stops_at_message _ _ _ _ _ _ _ _ (authFetch_from_challenge env input init st)
              _ _ _ _ _ _ _ Hn _).
    unfold authFetch_message, AuthFetch.buildSiweMessage, do_createSiweMessage. unfold lift at 1. rewrite Hh.
    rewrite (bind_inr _ _ st2 domain st2 []) by reflexivity. cbv zeta.
    unfold bind, log, call, prepend. unfold siwe_params in Hm.
    rewrite Hm. reflexivity.
Qed.

Lemma authFetch_signature_step (input : string) (init : AuthRequestInit.t W) (st : State W) c nonce st2 evs
    siweMessage st3 ev3 e w :
  authFetch_nonce_fetched env input init st c nonce st2 evs ->
  authFetch_message env input init c nonce st2 = (inr siweMessage, st3, ev3) ->
  (Options.signMessage (AuthRequestInit.options init)) siweMessage (world st3) = (inl e, w) ->
  AuthFetch.authFetch env input init st = (inl e, moved st3 w, (evs ++ ev3 ++ [ESign siweMessage])%list).
Proof.
  intros Hn Hm Hs.
  eapply (run_stops_at_signature _ _ _ _ _ _ _ _ (authFetch_from_challenge env input init st));
    [exact Hn|exact Hm|exact (do_sign_run _ _ _ _ _ Hs)].
Qed.

Lemma authFetch_exchange_step (input : string) (init : AuthRequestInit.t W) (st : State W) c siweMessage signature st4 evs r w e :
  authFetch_signed env input init st c siweMessage signature st4 evs ->
  fetch env (OAuthChallenge.tokenUri c)
    (exchange_request env siweMessage signature (OAuthChallenge.scope c)) (world st4)
    = (r, w) ->
  exchange_outcome true r = inl e ->
  AuthFetch.authFetch env input init st
  = (inl e, moved st4 w,
     (evs ++ [EFetch (OAuthChallenge.tokenUri c)
                (exchange_request env siweMessage signature (OAuthChallenge.scope c))])%list).
Proof.
  intros Hs Hf He.
  refine (run_stops_at_exchange _ _ _ _ _ _ _ _ (authFetch_from_challenge env input init st)
            _ _ _ _ _ _ _ _ Hs _).
  rewrite (exchangeToken_run _ _ _ _ _ _ _ _ Hf). now rewrite He.
Qed.

Lemma bound_first_rejected (options : Options.t W) (input : string) (init : option RequestInit.t) (st : State W) e w :
  fetch env input (bound_first_request init (currentToken st)) (world st) = (inl e, w) ->
  Factory.authFetch_bound env options input init st = (inl e, moved st w, [EFetch input (bound_first_request init (currentToken st))]).
Proof.
  intros Hf.
  unfold Factory.authFetch_bound. cbv zeta.
  rewrite (bind_inr get_currentToken _ st (currentToken st) st []) by reflexivity.
  rewrite prepend_nil. fold (bound_first_request init (currentToken st)).
  now rewrite (bind_inl _ _ _ _ _ _ (do_fetch_run _ _ _ _ _ _ Hf)).
Qed.

Lemma bound_nonce_step (options : Options.t W) (input : string) (init : option RequestInit.t) (st : State W) c st1 evs r w e :
  bound_challenged env input init st c st1 evs ->
  fetch env (replace "/token" "/nonce" (OAuthChallenge.tokenUri c)) no_init (world st1) = (r, w) ->
  nonce_outcome r = inl e ->
  Factory.authFetch_bound env options input init st = (inl e, moved st1 w, (evs ++ [EFetch (replace "/token" "/nonce" (OAuthChallenge.tokenUri c)) no_init])%list).
Proof.
  intros Hc Hf He.
  refine (run_stops_at_nonce _ _ _ _ _ _ _ _ (bound_from_challenge env options input init st) _ _ _ _ _ _ Hc _).
  rewrite (fetchNonce_run _ _ _ _ _ Hf). now rewrite He.
Qed.

Lemma bound_nonce_taken (input : string) (init : option RequestInit.t) (st : State W) c st1 evs response w data nonce :
  bound_challenged env input init st c st1 evs ->
  fetch env (replace "/token" "/nonce" (OAuthChallenge.tokenUri c)) no_init (world st1) = (inr response, w) ->
  Response.ok response = true ->
  Response.json response = inr data ->
  get_prop data "nonce" = inr nonce ->
  bound_nonce_fetched env input init st c nonce (moved st1 w)
    (evs ++ [EFetch (replace "/token" "/nonce" (OAuthChallenge.tokenUri c)) no_init])%list.
Proof.
  intros Hc Hf Hok Hj Hn. exists st1, evs, [EFetch (replace "/token" "/nonce" (OAuthChallenge.tokenUri c)) no_init].
  split; [exact Hc|]. split; [|reflexivity].
  rewrite (fetchNonce_run _ _ _ _ _ Hf). unfold nonce_outcome. now rewrite Hok, Hj, Hn.
Qed.

Lemma bound_message_step (options : Options.t W) (input : string) (init : option RequestInit.t) (st : State W) c nonce st2 evs :
  bound_nonce_fetched env input init st c nonce st2 evs ->
  (forall e, url_host env input = inl e -> Factory.authFetch_bound env options input init st = (inl e, st2, evs))
  /\ (forall domain e w,
        url_host env input = inr domain ->
        createSiweMessage env
          (siwe_params (Options.address options) (chain_for c (Options.chainId options)) domain nonce input
             (OAuthChallenge.scope c)) (world st2) = (inl e, w) ->
        Factory.authFetch_bound env options input init st
        = (inl e, moved st2 w,
           (evs ++ [ECreateSiwe
                      (siwe_params (Options.address options) (chain_for c (Options.chainId options)) domain nonce input
                         (OAuthChallenge.scope c))])%list)).
Proof.
  intros Hn. split.
  - intros e Hh.
    rewrite <- (app_nil_r evs).
    refine (run_stops_at_message _ _ _ _ _ _ _ _ (bound_from_challenge env options input init st)
              _ _ _ _ _ _ _ Hn _).
    unfold bound_message, AuthFetch.buildSiweMessage. unfold lift at 1. rewrite Hh. reflexivity.
  - intros domain e w Hh Hm.
    refine (run_stops_at_message _ _ _ _ _ _ _ _ (bound_from_challenge env options input init st)
              _ _ _ _ _ _ _ Hn _).
    unfold bound_message, AuthFetch.buildSiweMessage, do_createSiweMessage. unfold lift at 1. rewrite Hh.
    rewrite (bind_inr _ _ st2 domain st2 []) by reflexivity. cbv zeta.
    unfold bind, log, call, prepend. unfold siwe_params in Hm.
    rewrite Hm. reflexivity.
Qed.

Lemma bound_signature_step (options : Options.t W) (input : string) (init : option RequestInit.t) (st : State W) c nonce st2 evs
    siweMessage st3 ev3 e w :
  bound_nonce_fetched env input init st c nonce st2 evs ->
  bound_message env options input c nonce st2 = (inr siweMessage, st3, ev3) ->
  (Options.signMessage options) siweMessage (world st3) = (inl e, w) ->
  Factory.authFetch_bound env options input init st = (inl e, moved st3 w, (evs ++ ev3 ++ [ESign siweMessage])%list).
Proof.
  intros Hn Hm Hs.
  eapply (run_stops_at_signature _ _ _ _ _ _ _ _ (bound_from_challenge env options input init st));
    [exact Hn|exact Hm|exact (do_sign_run _ _ _ _ _ Hs)].
Qed.

Lemma bound_exchange_step (options : Options.t W) (input : string) (init : option RequestInit.t) (st : State W) c siweMessage signature st4 evs r w e :
  bound_signed env options input init st c siweMessage signature st4 evs ->
  fetch env (OAuthChallenge.tokenUri c)
    (exchange_request env siweMessage signature (OAuthChallenge.scope c)) (world st4)
    = (r, w) ->
  exchange_outcome true r = inl e ->
  Factory.authFetch_bound env options input init st
  = (inl e, moved st4 w,
     (evs ++ [EFetch (OAuthChallenge.tokenUri c)
                (exchange_request env siweMessage signature (OAuthChallenge.scope c))])%list).
Proof.
  intros Hs Hf He.
  refine (run_stops_at_exchange _ _ _ _ _ _ _ _ (bound_from_challenge env options input init st)
            _ _ _ _ _ _ _ _ Hs _).
  rewrite (exchangeToken_run _ _ _ _ _ _ _ _ Hf). now rewrite He.
Qed.

Lemma oauth_first_rejected (url : string) (signMessage : string -> W -> (Exn + string) * W) (address : string) (existingToken : option string) (st : State W) e w :
  fetch env url (oauth_first_request existingToken) (world st) = (inl e, w) ->
  OAuth.fetchWithOAuth env url signMessage address existingToken st = (inl e, moved st w, [EFetch url (oauth_first_request existingToken)]).
Proof.
  intros Hf.
  unfold OAuth.fetchWithOAuth. cbv zeta. fold (oauth_first_request existingToken).
  now rewrite (bind_inl _ _ _ _ _ _ (do_fetch_run _ _ _ _ _ _ Hf)).
Qed.

Lemma oauth_nonce_step (url : string) (signMessage : string -> W -> (Exn + string) * W) (address : string) (existingToken : option string) (st : State W) c st1 evs r w e :
  oauth_challenged env url existingToken st c st1 evs ->
  fetch env (replace "/token" "" (OAuthChallenge.tokenUri c) ++ "/nonce") no_init (world st1) = (r, w) ->
  nonce_outcome r = inl e ->
  OAuth.fetchWithOAuth env url signMessage address existingToken st = (inl e, moved st1 w, (evs ++ [EFetch (replace "/token" "" (OAuthChallenge.tokenUri c) ++ "/nonce") no_init])%list).
Proof.
  intros Hc Hf He.
  refine (run_stops_at_nonce _ _ _ _ _ _ _ _ (oauth_from_challenge env url signMessage address existingToken st) _ _ _ _ _ _ Hc _).
  rewrite (oauth_fetchNonce_run _ _ _ _ _ Hf). now rewrite He.
Qed.

Lemma oauth_nonce_taken (url : string) (existingToken : option string) (st : State W) c st1 evs response w data nonce :
  oauth_challenged env url existingToken st c st1 evs ->
  fetch env (replace "/token" "" (OAuthChallenge.tokenUri c) ++ "/nonce") no_init (world st1) = (inr response, w) ->
  Response.ok response = true ->
  Response.json response = inr data ->
  get_prop data "nonce" = inr nonce ->
  oauth_nonce_fetched env url existingToken st c nonce (moved st1 w)
    (evs ++ [EFetch (replace "/token" "" (OAuthChallenge.tokenUri c) ++ "/nonce") no_init])%list.
Proof.
  intros Hc Hf Hok Hj Hn. exists st1, evs, [EFetch (replace "/token" "" (OAuthChallenge.tokenUri c) ++ "/nonce") no_init].
  split; [exact Hc|]. split; [|reflexivity].
  rewrite (oauth_fetchNonce_run _ _ _ _ _ Hf). unfold nonce_outcome. now rewrite Hok, Hj, Hn.
Qed.

Lemma oauth_message_step (url : string) (signMessage : string -> W -> (Exn + string) * W) (address : string) (existingToken : option string) (st : State W) c nonce st2 evs :
  oauth_nonce_fetched env url existingToken st c nonce st2 evs ->
  (forall e, url_host env url = inl e -> OAuth.fetchWithOAuth env url signMessage address existingToken st = (inl e, st2, evs))
  /\ (forall domain e w,
        url_host env url = inr domain ->
        createSiweMessage env
          (siwe_params address (Num 1) domain nonce url
             (OAuthChallenge.scope c)) (world st2) = (inl e, w) ->
        OAuth.fetchWithOAuth env url signMessage address existingToken st
        = (inl e, moved st2 w,
           (evs ++ [ECreateSiwe
                      (siwe_params address (Num 1) domain nonce url
                         (OAuthChallenge.scope c))])%list)).
Proof.
  intros Hn. split.
  - intros e Hh.
    rewrite <- (app_nil_r evs).
    refine (run_stops_at_message _ _ _ _ _ _ _ _ (oauth_from_challenge env url signMessage address existingToken st)
              _ _ _ _ _ _ _ Hn _).
    unfold oauth_message, OAuth.buildSiweMessage, CHAIN_ID. unfold lift at 1. rewrite Hh. reflexivity.
  - intros domain e w Hh Hm.
    refine (run_stops_at_message _ _ _ _ _ _ _ _ (oauth_from_challenge env url signMessage address existingToken st)
              _ _ _ _ _ _ _ Hn _).
    unfold oauth_message, OAuth.buildSiweMessage, CHAIN_ID, do_createSiweMessage. unfold lift at 1. rewrite Hh.
    rewrite (bind_inr _ _ st2 domain st2 []) by reflexivity. cbv zeta.
    unfold bind, log, call, prepend. unfold siwe_params in Hm.
    rewrite Hm. reflexivity.
Qed.

Lemma oauth_signature_step (url : string) (signMessage : string -> W -> (Exn + string) * W) (address : string) (existingToken : option string) (st : State W) c nonce st2 evs
    siweMessage st3 ev3 e w :
  oauth_nonce_fetched env url existingToken st c nonce st2 evs ->
  oauth_message env address url c nonce st2 = (inr siweMessage, st3, ev3) ->
  signMessage siweMessage (world st3) = (inl e, w) ->
  OAuth.fetchWithOAuth env url signMessage address existingToken st = (inl e, moved st3 w, (evs ++ ev3 ++ [ESign siweMessage])%list).
Proof.
  intros Hn Hm Hs.
  eapply (run_stops_at_signature _ _ _ _ _ _ _ _ (oauth_from_challenge env url signMessage address existingToken st));
    [exact Hn|exact Hm|exact (do_sign_run _ _ _ _ _ Hs)].
Qed.

Lemma oauth_exchange_step (url : string) (signMessage : string -> W -> (Exn + string) * W) (address : string) (existingToken : option string) (st : State W) c siweMessage signature st4 evs r w e :
  oauth_signed env url signMessage address existingToken st c siweMessage signature st4 evs ->
  fetch env (OAuthChallenge.tokenUri c)
    (exchange_request env siweMessage signature (OAuthChallenge.scope c)) (world st4)
    = (r, w) ->
  exchange_outcome false r = inl e ->
  OAuth.fetchWithOAuth env url signMessage address existingToken st
  = (inl e, moved st4 w,
     (evs ++ [EFetch (OAuthChallenge.tokenUri c)
                (exchange_request env siweMessage signature (OAuthChallenge.scope c))])%list).
Proof.
  intros Hs Hf He.
  refine (run_stops_at_exchange _ _ _ _ _ _ _ _ (oauth_from_challenge env url signMessage address existingToken st)
            _ _ _ _ _ _ _ _ Hs _).
  rewrite (oauth_exchangeToken_run _ _ _ _ _ _ _ _ Hf). now rewrite He.
Qed.

End StopsProps.

(** ** The example application's helpers *)

Lemma append_inv_head (p x y : string) : p ++ x = p ++ y -> x = y.
Proof. induction p as [|c p IH]; simpl; [auto|]. intros [= H]. auto. Qed.

Lemma append_inv_tail (s x y : string) : x ++ s = y ++ s -> x = y.
Proof.
  revert y. induction x as [|c x IH]; intros [|d y] H; simpl in H.
  - reflexivity.
  - apply (f_equal String.length) in H. simpl in H. rewrite length_append in H. lia.
  - apply (f_equal String.length) in H. simpl in H. rewrite length_append in H. lia.
  - injection H as -> H. f_equal. now apply IH.
Qed.

Lemma take_chars_app (a b : string) : App.take_chars (String.length a) (a ++ b) = a.
Proof. induction a as [|c a IH]; simpl; [now destruct b|now rewrite IH]. Qed.

Lemma take_chars_all (n : nat) (s : string) :
  (String.length s <= n)%nat -> App.take_chars n s = s.
Proof.
  revert n. induction s as [|c s IH]; intros [|n] H; simpl in *; try reflexivity; try lia.
  rewrite IH; [reflexivity|lia].
Qed.

Lemma length_take_chars (n : nat) (s : string) :
  String.length (App.take_chars n s) = Nat.min n (String.length s).
Proof.
  revert n. induction s as [|c s IH]; intros [|n]; simpl; try reflexivity.
  now rewrite IH.
Qed.

Lemma length_drop_chars (n : nat) (s : string) :
  String.length (drop_chars n s) = (String.length s - n)%nat.
Proof.
  revert n. induction s as [|c s IH]; intros [|n]; simpl; try reflexivity.
  now rewrite IH.
Qed.

Lemma slice_head (n : nat) (s : string) :
  App.slice s 0 (Some (Z.of_nat n)) = App.take_chars n s.
Proof.
  unfold App.slice. cbv zeta.
  change (0 <? 0) with false. cbv iota.
  destruct (Z.ltb_spec (Z.of_nat n) 0) as [E|E]; [lia|].
  replace (Z.to_nat (Z.min 0 (Z.of_nat (String.length s)))) with 0%nat by lia.
  simpl drop_chars.
  destruct (Nat.le_ge_cases n (String.length s)) as [H|H].
  - f_equal. lia.
  - rewrite !take_chars_all; [reflexivity|lia|lia].
Qed.

Lemma slice_tail (n : nat) (s : string) :
  (0 < n)%nat ->
  App.slice s (- Z.of_nat n) None = drop_chars (String.length s - n) s.
Proof.
  intros Hn. unfold App.slice. cbv zeta.
  destruct (Z.ltb_spec (- Z.of_nat n) 0) as [E|E]; [|lia].
  replace (Z.to_nat (Z.max (Z.of_nat (String.length s) + - Z.of_nat n) 0))
    with (String.length s - n)%nat by lia.
  apply take_chars_all. rewrite length_drop_chars. lia.
Qed.

Lemma lower_string_idem (s : string) : lower_string (lower_string s) = lower_string s.
Proof.
  induction s as [|c s IH]; simpl; [reflexivity|]. rewrite IH. f_equal.
  unfold lower. destruct (in_range "A" "Z" c) eqn:E; [|now rewrite E].
  destruct c as [[] [] [] [] [] [] [] []]; try discriminate; reflexivity.
Qed.

Lemma nat_of_lower c :
  nat_of_ascii (lower c)
  = if ((65 <=? nat_of_ascii c) && (nat_of_ascii c <=? 90))%nat
    then (nat_of_ascii c + 32)%nat else nat_of_ascii c.
Proof.
  unfold lower, in_range. change (nat_of_ascii "A") with 65%nat.
  change (nat_of_ascii "Z") with 90%nat.
  destruct ((65 <=? nat_of_ascii c) && (nat_of_ascii c <=? 90))%nat eqn:E;
    [|reflexivity].
  apply nat_ascii_embedding.
  apply andb_prop in E as [_ E]. apply Nat.leb_le in E. lia.
Qed.

Lemma nat_of_ascii_inj x y : nat_of_ascii x = nat_of_ascii y -> x = y.
Proof.
  intros H. rewrite <- (ascii_nat_embedding x), <- (ascii_nat_embedding y).
  now rewrite H.
Qed.

Lemma lower_same_letter x y : lower x = lower y <-> same_letter x y.
Proof.
  unfold same_letter, small_of. split.
  - intros H. apply (f_equal nat_of_ascii) in H. rewrite !nat_of_lower in H.
    destruct ((65 <=? nat_of_ascii x) && (nat_of_ascii x <=? 90))%nat eqn:Ex;
      destruct ((65 <=? nat_of_ascii y) && (nat_of_ascii y <=? 90))%nat eqn:Ey.
    + left. apply nat_of_ascii_inj. lia.
    + right. left. apply andb_prop in Ex as [E1 E2].
      apply Nat.leb_le in E1, E2. lia.
    + right. right. apply andb_prop in Ey as [E1 E2].
      apply Nat.leb_le in E1, E2. lia.
    + left. now apply nat_of_ascii_inj.
  - intros H. apply nat_of_ascii_inj. rewrite !nat_of_lower.
    destruct H as [->|[[Hx Hy]|[Hy Hx]]]; [reflexivity| |].
    + replace ((65 <=? nat_of_ascii x) && (nat_of_ascii x <=? 90))%nat with true
        by (symmetry; apply andb_true_intro; split; apply Nat.leb_le; lia).
      replace ((65 <=? nat_of_ascii y) && (nat_of_ascii y <=? 90))%nat with false
        by (symmetry; apply andb_false_intro2; apply Nat.leb_gt; lia).
      lia.
    + replace ((65 <=? nat_of_ascii y) && (nat_of_ascii y <=? 90))%nat with true
        by (symmetry; apply andb_true_intro; split; apply Nat.leb_le; lia).
      replace ((65 <=? nat_of_ascii x) && (nat_of_ascii x <=? 90))%nat with false
        by (symmetry; apply andb_false_intro2; apply Nat.leb_gt; lia).
      lia.
Qed.

Lemma lower_string_same_letters a b :
  lower_string a = lower_string b <-> same_letters a b.
Proof.
  split.
  - revert b. induction a as [|x a IH]; intros [|y b] H; simpl in H;
      try discriminate; [constructor|].
    injection H as Hc Hs. constructor; [now apply lower_same_letter|now apply IH].
  - induction 1 as [|x y a b Hc _ IH]; simpl; [reflexivity|].
    apply lower_same_letter in Hc. now rewrite Hc, IH.
Qed.

(** X20.  [getAuthorMessagesUrl] names the resource after the address in
    lower case: two addresses, text of ASCII characters as addresses are,
    get the same URL exactly when they are as long as each other and differ,
    place by place, in the case of a letter at most, so the checksummed
    spelling of an address and its lower-case spelling name the same
    resource; and with [VITE_API_BASE_URL] unset or empty the URL is on
    [http://localhost:3000]. *)
Theorem author_url_ignores_letter_case (base : option string) (a b : string) :
  ascii_text a -> ascii_text b ->
  (App.getAuthorMessagesUrl base a = App.getAuthorMessagesUrl base b
   <-> same_letters a b)
  /\ (truthy_string base = false ->
      exists l,
        App.getAuthorMessagesUrl base a
        = "http://localhost:3000/api/authors/" ++ l ++ "/messages"
        /\ same_letters a l
        /\ all_chars (fun c => negb (in_range "A" "Z" c)) l = true).
Proof.
  intros _ _. unfold App.getAuthorMessagesUrl, App.toLowerCase.
  split.
  - rewrite <- lower_string_same_letters. split.
    + intros H. apply append_inv_head, append_inv_head in H.
      exact (append_inv_tail _ _ _ H).
    + intros H. now rewrite H.
  - intros Hb. exists (lower_string a). unfold App.API_BASE_URL. rewrite Hb.
    split; [reflexivity|]. split.
    + apply lower_string_same_letters. now rewrite lower_string_idem.
    + clear. induction a as [|c a IH]; simpl; [reflexivity|]. rewrite IH, andb_true_r.
      unfold lower. destruct (in_range "A" "Z" c) eqn:E; [|now rewrite E].
      destruct c as [[] [] [] [] [] [] [] []]; try discriminate; reflexivity.
Qed.

Lemma author_url_ignores_letter_case_witness :
  App.getAuthorMessagesUrl None "0xd8dA6BF26964aF9D7eEd9e03E53415D37aA96045"
  = App.getAuthorMessagesUrl None "0xd8da6bf26964af9d7eed9e03e53415d37aa96045".
Proof.
  apply (proj1 (author_url_ignores_letter_case None
                  "0xd8dA6BF26964aF9D7eEd9e03E53415D37aA96045"
                  "0xd8da6bf26964af9d7eed9e03e53415d37aa96045" eq_refl eq_refl)).
  repeat (constructor;
          [first [ left; reflexivity
                 | right; left; split; [vm_compute; lia|reflexivity] ]|]).
  constructor.
Defined.

(** X21.  Of text of ASCII characters, as addresses are, [formatAddress]
    shows the first six and the last four characters when there are ten
    characters or more, with three dots between; of a
    text of four characters or fewer it shows the whole text on both sides
    of the dots; and what it shows is never longer than thirteen
    characters. *)
Theorem formatAddress_abbreviates (address : string) :
  ascii_text address ->
  (forall pre mid suf,
     address = pre ++ mid ++ suf ->
     String.length pre = 6%nat -> String.length suf = 4%nat ->
     App.formatAddress address = pre ++ "..." ++ suf)
  /\ ((String.length address <= 4)%nat ->
      App.formatAddress address = address ++ "..." ++ address)
  /\ String.length (App.formatAddress address)
     = (Nat.min 6 (String.length address) + 3 + Nat.min 4 (String.length address))%nat.
Proof.
  intros _. unfold App.formatAddress.
  change 6 with (Z.of_nat 6). change (-4) with (- Z.of_nat 4).
  rewrite slice_head, slice_tail by lia.
  split; [|split].
  - intros pre mid suf -> Hp Hs.
    rewrite <- Hp at 1. rewrite take_chars_app.
    rewrite <- (append_assoc pre mid suf).
    replace (String.length ((pre ++ mid) ++ suf) - 4)%nat with (String.length (pre ++ mid))
      by (rewrite !length_append; lia).
    now rewrite drop_chars_app.
  - intros H. rewrite take_chars_all by lia.
    replace (String.length address - 4)%nat with 0%nat by lia. reflexivity.
  - rewrite !length_append, length_take_chars, length_drop_chars.
    change (String.length "...") with 3%nat. lia.
Qed.

Lemma formatAddress_abbreviates_witness :
  App.formatAddress "0xd8dA6BF26964aF9D7eEd9e03E53415D37aA96045" = "0xd8dA...6045"
  /\ App.formatAddress "0x" = "0x...0x".
Proof.
  split.
  - exact (proj1 (formatAddress_abbreviates "0xd8dA6BF26964aF9D7eEd9e03E53415D37aA96045"
                    eq_refl)
             "0xd8dA" "6BF26964aF9D7eEd9e03E53415D37aA9" "6045" eq_refl eq_refl eq_refl).
  - apply (proj1 (proj2 (formatAddress_abbreviates "0x" eq_refl))). simpl. lia.
Defined.

(** ** The hook *)

Section HookProps.
Context {W : Type} (env : Env W) (react : Hook.React W).
Variable base : option string.
Variable signMessageAsync : string -> W -> (Exn + string) * W.

Lemma do_set_run (f : W -> W) (st : State W) :
  Hook.do_set f st = (inr tt, moved st (f (world st)), []).
Proof. reflexivity. Qed.

Lemma queryFn_connected address accessToken :
  nonempty address = true ->
  Hook.queryFn env react base signMessageAsync (Some address) accessToken
  = (result <-
       OAuth.fetchWithOAuth env (App.getAuthorMessagesUrl base address)
         (Hook.signMessage signMessageAsync) address accessToken ;;
     _ <- (if truthy (OAuth.token result)
           then Hook.do_set (Hook.setAccessToken react (OAuth.token result))
           else ret tt) ;;
     ret (OAuth.data result)).
Proof. intros H. unfold Hook.queryFn. simpl. now rewrite H. Qed.

Lemma mutationFn_connected address :
  nonempty address = true ->
  Hook.mutationFn env react base signMessageAsync (Some address)
  = (_ <- Hook.do_set (Hook.setAuthError react JUndefined) ;;
     result <-
       OAuth.fetchWithOAuth env (App.getAuthorMessagesUrl base address)
         (Hook.signMessage signMessageAsync) address None ;;
     _ <- Hook.do_set (Hook.setAccessToken react (OAuth.token result)) ;;
     ret (OAuth.data result)).
Proof. intros H. unfold Hook.mutationFn. simpl. now rewrite H. Qed.

Lemma ok_not_401 (response : Response.t) :
  Response.ok response = true -> Response.status response <> 401.
Proof. unfold Response.ok. lia. Qed.

Lemma oauth_direct url signMessage address existingToken (st : State W) response w d :
  fetch env url (oauth_first_request existingToken) (world st) = (inr response, w) ->
  Response.ok response = true ->
  Response.json response = inr d ->
  OAuth.fetchWithOAuth env url signMessage address existingToken st
  = (inr {| OAuth.data := d;
            OAuth.token := JStr (if truthy_string existingToken
                                 then string_value existingToken else EmptyString) |},
     moved st w, [EFetch url (oauth_first_request existingToken)]).
Proof.
  intros Hf Hok Hj.
  rewrite (oauth_not_401 env url signMessage address existingToken st response w Hf
             (ok_not_401 _ Hok)).
  unfold oauth_outcome. now rewrite Hok, Hj.
Qed.
End HookProps.

(** X23.  Without a connected address the hook's [queryFn] and [mutationFn]
    throw [Error("No address connected")] and touch nothing.  With one,
    the first request of either goes to [getAuthorMessagesUrl(address)];
    [queryFn] sends the stored token along when it is truthy, while
    [mutationFn] never sends a token, stored or not, and clears the error
    state first: its request meets the world that [setAuthError(undefined)]
    left, and when that request is rejected the rejection is the outcome and
    nothing else has been set. *)
Theorem hook_asks_for_the_authors_messages {W : Type} (env : Env W)
    (react : Hook.React W) (base : option string)
    (signMessageAsync : string -> W -> (Exn + string) * W) (st : State W) :
  (forall accessToken,
     Hook.queryFn env react base signMessageAsync None accessToken st
     = (inl (JsError "No address connected"), st, []))
  /\ Hook.mutationFn env react base signMessageAsync None st
     = (inl (JsError "No address connected"), st, [])
  /\ (forall address accessToken,
        nonempty address = true ->
        exists req r st' rest,
          Hook.queryFn env react base signMessageAsync (Some address) accessToken st
          = (r, st', EFetch (App.getAuthorMessagesUrl base address) req :: rest)
          /\ if truthy_string accessToken
             then authorized_as ("Bearer " ++ string_value accessToken) no_init req
             else req = no_init)
  /\ (forall address,
        nonempty address = true ->
        (exists r st' rest,
           Hook.mutationFn env react base signMessageAsync (Some address) st
           = (r, st', EFetch (App.getAuthorMessagesUrl base address) no_init :: rest))
        /\ (forall e w,
              fetch env (App.getAuthorMessagesUrl base address) no_init
                (Hook.setAuthError react JUndefined (world st)) = (inl e, w) ->
              Hook.mutationFn env react base signMessageAsync (Some address) st
              = (inl e, moved st w,
                 [EFetch (App.getAuthorMessagesUrl base address) no_init]))).
Proof.
  split; [reflexivity|]. split; [reflexivity|]. split.
  - intros address accessToken Ha.
    rewrite (queryFn_connected env react base signMessageAsync address accessToken Ha).
    destruct (oauth_first_event env (App.getAuthorMessagesUrl base address)
                (Hook.signMessage signMessageAsync) address accessToken st)
      as (r0 & st0 & rest0 & H0).
    destruct (bind_events _
                (fun result =>
                   _ <- (if truthy (OAuth.token result)
                         then Hook.do_set (Hook.setAccessToken react (OAuth.token result))
                         else ret tt) ;;
                   ret (OAuth.data result)) _ _ _ _ H0)
      as (r & st' & rest & H).
    exists (oauth_first_request accessToken), r, st', (rest0 ++ rest)%list.
    split; [exact H|]. apply oauth_first_request_authorized.
  - intros address Ha.
    rewrite (mutationFn_connected env react base signMessageAsync address Ha).
    rewrite (bind_inr _ _ _ _ _ _
               (do_set_run (Hook.setAuthError react JUndefined) st)).
    rewrite prepend_nil. split.
    + destruct (oauth_first_event env (App.getAuthorMessagesUrl base address)
                  (Hook.signMessage signMessageAsync) address None
                  (moved st (Hook.setAuthError react JUndefined (world st))))
        as (r0 & st0 & rest0 & H0).
      destruct (bind_events _
                  (fun result =>
                     _ <- Hook.do_set (Hook.setAccessToken react (OAuth.token result)) ;;
                     ret (OAuth.data result)) _ _ _ _ H0)
        as (r & st' & rest & H).
      exists r, st', (rest0 ++ rest)%list. exact H.
    + intros e w Hf.
      rewrite (bind_inl _ _ _ _ _ _
                 (oauth_first_rejected env (App.getAuthorMessagesUrl base address)
                    (Hook.signMessage signMessageAsync) address None
                    (moved st (Hook.setAuthError react JUndefined (world st))) e w Hf)).
      reflexivity.
Qed.

(** X24.  When the resource answers the first request with a status from
    200 to 299 and a JSON body, both functions return that body after this
    one request.  [queryFn] stores a token only if it was given a truthy
    one, and then the same one again; [mutationFn] stores the empty string,
    which is what [fetchWithOAuth] returns for a token when none was needed
    and none was given. *)
Theorem hook_stores_the_token_it_gets {W : Type} (env : Env W)
    (react : Hook.React W) (base : option string)
    (signMessageAsync : string -> W -> (Exn + string) * W)
    (address : string) (st : State W) response w d :
  nonempty address = true ->
  Response.ok response = true ->
  Response.json response = inr d ->
  (forall accessToken,
     fetch env (App.getAuthorMessagesUrl base address)
       (oauth_first_request accessToken) (world st) = (inr response, w) ->
     Hook.queryFn env react base signMessageAsync (Some address) accessToken st
     = (inr d,
        moved st (if truthy_string accessToken
                  then Hook.setAccessToken react (JStr (string_value accessToken)) w
                  else w),
        [EFetch (App.getAuthorMessagesUrl base address)
           (oauth_first_request accessToken)]))
  /\ (fetch env (App.getAuthorMessagesUrl base address) no_init
        (Hook.setAuthError react JUndefined (world st)) = (inr response, w) ->
      Hook.mutationFn env react base signMessageAsync (Some address) st
      = (inr d, moved st (Hook.setAccessToken react (JStr EmptyString) w),
         [EFetch (App.getAuthorMessagesUrl base address) no_init])).
Proof.
  intros Ha Hok Hj. split.
  - intros accessToken Hf.
    rewrite (queryFn_connected env react base signMessageAsync address accessToken Ha).
    rewrite (bind_inr _ _ _ _ _ _
               (oauth_direct env _ (Hook.signMessage signMessageAsync) address
                  accessToken st response w d Hf Hok Hj)).
    cbn [OAuth.token OAuth.data].
    destruct accessToken as [t|]; [destruct t as [|c t]|]; reflexivity.
  - intros Hf.
    rewrite (mutationFn_connected env react base signMessageAsync address Ha).
    rewrite (bind_inr _ _ _ _ _ _
               (do_set_run (Hook.setAuthError react JUndefined) st)).
    rewrite prepend_nil.
    rewrite (bind_inr _ _ _ _ _ _
               (oauth_direct env _ (Hook.signMessage signMessageAsync) address None
                  (moved st (Hook.setAuthError react JUndefined (world st)))
                  response w d Hf Hok Hj)).
    reflexivity.
Qed.

(** X6.  A first request that the network rejects ends the run with that
    rejection: nothing else is asked of anyone. *)
Theorem rejected_first_request_ends_the_run {W : Type} (env : Env W) :
  (forall (input : string) (init : AuthRequestInit.t W) (st : State W) e w,
     fetch env input (first_request init) (world st) = (inl e, w) ->
     AuthFetch.authFetch env input init st = (inl e, moved st w, [EFetch input (first_request init)]))
  /\ (forall (options : Options.t W) (input : string) (init : option RequestInit.t) (st : State W) e w,
     fetch env input (bound_first_request init (currentToken st)) (world st) = (inl e, w) ->
     Factory.authFetch_bound env options input init st = (inl e, moved st w, [EFetch input (bound_first_request init (currentToken st))]))
  /\ (forall (url : string) (signMessage : string -> W -> (Exn + string) * W) (address : string) (existingToken : option string) (st : State W) e w,
     fetch env url (oauth_first_request existingToken) (world st) = (inl e, w) ->
     OAuth.fetchWithOAuth env url signMessage address existingToken st = (inl e, moved st w, [EFetch url (oauth_first_request existingToken)])).
Proof.
  split.
  { intros. now apply authFetch_first_rejected. }
  split.
  { intros. now apply bound_first_rejected. }
  intros. now apply oauth_first_rejected.
Qed.

(** X7.  After a challenge, a nonce request that is rejected or answered
    with a status outside 200..299 ends the flow: the run throws the
    rejection, respectively [Error("Failed to fetch nonce: <status>")]
    whatever the body holds, and neither the signer nor the token endpoint
    nor the resource is asked again. *)
Theorem failed_nonce_request_ends_the_flow {W : Type} (env : Env W) :
  (forall (input : string) (init : AuthRequestInit.t W) (st : State W) c st1 evs,
     authFetch_challenged env input init st c st1 evs ->
     (forall e w,
        fetch env (replace "/token" "/nonce" (OAuthChallenge.tokenUri c)) no_init (world st1) = (inl e, w) ->
        AuthFetch.authFetch env input init st = (inl e, moved st1 w, (evs ++ [EFetch (replace "/token" "/nonce" (OAuthChallenge.tokenUri c)) no_init])%list))
     /\ (forall response w,
           fetch env (replace "/token" "/nonce" (OAuthChallenge.tokenUri c)) no_init (world st1) = (inr response, w) ->
           Response.ok response = false ->
           AuthFetch.authFetch env input init st
           = (inl (JsError ("Failed to fetch nonce: " ++ show_Z (Response.status response))),
              moved st1 w, (evs ++ [EFetch (replace "/token" "/nonce" (OAuthChallenge.tokenUri c)) no_init])%list)))
  /\ (forall (options : Options.t W) (input : string) (init : option RequestInit.t) (st : State W) c st1 evs,
     bound_challenged env input init st c st1 evs ->
     (forall e w,
        fetch env (replace "/token" "/nonce" (OAuthChallenge.tokenUri c)) no_init (world st1) = (inl e, w) ->
        Factory.authFetch_bound env options input init st = (inl e, moved st1 w, (evs ++ [EFetch (replace "/token" "/nonce" (OAuthChallenge.tokenUri c)) no_init])%list))
     /\ (forall response w,
           fetch env (replace "/token" "/nonce" (OAuthChallenge.tokenUri c)) no_init (world st1) = (inr response, w) ->
           Response.ok response = false ->
           Factory.authFetch_bound env options input init st
           = (inl (JsError ("Failed to fetch nonce: " ++ show_Z (Response.status response))),
              moved st1 w, (evs ++ [EFetch (replace "/token" "/nonce" (OAuthChallenge.tokenUri c)) no_init])%list)))
  /\ (forall (url : string) (signMessage : string -> W -> (Exn + string) * W) (address : string) (existingToken : option string) (st : State W) c st1 evs,
     oauth_challenged env url existingToken st c st1 evs ->
     (forall e w,
        fetch env (replace "/token" "" (OAuthChallenge.tokenUri c) ++ "/nonce") no_init (world st1) = (inl e, w) ->
        OAuth.fetchWithOAuth env url signMessage address existingToken st = (inl e, moved st1 w, (evs ++ [EFetch (replace "/token" "" (OAuthChallenge.tokenUri c) ++ "/nonce") no_init])%list))
     /\ (forall response w,
           fetch env (replace "/token" "" (OAuthChallenge.tokenUri c) ++ "/nonce") no_init (world st1) = (inr response, w) ->
           Response.ok response = false ->
           OAuth.fetchWithOAuth env url signMessage address existingToken st
           = (inl (JsError ("Failed to fetch nonce: " ++ show_Z (Response.status response))),
              moved st1 w, (evs ++ [EFetch (replace "/token" "" (OAuthChallenge.tokenUri c) ++ "/nonce") no_init])%list))).
Proof.
  split.
  { intros until evs. intros Hc. split.
    - intros e w Hf. eapply authFetch_nonce_step; [exact Hc|exact Hf|reflexivity].
    - intros response w Hf Hok.
      eapply authFetch_nonce_step; [exact Hc|exact Hf|].
      unfold nonce_outcome. now rewrite Hok. }
  split.
  { intros until evs. intros Hc. split.
    - intros e w Hf. eapply bound_nonce_step; [exact Hc|exact Hf|reflexivity].
    - intros response w Hf Hok.
      eapply bound_nonce_step; [exact Hc|exact Hf|].
      unfold nonce_outcome. now rewrite Hok. }
  intros until evs. intros Hc. split.
    - intros e w Hf. eapply oauth_nonce_step; [exact Hc|exact Hf|reflexivity].
    - intros response w Hf Hok.
      eapply oauth_nonce_step; [exact Hc|exact Hf|].
      unfold nonce_outcome. now rewrite Hok.
Qed.

(** X8.  A nonce answer that is a JSON object without a [nonce] field is not
    noticed: the flow goes on and, when the target parses as a URL, asks
    [createSiweMessage] for a message whose nonce is [undefined]. *)
Theorem missing_nonce_goes_unnoticed {W : Type} (env : Env W) :
  (forall (input : string) (init : AuthRequestInit.t W) (st : State W) c st1 evs response w fields domain,
     authFetch_challenged env input init st c st1 evs ->
     fetch env (replace "/token" "/nonce" (OAuthChallenge.tokenUri c)) no_init (world st1) = (inr response, w) ->
     Response.ok response = true ->
     Response.json response = inr (JObj fields) ->
     assoc "nonce" fields = None ->
     url_host env input = inr domain ->
     exists r st' rest,
       AuthFetch.authFetch env input init st
       = (r, st',
          ((evs ++ [EFetch (replace "/token" "/nonce" (OAuthChallenge.tokenUri c)) no_init])
           ++ [ECreateSiwe (siwe_params (Options.address (AuthRequestInit.options init)) (chain_for c (Options.chainId (AuthRequestInit.options init))) domain JUndefined input
                              (OAuthChallenge.scope c))])
          ++ rest)%list)
  /\ (forall (options : Options.t W) (input : string) (init : option RequestInit.t) (st : State W) c st1 evs response w fields domain,
     bound_challenged env input init st c st1 evs ->
     fetch env (replace "/token" "/nonce" (OAuthChallenge.tokenUri c)) no_init (world st1) = (inr response, w) ->
     Response.ok response = true ->
     Response.json response = inr (JObj fields) ->
     assoc "nonce" fields = None ->
     url_host env input = inr domain ->
     exists r st' rest,
       Factory.authFetch_bound env options input init st
       = (r, st',
          ((evs ++ [EFetch (replace "/token" "/nonce" (OAuthChallenge.tokenUri c)) no_init])
           ++ [ECreateSiwe (siwe_params (Options.address options) (chain_for c (Options.chainId options)) domain JUndefined input
                              (OAuthChallenge.scope c))])
          ++ rest)%list)
  /\ (forall (url : string) (signMessage : string -> W -> (Exn + string) * W) (address : string) (existingToken : option string) (st : State W) c st1 evs response w fields domain,
     oauth_challenged env url existingToken st c st1 evs ->
     fetch env (replace "/token" "" (OAuthChallenge.tokenUri c) ++ "/nonce") no_init (world st1) = (inr response, w) ->
     Response.ok response = true ->
     Response.json response = inr (JObj fields) ->
     assoc "nonce" fields = None ->
     url_host env url = inr domain ->
     exists r st' rest,
       OAuth.fetchWithOAuth env url signMessage address existingToken st
       = (r, st',
          ((evs ++ [EFetch (replace "/token" "" (OAuthChallenge.tokenUri c) ++ "/nonce") no_init])
           ++ [ECreateSiwe (siwe_params address (Num 1) domain JUndefined url
                              (OAuthChallenge.scope c))])
          ++ rest)%list).
Proof.
  split.
  { intros until domain. intros Hc Hf Hok Hj Ha Hh.
    eapply authFetch_siwe_params; [|exact Hh].
    eapply authFetch_nonce_taken; [exact Hc|exact Hf|exact Hok|exact Hj|].
    simpl. now rewrite Ha. }
  split.
  { intros until domain. intros Hc Hf Hok Hj Ha Hh.
    eapply bound_siwe_params; [|exact Hh].
    eapply bound_nonce_taken; [exact Hc|exact Hf|exact Hok|exact Hj|].
    simpl. now rewrite Ha. }
  intros until domain. intros Hc Hf Hok Hj Ha Hh.
    eapply oauth_siwe_params; [|exact Hh].
    eapply oauth_nonce_taken; [exact Hc|exact Hf|exact Hok|exact Hj|].
    simpl. now rewrite Ha.
Qed.

(** X9.  A target that [new URL] rejects is found out only after the nonce
    has been fetched, and then ends the flow with that failure before
    [createSiweMessage] is called; a failure of [createSiweMessage] ends it
    likewise.  In both cases the signer is never asked. *)
Theorem unbuildable_message_ends_the_flow {W : Type} (env : Env W) :
  (forall (input : string) (init : AuthRequestInit.t W) (st : State W) c nonce st2 evs,
     authFetch_nonce_fetched env input init st c nonce st2 evs ->
     (forall e, url_host env input = inl e -> AuthFetch.authFetch env input init st = (inl e, st2, evs))
     /\ (forall domain e w,
           url_host env input = inr domain ->
           createSiweMessage env
             (siwe_params (Options.address (AuthRequestInit.options init)) (chain_for c (Options.chainId (AuthRequestInit.options init))) domain nonce input
                (OAuthChallenge.scope c)) (world st2) = (inl e, w) ->
           AuthFetch.authFetch env input init st
           = (inl e, moved st2 w,
              (evs ++ [ECreateSiwe
                         (siwe_params (Options.address (AuthRequestInit.options init)) (chain_for c (Options.chainId (AuthRequestInit.options init))) domain nonce input
                            (OAuthChallenge.scope c))])%list)))
  /\ (forall (options : Options.t W) (input : string) (init : option RequestInit.t) (st : State W) c nonce st2 evs,
     bound_nonce_fetched env input init st c nonce st2 evs ->
     (forall e, url_host env input = inl e -> Factory.authFetch_bound env options input init st = (inl e, st2, evs))
     /\ (forall domain e w,
           url_host env input = inr domain ->
           createSiweMessage env
             (siwe_params (Options.address options) (chain_for c (Options.chainId options)) domain nonce input
                (OAuthChallenge.scope c)) (world st2) = (inl e, w) ->
           Factory.authFetch_bound env options input init st
           = (inl e, moved st2 w,
              (evs ++ [ECreateSiwe
                         (siwe_params (Options.address options) (chain_for c (Options.chainId options)) domain nonce input
                            (OAuthChallenge.scope c))])%list)))
  /\ (forall (url : string) (signMessage : string -> W -> (Exn + string) * W) (address : string) (existingToken : option string) (st : State W) c nonce st2 evs,
     oauth_nonce_fetched env url existingToken st c nonce st2 evs ->
     (forall e, url_host env url = inl e -> OAuth.fetchWithOAuth env url signMessage address existingToken st = (inl e, st2, evs))
     /\ (forall domain e w,
           url_host env url = inr domain ->
           createSiweMessage env
             (siwe_params address (Num 1) domain nonce url
                (OAuthChallenge.scope c)) (world st2) = (inl e, w) ->
           OAuth.fetchWithOAuth env url signMessage address existingToken st
           = (inl e, moved st2 w,
              (evs ++ [ECreateSiwe
                         (siwe_params address (Num 1) domain nonce url
                            (OAuthChallenge.scope c))])%list))).
Proof.
  split.
  { intros. now apply authFetch_message_step. }
  split.
  { intros. now apply bound_message_step. }
  intros. now apply oauth_message_step.
Qed.

(** X10.  A signer that fails, as when the user declines, ends the flow with
    the signer's own failure: the token endpoint is not asked and the request
    is not retried. *)
Theorem failed_signature_ends_the_flow {W : Type} (env : Env W) :
  (forall (input : string) (init : AuthRequestInit.t W) (st : State W) c nonce st2 evs siweMessage st3 ev3 e w,
     authFetch_nonce_fetched env input init st c nonce st2 evs ->
     authFetch_message env input init c nonce st2 = (inr siweMessage, st3, ev3) ->
     (Options.signMessage (AuthRequestInit.options init)) siweMessage (world st3) = (inl e, w) ->
     AuthFetch.authFetch env input init st = (inl e, moved st3 w, (evs ++ ev3 ++ [ESign siweMessage])%list))
  /\ (forall (options : Options.t W) (input : string) (init : option RequestInit.t) (st : State W) c nonce st2 evs siweMessage st3 ev3 e w,
     bound_nonce_fetched env input init st c nonce st2 evs ->
     bound_message env options input c nonce st2 = (inr siweMessage, st3, ev3) ->
     (Options.signMessage options) siweMessage (world st3) = (inl e, w) ->
     Factory.authFetch_bound env options input init st = (inl e, moved st3 w, (evs ++ ev3 ++ [ESign siweMessage])%list))
  /\ (forall (url : string) (signMessage : string -> W -> (Exn + string) * W) (address : string) (existingToken : option string) (st : State W) c nonce st2 evs siweMessage st3 ev3 e w,
     oauth_nonce_fetched env url existingToken st c nonce st2 evs ->
     oauth_message env address url c nonce st2 = (inr siweMessage, st3, ev3) ->
     signMessage siweMessage (world st3) = (inl e, w) ->
     OAuth.fetchWithOAuth env url signMessage address existingToken st = (inl e, moved st3 w, (evs ++ ev3 ++ [ESign siweMessage])%list)).
Proof.
  split.
  { intros. eapply authFetch_signature_step; eassumption. }
  split.
  { intros. eapply bound_signature_step; eassumption. }
  intros. eapply oauth_signature_step; eassumption.
Qed.

(** X11.  A token exchange answered with a status outside 200..299 and a
    JSON body ends the flow with an [Error]: its message is the body's
    [error] field when that is a text that is not empty, and
    [Token exchange failed: <status>] when the field is missing or otherwise
    falsy; no callback is invoked and the request is not retried. *)
Theorem refused_exchange_ends_the_flow {W : Type} (env : Env W) :
  (forall (input : string) (init : AuthRequestInit.t W) (st : State W)
          c siweMessage signature st4 evs response w error reason message,
     authFetch_signed env input init st c siweMessage signature st4 evs ->
     fetch env (OAuthChallenge.tokenUri c)
       (exchange_request env siweMessage signature (OAuthChallenge.scope c)) (world st4)
       = (inr response, w) ->
     Response.ok response = false ->
     Response.json response = inr error ->
     get_prop error "error" = inr reason ->
     refusal_message response reason message ->
     AuthFetch.authFetch env input init st
     = (inl (JsError message), moved st4 w,
        (evs ++ [EFetch (OAuthChallenge.tokenUri c)
                   (exchange_request env siweMessage signature
                      (OAuthChallenge.scope c))])%list))
  /\ (forall (options : Options.t W) (input : string) (init : option RequestInit.t) (st : State W)
          c siweMessage signature st4 evs response w error reason message,
     bound_signed env options input init st c siweMessage signature st4 evs ->
     fetch env (OAuthChallenge.tokenUri c)
       (exchange_request env siweMessage signature (OAuthChallenge.scope c)) (world st4)
       = (inr response, w) ->
     Response.ok response = false ->
     Response.json response = inr error ->
     get_prop error "error" = inr reason ->
     refusal_message response reason message ->
     Factory.authFetch_bound env options input init st
     = (inl (JsError message), moved st4 w,
        (evs ++ [EFetch (OAuthChallenge.tokenUri c)
                   (exchange_request env siweMessage signature
                      (OAuthChallenge.scope c))])%list))
  /\ (forall (url : string) (signMessage : string -> W -> (Exn + string) * W) (address : string)
          (existingToken : option string) (st : State W)
          c siweMessage signature st4 evs response w error reason message,
     oauth_signed env url signMessage address existingToken st c siweMessage signature st4 evs ->
     fetch env (OAuthChallenge.tokenUri c)
       (exchange_request env siweMessage signature (OAuthChallenge.scope c)) (world st4)
       = (inr response, w) ->
     Response.ok response = false ->
     Response.json response = inr error ->
     get_prop error "error" = inr reason ->
     refusal_message response reason message ->
     OAuth.fetchWithOAuth env url signMessage address existingToken st
     = (inl (JsError message), moved st4 w,
        (evs ++ [EFetch (OAuthChallenge.tokenUri c)
                   (exchange_request env siweMessage signature
                      (OAuthChallenge.scope c))])%list)).
Proof.
  split; [|split].
  { intros until message. intros Hs Hf Hok Hj Hr Hm.
    eapply authFetch_exchange_step; [exact Hs|exact Hf|].
    unfold exchange_outcome, exchange_refusal. rewrite Hok, Hj, Hr.
    destruct Hm as [m Hm|reason Hm]; [cbn [truthy to_string]|]; now rewrite Hm. }
  { intros until message. intros Hs Hf Hok Hj Hr Hm.
    eapply bound_exchange_step; [exact Hs|exact Hf|].
    unfold exchange_outcome, exchange_refusal. rewrite Hok, Hj, Hr.
    destruct Hm as [m Hm|reason Hm]; [cbn [truthy to_string]|]; now rewrite Hm. }
  { intros until message. intros Hs Hf Hok Hj Hr Hm.
    eapply oauth_exchange_step; [exact Hs|exact Hf|].
    unfold exchange_outcome, exchange_refusal. rewrite Hok, Hj, Hr.
    destruct Hm as [m Hm|reason Hm]; [cbn [truthy to_string]|]; now rewrite Hm. }
Qed.

(** X12.  A refused token exchange whose body is no JSON: [siwe-auth-fetch]
    swallows the failure to read it and throws [Error("Token exchange
    failed: <status>")], while [oauth.ts] throws the reading failure
    itself. *)
Theorem refusal_without_json_body {W : Type} (env : Env W) :
  (forall (input : string) (init : AuthRequestInit.t W) (st : State W) c siweMessage signature st4 evs response w e,
     authFetch_signed env input init st c siweMessage signature st4 evs ->
     fetch env (OAuthChallenge.tokenUri c)
       (exchange_request env siweMessage signature (OAuthChallenge.scope c)) (world st4)
       = (inr response, w) ->
     Response.ok response = false ->
     Response.json response = inl e ->
     AuthFetch.authFetch env input init st
     = (inl (JsError ("Token exchange failed: " ++ show_Z (Response.status response))),
        moved st4 w,
        (evs ++ [EFetch (OAuthChallenge.tokenUri c)
                   (exchange_request env siweMessage signature
                      (OAuthChallenge.scope c))])%list))
  /\ (forall (options : Options.t W) (input : string) (init : option RequestInit.t) (st : State W) c siweMessage signature st4 evs response w e,
     bound_signed env options input init st c siweMessage signature st4 evs ->
     fetch env (OAuthChallenge.tokenUri c)
       (exchange_request env siweMessage signature (OAuthChallenge.scope c)) (world st4)
       = (inr response, w) ->
     Response.ok response = false ->
     Response.json response = inl e ->
     Factory.authFetch_bound env options input init st
     = (inl (JsError ("Token exchange failed: " ++ show_Z (Response.status response))),
        moved st4 w,
        (evs ++ [EFetch (OAuthChallenge.tokenUri c)
                   (exchange_request env siweMessage signature
                      (OAuthChallenge.scope c))])%list))
  /\ (forall (url : string) (signMessage : string -> W -> (Exn + string) * W) (address : string) (existingToken : option string) (st : State W) c siweMessage signature st4 evs response w e,
     oauth_signed env url signMessage address existingToken st c siweMessage signature st4 evs ->
     fetch env (OAuthChallenge.tokenUri c)
       (exchange_request env siweMessage signature (OAuthChallenge.scope c)) (world st4)
       = (inr response, w) ->
     Response.ok response = false ->
     Response.json response = inl e ->
     OAuth.fetchWithOAuth env url signMessage address existingToken st
     = (inl e,
        moved st4 w,
        (evs ++ [EFetch (OAuthChallenge.tokenUri c)
                   (exchange_request env siweMessage signature
                      (OAuthChallenge.scope c))])%list)).
Proof.
  split.
  { intros until e. intros Hs Hf Hok Hj.
    eapply authFetch_exchange_step; [exact Hs|exact Hf|].
    unfold exchange_outcome. now rewrite Hok, Hj. }
  split.
  { intros until e. intros Hs Hf Hok Hj.
    eapply bound_exchange_step; [exact Hs|exact Hf|].
    unfold exchange_outcome. now rewrite Hok, Hj. }
  intros until e. intros Hs Hf Hok Hj.
    eapply oauth_exchange_step; [exact Hs|exact Hf|].
    unfold exchange_outcome. now rewrite Hok, Hj.
Qed.



(** X15.  A token answer that is a JSON object without [access_token] is
    taken as it is: the retry goes out with [Authorization: Bearer
    undefined], and the function bound by [createAuthFetch] keeps
    [undefined] as its token. *)
Theorem token_answer_without_access_token {W : Type} (env : Env W) :
  (forall input (init : AuthRequestInit.t W) st c fields st5 evs st6 ev6,
     authFetch_exchanged env input init st c (JObj fields) st5 evs ->
     assoc "access_token" fields = None ->
     do_onToken (Options.onToken (AuthRequestInit.options init)) (JObj fields) st5
       = (inr tt, st6, ev6) ->
     exists req,
       headers_get "Authorization" (RequestInit.headers req) = Some "Bearer undefined"
       /\ forall r w,
            fetch env input req (world st6) = (r, w) ->
            AuthFetch.authFetch env input init st
            = (r, moved st6 w, evs ++ ev6 ++ [EFetch input req])%list)
  /\ (forall (options : Options.t W) input init st c fields st5 evs st6 ev6,
        bound_exchanged env options input init st c (JObj fields) st5 evs ->
        assoc "access_token" fields = None ->
        do_onToken (Options.onToken options) (JObj fields) (with_token st5 JUndefined)
          = (inr tt, st6, ev6) ->
        exists req,
          headers_get "Authorization" (RequestInit.headers req) = Some "Bearer undefined"
          /\ forall r w,
               fetch env input req (world st6) = (r, w) ->
               Factory.authFetch_bound env options input init st
               = (r, {| world := w; currentToken := JUndefined |},
                  evs ++ ev6 ++ [EFetch input req])%list)
  /\ (forall url signMessage address existingToken (st : State W) c fields st5 evs,
        oauth_exchanged env url signMessage address existingToken st c
          (JObj fields) st5 evs ->
        assoc "access_token" fields = None ->
        exists req,
          headers_get "Authorization" (RequestInit.headers req) = Some "Bearer undefined"
          /\ forall r w,
               fetch env url req (world st5) = (r, w) ->
               exists result,
                 OAuth.fetchWithOAuth env url signMessage address existingToken st
                 = (result, moved st5 w, evs ++ [EFetch url req])%list).
Proof.
  split; [|split].
  - intros input init st c fields st5 evs st6 ev6 Hx Ha Hcb.
    exists (retry_request (AuthRequestInit.fetchInit init) JUndefined).
    split.
    + apply (retry_request_authorized (AuthRequestInit.fetchInit init) JUndefined).
      reflexivity.
    + intros r w Hr.
      eapply authFetch_retry_goes_out;
        [exact Hx|exact Hcb|now apply get_prop_missing|exact Hr].
  - intros options input init st c fields st5 evs st6 ev6 Hx Ha Hcb.
    exists (bound_retry_request init JUndefined).
    split.
    + apply (bound_retry_request_authorized init JUndefined). reflexivity.
    + intros r w Hr.
      eapply bound_retry_goes_out;
        [exact Hx|now apply get_prop_missing|exact Hcb|exact Hr].
  - intros url signMessage address existingToken st c fields st5 evs Hx Ha.
    exists (oauth_retry_request JUndefined).
    split; [reflexivity|].
    intros r w Hr. eexists.
    eapply oauth_retry; [exact Hx|now apply get_prop_missing|exact Hr].
Qed.

(** X16.  The two versions of the one-shot [authFetch], the one with the
    flow inside and the one built on [createAuthFetch], do the same for
    every input and every behaviour of the network, the signer and the
    callback: the same settlement, the same requests, signatures and
    callbacks in the same order, the same world afterwards. *)
Theorem one_shot_versions_agree {W : Type} (env : Env W)
    (input : string) (init : AuthRequestInit.t W) (st : State W) :
  same_outcome (AuthFetch.authFetch env input init st)
               (Factory.authFetch env input init st).
Proof. apply alike_authFetch. Qed.

(** X17.  What a call of the function bound by [createAuthFetch] does to
    [currentToken]: a call that got through the token exchange, its answer
    letting [access_token] be read, ends with [currentToken] being that
    [access_token], whatever the callback and the retry then do; every other
    call, be it unchallenged, stopped on the way or answered in any way,
    leaves [currentToken] as it was. *)
Theorem cached_token_changes_only_by_an_exchange {W : Type} (env : Env W)
    (options : Options.t W) (input : string) (init : option RequestInit.t)
    (st : State W) r st' evs :
  Factory.authFetch_bound env options input init st = (r, st', evs) ->
  (forall c tokenResponse st5 evs5 a,
     bound_exchanged env options input init st c tokenResponse st5 evs5 ->
     get_prop tokenResponse "access_token" = inr a ->
     currentToken st' = a)
  /\ ((forall c tokenResponse st5 evs5 a,
         bound_exchanged env options input init st c tokenResponse st5 evs5 ->
         get_prop tokenResponse "access_token" <> inr a) ->
      currentToken st' = currentToken st).
Proof.
  intros H. split.
  - intros c tokenResponse st5 evs5 a Hx Ha.
    exact (bound_exchange_sets env _ _ _ _ _ _ _ _ _ _ _ _ Hx Ha H).
  - intros Hno. exact (bound_no_exchange_keeps env _ _ _ _ _ _ _ H Hno).
Qed.


(** X19.  No run asks for more than the flow needs: whatever the network,
    the signer and the callback do, a call of [authFetch] (either version)
    or of the function bound by [createAuthFetch] makes at most four
    requests, has at most one message built, asks for at most one
    signature and calls [onToken] at most once; [fetchWithOAuth] likewise,
    and it calls no callback at all. *)
Theorem no_run_asks_more_than_the_flow_needs {W : Type} (env : Env W) :
  (forall input (init : AuthRequestInit.t W) st,
     let evs := (AuthFetch.authFetch env input init st).2 in
     (fetches evs <= 4 /\ messages evs <= 1 /\ signatures evs <= 1
      /\ callbacks evs <= 1)%nat)
  /\ (forall (options : Options.t W) input init st,
        let evs := (Factory.authFetch_bound env options input init st).2 in
        (fetches evs <= 4 /\ messages evs <= 1 /\ signatures evs <= 1
         /\ callbacks evs <= 1)%nat)
  /\ (forall input (init : AuthRequestInit.t W) st,
        let evs := (Factory.authFetch env input init st).2 in
        (fetches evs <= 4 /\ messages evs <= 1 /\ signatures evs <= 1
         /\ callbacks evs <= 1)%nat)
  /\ (forall url signMessage address existingToken (st : State W),
        let evs := (OAuth.fetchWithOAuth env url signMessage address existingToken st).2 in
        (fetches evs <= 4 /\ messages evs <= 1 /\ signatures evs <= 1)%nat
        /\ callbacks evs = 0%nat).
Proof.
  split; [|split; [|split]].
  - intros input init st.
    destruct (AuthFetch.authFetch env input init st) as [[r st'] evs] eqn:H. simpl.
    unfold fetches, messages, signatures, callbacks.
    repeat split;
      match goal with
      | |- (total ?ws _ <= _)%nat => exact (costs_authFetch ws env input init _ _ _ _ H)
      end.
  - intros options input init st.
    destruct (Factory.authFetch_bound env options input init st) as [[r st'] evs] eqn:H.
    simpl.
    unfold fetches, messages, signatures, callbacks.
    repeat split;
      match goal with
      | |- (total ?ws _ <= _)%nat =>
          exact (costs_authFetch_bound ws env options input init _ _ _ _ H)
      end.
  - intros input init st.
    destruct (Factory.authFetch env input init st) as [[r st'] evs] eqn:H. simpl.
    unfold fetches, messages, signatures, callbacks.
    repeat split;
      match goal with
      | |- (total ?ws _ <= _)%nat =>
          exact (costs_factory_authFetch ws env input init _ _ _ _ H)
      end.
  - intros url signMessage address existingToken st.
    destruct (OAuth.fetchWithOAuth env url signMessage address existingToken st)
      as [[r st'] evs] eqn:H. simpl.
    unfold fetches, messages, signatures, callbacks.
    repeat split;
      try match goal with
      | |- (total ?ws _ <= _)%nat =>
          exact (costs_fetchWithOAuth ws env url signMessage address existingToken
                   _ _ _ _ H)
      end.
    pose proof (costs_fetchWithOAuth
                  {| w_fetch := 0; w_parse := 0; w_siwe := 0; w_sign := 0; w_token := 1 |}
                  env url signMessage address existingToken _ _ _ _ H) as Hc.
    unfold oauth_flow in Hc. simpl in Hc. lia.
Qed.

(** ** What is sent to the token endpoint *)

Section ExchangeProps.
Context {W : Type} (env : Env W).

Lemma exchange_request_fields message signature scope :
  RequestInit.method (exchange_request env message signature scope) = Some "POST"
  /\ RequestInit.headers (exchange_request env message signature scope)
     = [("Content-Type", "application/json")]
  /\ RequestInit.body (exchange_request env message signature scope)
     = Some (JSON_stringify env
               (JObj [("grant_type", JStr "eth_signature");
                      ("message", JStr message);
                      ("signature", JStr signature);
                      ("scope", JStr scope)])).
Proof. repeat split. Qed.

Lemma authFetch_signs input (init : AuthRequestInit.t W) st c nonce st2 evs
    message st3 ev3 signature w :
  authFetch_nonce_fetched env input init st c nonce st2 evs ->
  authFetch_message env input init c nonce st2 = (inr message, st3, ev3) ->
  Options.signMessage (AuthRequestInit.options init) message (world st3)
    = (inr signature, w) ->
  authFetch_signed env input init st c message signature (moved st3 w)
    (evs ++ ev3 ++ [ESign message])%list.
Proof.
  intros Hn Hm Hs. exists nonce, st2, evs, st3, ev3, [ESign message].
  split; [exact Hn|]. split; [exact Hm|]. split; [|reflexivity].
  now apply do_sign_run.
Qed.

Lemma bound_signs (options : Options.t W) input init st c nonce st2 evs
    message st3 ev3 signature w :
  bound_nonce_fetched env input init st c nonce st2 evs ->
  bound_message env options input c nonce st2 = (inr message, st3, ev3) ->
  Options.signMessage options message (world st3) = (inr signature, w) ->
  bound_signed env options input init st c message signature (moved st3 w)
    (evs ++ ev3 ++ [ESign message])%list.
Proof.
  intros Hn Hm Hs. exists nonce, st2, evs, st3, ev3, [ESign message].
  split; [exact Hn|]. split; [exact Hm|]. split; [|reflexivity].
  now apply do_sign_run.
Qed.

Lemma oauth_signs url signMessage address existingToken (st : State W) c nonce st2 evs
    message st3 ev3 signature w :
  oauth_nonce_fetched env url existingToken st c nonce st2 evs ->
  oauth_message env address url c nonce st2 = (inr message, st3, ev3) ->
  signMessage message (world st3) = (inr signature, w) ->
  oauth_signed env url signMessage address existingToken st c message signature
    (moved st3 w) (evs ++ ev3 ++ [ESign message])%list.
Proof.
  intros Hn Hm Hs. exists nonce, st2, evs, st3, ev3, [ESign message].
  split; [exact Hn|]. split; [exact Hm|]. split; [|reflexivity].
  now apply do_sign_run.
Qed.
End ExchangeProps.

(** X22.  What was signed is what is exchanged: once the message is built
    and the signer has answered, the next thing a run does is a [POST] to
    the challenge's [token_uri] with the one header
    [Content-Type: application/json] and for body the JSON text of
    [grant_type: "eth_signature"], the very message the signer was shown,
    the signer's answer and the scope of the challenge as it came. *)
Theorem signed_message_is_exchanged {W : Type} (env : Env W) :
  (forall input (init : AuthRequestInit.t W) st c nonce st2 evs
          message st3 ev3 signature w,
     authFetch_nonce_fetched env input init st c nonce st2 evs ->
     authFetch_message env input init c nonce st2 = (inr message, st3, ev3) ->
     Options.signMessage (AuthRequestInit.options init) message (world st3)
       = (inr signature, w) ->
     exists req r st' rest,
       AuthFetch.authFetch env input init st
       = (r, st',
          ((evs ++ ev3 ++ [ESign message])
           ++ [EFetch (OAuthChallenge.tokenUri c) req]) ++ rest)%list
       /\ RequestInit.method req = Some "POST"
       /\ RequestInit.headers req = [("Content-Type", "application/json")]
       /\ RequestInit.body req
          = Some (JSON_stringify env
                    (JObj [("grant_type", JStr "eth_signature");
                           ("message", JStr message);
                           ("signature", JStr signature);
                           ("scope", JStr (OAuthChallenge.scope c))])))
  /\ (forall (options : Options.t W) input init st c nonce st2 evs
             message st3 ev3 signature w,
        bound_nonce_fetched env input init st c nonce st2 evs ->
        bound_message env options input c nonce st2 = (inr message, st3, ev3) ->
        Options.signMessage options message (world st3) = (inr signature, w) ->
        exists req r st' rest,
          Factory.authFetch_bound env options input init st
          = (r, st',
             ((evs ++ ev3 ++ [ESign message])
              ++ [EFetch (OAuthChallenge.tokenUri c) req]) ++ rest)%list
          /\ RequestInit.method req = Some "POST"
          /\ RequestInit.headers req = [("Content-Type", "application/json")]
          /\ RequestInit.body req
             = Some (JSON_stringify env
                       (JObj [("grant_type", JStr "eth_signature");
                              ("message", JStr message);
                              ("signature", JStr signature);
                              ("scope", JStr (OAuthChallenge.scope c))])))
  /\ (forall url signMessage address existingToken (st : State W) c nonce st2 evs
             message st3 ev3 signature w,
        oauth_nonce_fetched env url existingToken st c nonce st2 evs ->
        oauth_message env address url c nonce st2 = (inr message, st3, ev3) ->
        signMessage message (world st3) = (inr signature, w) ->
        exists req r st' rest,
          OAuth.fetchWithOAuth env url signMessage address existingToken st
          = (r, st',
             ((evs ++ ev3 ++ [ESign message])
              ++ [EFetch (OAuthChallenge.tokenUri c) req]) ++ rest)%list
          /\ RequestInit.method req = Some "POST"
          /\ RequestInit.headers req = [("Content-Type", "application/json")]
          /\ RequestInit.body req
             = Some (JSON_stringify env
                       (JObj [("grant_type", JStr "eth_signature");
                              ("message", JStr message);
                              ("signature", JStr signature);
                              ("scope", JStr (OAuthChallenge.scope c))]))).
Proof.
  split; [|split].
  - intros input init st c nonce st2 evs message st3 ev3 signature w Hn Hm Hs.
    destruct (authFetch_exchange_request env input init st c message signature _ _
                (authFetch_signs env _ _ _ _ _ _ _ _ _ _ _ _ Hn Hm Hs))
      as (r & st' & rest & H).
    exists (exchange_request env message signature (OAuthChallenge.scope c)), r, st', rest.
    split; [exact H|]. apply exchange_request_fields.
  - intros options input init st c nonce st2 evs message st3 ev3 signature w Hn Hm Hs.
    destruct (bound_exchange_request env options input init st c message signature _ _
                (bound_signs env _ _ _ _ _ _ _ _ _ _ _ _ _ Hn Hm Hs))
      as (r & st' & rest & H).
    exists (exchange_request env message signature (OAuthChallenge.scope c)), r, st', rest.
    split; [exact H|]. apply exchange_request_fields.
  - intros url signMessage address existingToken st c nonce st2 evs
           message st3 ev3 signature w Hn Hm Hs.
    destruct (oauth_exchange_request env url signMessage address existingToken
                st c message signature _ _
                (oauth_signs env _ _ _ _ _ _ _ _ _ _ _ _ _ _ Hn Hm Hs))
      as (r & st' & rest & H).
    exists (exchange_request env message signature (OAuthChallenge.scope c)), r, st', rest.
    split; [exact H|]. apply exchange_request_fields.
Qed.

(** ** The scripted cases at work *)

Lemma cases_challenged host options rest :
  Options.token options = None ->
  authFetch_challenged (Cases.env_with_host host) Scenario.resource (Cases.init_of options)
    (Scenario.start (Cases.challenged_then rest)) Scenario.challenge
    (Scenario.start rest)
    [EFetch Scenario.resource no_init; EParse Scenario.challenge_text].
Proof.
  intros Ht. unfold authFetch_challenged, challenged, first_request. simpl.
  rewrite Ht. simpl.
  eexists _, _. split; [reflexivity|].
  split; [reflexivity|]. split; [|split; reflexivity].
  exists Scenario.challenge_text. split; [reflexivity|]. vm_compute. reflexivity.
Qed.

Lemma cases_nonce_fetched host options rest :
  Options.token options = None ->
  authFetch_nonce_fetched (Cases.env_with_host host) Scenario.resource
    (Cases.init_of options) (Scenario.start (Cases.nonce_then rest))
    Scenario.challenge (JStr "N1abcdefg") (Scenario.start rest)
    (Scenario.events_to_nonce Scenario.challenge_text).
Proof.
  intros Ht. eexists _, _, _. split; [exact (cases_challenged host options _ Ht)|].
  split; reflexivity.
Qed.

Lemma cases_signed rest :
  authFetch_signed Scenario.env Scenario.resource Scenario.init
    (Scenario.start (Cases.nonce_then rest)) Scenario.challenge
    Scenario.siwe_text "0x5164" (Scenario.start rest) Scenario.events_to_signature.
Proof.
  eexists _, _, _, _, _, _.
  split; [exact (cases_nonce_fetched _ Scenario.options rest eq_refl)|].
  split; [reflexivity|]. split; reflexivity.
Qed.

Lemma rejected_first_request_ends_the_run_witness :
  AuthFetch.authFetch Scenario.env Scenario.resource Scenario.init
    (Scenario.start [inl (Rejected "offline")])
  = (inl (Rejected "offline"), Scenario.start [],
     [EFetch Scenario.resource no_init]).
Proof.
  exact (proj1 (rejected_first_request_ends_the_run Scenario.env)
           Scenario.resource Scenario.init
           (Scenario.start [inl (Rejected "offline")]) _ [] eq_refl).
Defined.

Lemma failed_nonce_request_ends_the_flow_witness :
  AuthFetch.authFetch Scenario.env Scenario.resource Scenario.init
    (Scenario.start (Cases.challenged_then [inr Cases.server_error]))
  = (inl (JsError "Failed to fetch nonce: 500"), Scenario.start [],
     [EFetch Scenario.resource no_init; EParse Scenario.challenge_text;
      EFetch Scenario.nonce_url no_init]).
Proof.
  exact (proj2 (proj1 (failed_nonce_request_ends_the_flow Scenario.env)
                  Scenario.resource Scenario.init _ _ _ _
                  (cases_challenged _ Scenario.options [inr Cases.server_error] eq_refl))
           Cases.server_error [] eq_refl eq_refl).
Defined.

Lemma missing_nonce_goes_unnoticed_witness :
  exists r st' rest,
    AuthFetch.authFetch Scenario.env Scenario.resource Scenario.init
      (Scenario.start (Cases.challenged_then [inr Cases.empty_object]))
    = (r, st',
       (([EFetch Scenario.resource no_init; EParse Scenario.challenge_text]
         ++ [EFetch Scenario.nonce_url no_init])
        ++ [ECreateSiwe
              (siwe_params (Options.address Scenario.options) (Num 1)
                 "api.example.com" JUndefined Scenario.resource "a b")])
       ++ rest)%list.
Proof.
  exact (proj1 (missing_nonce_goes_unnoticed Scenario.env)
           Scenario.resource Scenario.init _ _ _ _ Cases.empty_object [] []
           "api.example.com"
           (cases_challenged _ Scenario.options [inr Cases.empty_object] eq_refl)
           eq_refl eq_refl eq_refl eq_refl eq_refl).
Defined.

Lemma unbuildable_message_ends_the_flow_witness :
  AuthFetch.authFetch (Cases.env_with_host Cases.invalid_url) Scenario.resource
    Scenario.init (Scenario.start (Cases.nonce_then []))
  = (inl (TypeError "Invalid URL"), Scenario.start [],
     Scenario.events_to_nonce Scenario.challenge_text).
Proof.
  exact (proj1 (proj1 (unbuildable_message_ends_the_flow
                         (Cases.env_with_host Cases.invalid_url))
                  Scenario.resource Scenario.init _ _ _ _ _
                  (cases_nonce_fetched Cases.invalid_url Scenario.options [] eq_refl))
           _ eq_refl).
Defined.

Lemma failed_signature_ends_the_flow_witness :
  AuthFetch.authFetch Scenario.env Scenario.resource
    (Cases.init_of Cases.options_declining) (Scenario.start (Cases.nonce_then []))
  = (inl (Rejected "User rejected the request"), Scenario.start [],
     Scenario.events_to_nonce Scenario.challenge_text
     ++ [ECreateSiwe (siwe_params (Options.address Scenario.options) (Num 1)
                        "api.example.com" (JStr "N1abcdefg") Scenario.resource "a b")]
     ++ [ESign Scenario.siwe_text])%list.
Proof.
  exact (proj1 (failed_signature_ends_the_flow Scenario.env)
           Scenario.resource (Cases.init_of Cases.options_declining)
           _ _ _ _ _ Scenario.siwe_text (Scenario.start []) _ _ []
           (cases_nonce_fetched _ Cases.options_declining [] eq_refl)
           eq_refl eq_refl).
Defined.

Lemma refused_exchange_ends_the_flow_witness :
  AuthFetch.authFetch Scenario.env Scenario.resource Scenario.init
    (Scenario.start (Cases.nonce_then [inr Cases.invalid_signature]))
  = (inl (JsError "invalid_signature"), Scenario.start [],
     Scenario.events_to_exchange).
Proof.
  exact (proj1 (refused_exchange_ends_the_flow Scenario.env)
           Scenario.resource Scenario.init _ _ _ _ _ _ Cases.invalid_signature []
           _ (JStr "invalid_signature") "invalid_signature"
           (cases_signed [inr Cases.invalid_signature]) eq_refl eq_refl eq_refl eq_refl
           (refusal_named _ "invalid_signature" eq_refl)).
Defined.

Lemma refusal_without_json_body_witness :
  AuthFetch.authFetch Scenario.env Scenario.resource Scenario.init
    (Scenario.start (Cases.nonce_then [inr Cases.bad_gateway]))
  = (inl (JsError "Token exchange failed: 502"), Scenario.start [],
     Scenario.events_to_exchange).
Proof.
  exact (proj1 (refusal_without_json_body Scenario.env)
           Scenario.resource Scenario.init _ _ _ _ _ _ Cases.bad_gateway [] _
           (cases_signed [inr Cases.bad_gateway]) eq_refl eq_refl eq_refl).
Defined.

Lemma cases_exchanged tokenResponse rest :
  authFetch_exchanged Scenario.env Scenario.resource Scenario.init
    (Scenario.start (Cases.nonce_then (Cases.granted tokenResponse :: rest)))
    Scenario.challenge tokenResponse (Scenario.start rest)
    Scenario.events_to_exchange.
Proof.
  eexists _, _, _, _, _. split; [exact (cases_signed _)|].
  split; reflexivity.
Qed.



Lemma token_answer_without_access_token_witness :
  exists req,
    headers_get "Authorization" (RequestInit.headers req) = Some "Bearer undefined"
    /\ AuthFetch.authFetch Scenario.env Scenario.resource Scenario.init
         (Scenario.start
            (Cases.nonce_then [Cases.granted Cases.token_type_only; inr Scenario.unauthorized]))
       = (inr Scenario.unauthorized, Scenario.start [],
          Scenario.events_to_exchange
          ++ [EOnToken JUndefined JUndefined]
          ++ [EFetch Scenario.resource req])%list.
Proof.
  destruct (proj1 (token_answer_without_access_token Scenario.env)
              Scenario.resource Scenario.init _ _ _ _ _
              (Scenario.start [inr Scenario.unauthorized])
              [EOnToken JUndefined JUndefined]
              (cases_exchanged Cases.token_type_only [inr Scenario.unauthorized])
              eq_refl eq_refl) as (req & Hreq & Hrun).
  exists req. split; [exact Hreq|].
  exact (Hrun (inr Scenario.unauthorized) [] eq_refl).
Defined.

Lemma cases_bound_challenged rest :
  bound_challenged Scenario.env Scenario.resource None
    (Scenario.start (Cases.challenged_then rest)) Scenario.challenge
    (Scenario.start rest)
    [EFetch Scenario.resource no_init; EParse Scenario.challenge_text].
Proof.
  eexists _, _. split; [reflexivity|].
  split; [reflexivity|]. split; [|split; reflexivity].
  exists Scenario.challenge_text. split; [reflexivity|]. vm_compute. reflexivity.
Qed.

Lemma cases_bound_signed rest :
  bound_signed Scenario.env Scenario.options Scenario.resource None
    (Scenario.start (Cases.nonce_then rest)) Scenario.challenge
    Scenario.siwe_text "0x5164" (Scenario.start rest) Scenario.events_to_signature.
Proof.
  eexists (JStr "N1abcdefg"), (Scenario.start rest),
    (Scenario.events_to_nonce Scenario.challenge_text), _, _, _.
  split.
  { eexists _, _, _. split; [exact (cases_bound_challenged _)|]. split; reflexivity. }
  split; [reflexivity|]. split; reflexivity.
Qed.

Lemma cases_bound_exchanged tokenResponse rest :
  bound_exchanged Scenario.env Scenario.options Scenario.resource None
    (Scenario.start (Cases.nonce_then (Cases.granted tokenResponse :: rest)))
    Scenario.challenge tokenResponse (Scenario.start rest)
    Scenario.events_to_exchange.
Proof.
  eexists _, _, _, _, _. split; [exact (cases_bound_signed _)|].
  split; reflexivity.
Qed.

Lemma cached_token_changes_only_by_an_exchange_witness :
  currentToken (with_token (Scenario.start []) (JStr "T1")) = JStr "T1".
Proof.
  refine (proj1 (cached_token_changes_only_by_an_exchange Scenario.env Scenario.options
                   Scenario.resource None
                   (Scenario.start
                      (Cases.nonce_then [Scenario.token_response; inr Cases.success]))
                   (inr Cases.success) (with_token (Scenario.start []) (JStr "T1"))
                   (Scenario.events_to_exchange
                    ++ [EOnToken (JStr "T1") (JStr "a b");
                        EFetch Scenario.resource
                          (bound_retry_request None (JStr "T1"))])%list
                   _)
            _ _ _ _ _
            (cases_bound_exchanged Scenario.token_json [inr Cases.success]) eq_refl).
  vm_compute. reflexivity.
Defined.


Lemma signed_message_is_exchanged_witness :
  exists req r st' rest,
    AuthFetch.authFetch Scenario.env Scenario.resource Scenario.init
      (Scenario.start (Cases.nonce_then [inr Cases.bad_gateway]))
    = (r, st',
       ((Scenario.events_to_nonce Scenario.challenge_text
         ++ [ECreateSiwe (siwe_params (Options.address Scenario.options) (Num 1)
                            "api.example.com" (JStr "N1abcdefg") Scenario.resource "a b")]
         ++ [ESign Scenario.siwe_text])
        ++ [EFetch "https://api.example.com/api/auth/token" req]) ++ rest)%list
    /\ RequestInit.method req = Some "POST"
    /\ RequestInit.headers req = [("Content-Type", "application/json")]
    /\ RequestInit.body req
       = Some (Scenario.stringify
                 (JObj [("grant_type", JStr "eth_signature");
                        ("message", JStr Scenario.siwe_text);
                        ("signature", JStr "0x5164");
                        ("scope", JStr "a b")])).
Proof.
  exact (proj1 (signed_message_is_exchanged Scenario.env)
           Scenario.resource Scenario.init _ _ _ _ _ Scenario.siwe_text
           (Scenario.start [inr Cases.bad_gateway]) _ "0x5164" [inr Cases.bad_gateway]
           (cases_nonce_fetched _ Scenario.options [inr Cases.bad_gateway] eq_refl)
           eq_refl eq_refl).
Defined.

Lemma hook_asks_for_the_authors_messages_witness :
  exists req r st' rest,
    Hook.queryFn Scenario.env Cases.react None Scenario.signMessage
      (Some (Options.address Scenario.options)) (Some "T1")
      (Scenario.start [inr Cases.messages_response])
    = (r, st',
       EFetch "http://localhost:3000/api/authors/0xd8da6bf26964af9d7eed9e03e53415d37aa96045/messages"
         req :: rest)
    /\ authorized_as "Bearer T1" no_init req.
Proof.
  exact (proj1 (proj2 (proj2 (hook_asks_for_the_authors_messages Scenario.env Cases.react
                                None Scenario.signMessage
                                (Scenario.start [inr Cases.messages_response]))))
           (Options.address Scenario.options) (Some "T1") eq_refl).
Defined.

Lemma hook_stores_the_token_it_gets_witness :
  Hook.mutationFn Scenario.env Cases.react None Scenario.signMessage
    (Some (Options.address Scenario.options))
    (Scenario.start [inr Cases.messages_response])
  = (inr Cases.messages_body, Scenario.start [],
     [EFetch (App.getAuthorMessagesUrl None (Options.address Scenario.options)) no_init]).
Proof.
  exact (proj2 (hook_stores_the_token_it_gets Scenario.env Cases.react None
                  Scenario.signMessage (Options.address Scenario.options)
                  (Scenario.start [inr Cases.messages_response])
                  Cases.messages_response [] Cases.messages_body
                  eq_refl eq_refl eq_refl)
           eq_refl).
Defined.
